(** * NetSuite Auto-Upload: the upload resolution and synchronisation core

    A shallow embedding of the two halves of the repository:

    - [netsuite-restlet/autoUploadRESTlet.js], the server-side RESTlet
      (module [Restlet]): request validation, folder lookup and creation,
      the create-or-update of a File Cabinet file;
    - [vscode-extension/src/extension.js], the editor extension
      (modules [Extension] and [Dispatcher]): configuration lookup, the
      mapping of a saved file to the file to upload and to its File
      Cabinet path, the signed request, the per-file debounce timers.

    JavaScript strings are modelled by [string], a sequence of 8-bit code
    units.  Case mapping and the white-space class are those of JavaScript
    on the ASCII range; code units from 128 on are left alone by
    [toLowerCase] and are not white space. *)

From Stdlib Require Import String Ascii List ZArith Lia Bool Sorted.
From stdpp Require Import gmap strings pretty.
Import ListNotations.
Local Open Scope string_scope.

(** ** JavaScript string primitives used by the sources *)

Module Js.

Definition isSlash (c : ascii) : bool := Ascii.eqb c "/"%char.
Definition isBackslash (c : ascii) : bool := Ascii.eqb c "\"%char.

(** [s.length] *)
Definition len (s : string) : Z := Z.of_nat (String.length s).

(** [s.startsWith(p)] *)
Fixpoint startsWith (s p : string) {struct p} : bool :=
  match p with
  | EmptyString => true
  | String a p' =>
      match s with
      | EmptyString => false
      | String b s' => Ascii.eqb a b && startsWith s' p'
      end
  end.

(** [s.substring(n)] *)
Fixpoint substringFrom (n : nat) (s : string) : string :=
  match n, s with
  | O, _ => s
  | S _, EmptyString => EmptyString
  | S n', String _ s' => substringFrom n' s'
  end.

(** [s.substring(0, n)] *)
Fixpoint substringTo (n : nat) (s : string) : string :=
  match n, s with
  | O, _ => EmptyString
  | S _, EmptyString => EmptyString
  | S n', String c s' => String c (substringTo n' s')
  end.

(** [s.indexOf(needle)]; [None] stands for [-1]. *)
Fixpoint indexOf (s needle : string) : option nat :=
  if startsWith s needle then Some O
  else match s with
       | EmptyString => None
       | String _ s' => option_map S (indexOf s' needle)
       end.

(** [s.includes(needle)] *)
Definition includes (s needle : string) : bool :=
  match indexOf s needle with Some _ => true | None => false end.

Fixpoint mapChars (f : ascii -> ascii) (s : string) : string :=
  match s with
  | EmptyString => EmptyString
  | String c s' => String (f c) (mapChars f s')
  end.

Definition lowerChar (c : ascii) : ascii :=
  let n := nat_of_ascii c in
  if (65 <=? n)%nat && (n <=? 90)%nat then ascii_of_nat (n + 32) else c.

(** [s.toLowerCase()] *)
Definition toLowerCase (s : string) : string := mapChars lowerChar s.

(** [s.replace(/\\/g, '/')] *)
Definition backslashesToSlashes (s : string) : string :=
  mapChars (fun c => if isBackslash c then "/"%char else c) s.

(** [s.replace(/\/+/g, '/')]: every maximal run of slashes becomes one. *)
Fixpoint collapseSlashes (s : string) : string :=
  match s with
  | EmptyString => EmptyString
  | String c s' =>
      if isSlash c then
        match s' with
        | EmptyString => String c EmptyString
        | String c' _ =>
            if isSlash c' then collapseSlashes s'
            else String c (collapseSlashes s')
        end
      else String c (collapseSlashes s')
  end.

(** [s.replace(/^\/+/, '')] *)
Fixpoint stripLeadingSlashes (s : string) : string :=
  match s with
  | EmptyString => EmptyString
  | String c s' => if isSlash c then stripLeadingSlashes s' else s
  end.

Definition isEmpty (s : string) : bool :=
  match s with EmptyString => true | String _ _ => false end.

(** [s.replace(/\/+$/, '')] *)
Fixpoint stripTrailingSlashes (s : string) : string :=
  match s with
  | EmptyString => EmptyString
  | String c s' =>
      let r := stripTrailingSlashes s' in
      if isSlash c && isEmpty r then EmptyString else String c r
  end.

(** [s.replace(/^\/+|\/+$/g, '')] *)
Definition stripSlashes (s : string) : string :=
  stripTrailingSlashes (stripLeadingSlashes s).

(** White space of [String.prototype.trim] on the ASCII range:
    TAB, LF, VT, FF, CR and the space. *)
Definition isSpace (c : ascii) : bool :=
  let n := nat_of_ascii c in
  ((9 <=? n)%nat && (n <=? 13)%nat) || (n =? 32)%nat.

Fixpoint trimStart (s : string) : string :=
  match s with
  | EmptyString => EmptyString
  | String c s' => if isSpace c then trimStart s' else s
  end.

Fixpoint trimEnd (s : string) : string :=
  match s with
  | EmptyString => EmptyString
  | String c s' =>
      let r := trimEnd s' in
      if isSpace c && isEmpty r then EmptyString else String c r
  end.

(** [s.trim()] *)
Definition trim (s : string) : string := trimEnd (trimStart s).

(** [s.split(sep)] for a one-character separator: never empty,
    [''.split('/')] is [['']]. *)
Fixpoint split (sep : ascii) (s : string) : list string :=
  match s with
  | EmptyString => [EmptyString]
  | String c s' =>
      if Ascii.eqb c sep then EmptyString :: split sep s'
      else match split sep s' with
           | [] => [String c EmptyString]
           | h :: t => String c h :: t
           end
  end.

(** [parts.join(sep)] *)
Fixpoint join (sep : string) (parts : list string) : string :=
  match parts with
  | [] => EmptyString
  | [p] => p
  | p :: rest => p ++ sep ++ join sep rest
  end.

(** [parts.pop()] on a non-empty array: the last element. *)
Definition pop (parts : list string) : string := List.last parts EmptyString.

(** A string is truthy when it is not empty. *)
Definition truthy (s : string) : bool := negb (isEmpty s).

(** [o || d] on optional strings: [undefined], [null] and [''] are falsy. *)
Definition orElse (o : option string) (d : string) : string :=
  match o with
  | Some s => if truthy s then s else d
  | None => d
  end.

(** Truthiness of an optional string ([!x] is its negation). *)
Definition present (o : option string) : bool :=
  match o with Some s => truthy s | None => false end.

(** The replacement patterns of [String.prototype.replace]: in the
    replacement text [$$] is a dollar sign, [$&] the matched text,
    [$`] the text before the match and [$'] the text after it.  A
    string pattern has no capture groups, so [$1] and the like stay as
    they are. *)
Fixpoint expandReplacement (repl matched before after : string) : string :=
  match repl with
  | EmptyString => EmptyString
  | String c r =>
      if Ascii.eqb c "$"%char then
        match r with
        | String d r' =>
            if Ascii.eqb d "$"%char then
              String "$"%char (expandReplacement r' matched before after)
            else if Ascii.eqb d "&"%char then
              matched ++ expandReplacement r' matched before after
            else if Ascii.eqb d "`"%char then
              before ++ expandReplacement r' matched before after
            else if Ascii.eqb d "'"%char then
              after ++ expandReplacement r' matched before after
            else String c (expandReplacement r matched before after)
        | EmptyString => String c EmptyString
        end
      else String c (expandReplacement r matched before after)
  end.

(** [s.replace(pattern, repl)] with a string pattern: the first
    occurrence only. *)
Definition replaceFirst (s pattern repl : string) : string :=
  match indexOf s pattern with
  | None => s
  | Some i =>
      let before := substringTo i s in
      let after := substringFrom (i + String.length pattern) s in
      before ++ expandReplacement repl pattern before after ++ after
  end.

(** After [collapseSlashes] a slash is never followed by a slash. *)
Fixpoint slashFree (s : string) : Prop :=
  match s with
  | EmptyString => True
  | String c s' =>
      match s' with
      | EmptyString => True
      | String c' _ => (isSlash c && isSlash c' = false) /\ slashFree s'
      end
  end.

End Js.


(** ** Computations that read and change a world and may throw *)

Module Eff.

(** A thrown error object: its [name] and its [message]. *)
Record Exn := { exn_name : string; exn_message : string }.

(** [new Error(message)] *)
Definition Error (message : string) : Exn :=
  {| exn_name := "Error"; exn_message := message |}.

(** [e.toString()] of an error object *)
Definition exnToString (e : Exn) : string :=
  if Js.isEmpty (exn_name e) then exn_message e
  else if Js.isEmpty (exn_message e) then exn_name e
  else exn_name e ++ ": " ++ exn_message e.

Definition M (W A : Type) : Type := W -> (Exn + A) * W.

Section Operations.
Context {W : Type}.

Definition ret {A} (a : A) : M W A := fun w => (inr a, w).

Definition throw {A} (e : Exn) : M W A := fun w => (inl e, w).

Definition bind {A B} (m : M W A) (k : A -> M W B) : M W B :=
  fun w =>
    match m w with
    | (inl e, w') => (inl e, w')
    | (inr a, w') => k a w'
    end.

(** [try { m } catch (e) { h(e) }] *)
Definition tryCatch {A} (m : M W A) (h : Exn -> M W A) : M W A :=
  fun w =>
    match m w with
    | (inl e, w') => h e w'
    | (inr a, w') => (inr a, w')
    end.

(** Read the world. *)
Definition gets {A} (f : W -> A) : M W A := fun w => (inr (f w), w).

(** Change the world. *)
Definition modify (f : W -> W) : M W unit := fun w => (inr tt, f w).
End Operations.

Notation "'let*' x := m 'in' k" := (bind m (fun x => k))
  (at level 10, x name, m at level 100, k at level 200, only parsing).

Notation "m ;; k" := (bind m (fun _ => k))
  (at level 100, k at level 200, right associativity, only parsing).

End Eff.

(** ** The RESTlet: [netsuite-restlet/autoUploadRESTlet.js] *)

Module Restlet.

Import Js Eff.

(** *** Configuration *)

Record Config := {
  defaultRootFolder : Z;
  allowedExtensions : list string;
  maxFileSize : Z;
  debugMode : bool
}.

Definition CONFIG : Config := {|
  defaultRootFolder := -15;
  allowedExtensions := [];
  maxFileSize := 5 * 1024 * 1024;
  debugMode := true
|}.

(** *** The File Cabinet and the platform modules

    The RESTlet runs inside the NetSuite platform and reaches the File
    Cabinet through the modules N/query, N/record and N/file.  The
    cabinet is a table of folders and a table of files; a platform call
    either answers or throws.  Which calls throw is not decided by the
    RESTlet, so the world carries a script of outcomes, one entry per
    platform call ([true]: the call throws), and a journal of the calls
    made so far. *)

Inductive FileType :=
| JAVASCRIPT | HTMLDOC | STYLESHEET | PLAINTEXT | XMLDOC | JSON | CSV
| EXCEL | PDF | WORD | PNGIMAGE | JPGIMAGE | GIFIMAGE | SVGIMAGE | ICON
| BMPIMAGE | ZIP | GZIP | TAR | MP3 | MP4 | MOV | POWERPOINT | FREEMARKER.

Inductive Encoding := UTF_8 | BASE_64.

Inductive NameConflictResolution := OVERWRITE.

Record FolderRow := {
  folder_id : Z;
  folder_name : string;
  folder_parent : option Z          (* [null] for a top-level folder *)
}.

Record FileRow := {
  file_id : Z;
  file_name : string;
  file_folder : Z;
  file_type : FileType;
  file_contents : string;
  file_description : string;
  file_encoding : Encoding
}.

(** The options object handed to [file.create]. *)
Record FileOptions := {
  opt_name : string;
  opt_fileType : FileType;
  opt_folder : Z;
  opt_contents : string;
  opt_description : string;
  opt_encoding : Encoding;
  opt_conflictResolution : option NameConflictResolution
}.

(** A bound parameter of a SuiteQL statement. *)
Inductive Param := PStr (s : string) | PNum (n : Z).

(** The three SuiteQL statements the RESTlet builds.  The parameters
    are bound to the [?] marks in the order of the statement's text.
    - [SelectFolderChain n]:
      [SELECT f<n>.id as id FROM MediaItemFolder f1] followed, for
      [i] from 2 to [n], by
      [INNER JOIN MediaItemFolder f<i> ON f<i>.parent = f<i-1>.id AND f<i>.name = ?]
      and by [WHERE f1.parent = ? AND f1.name = ?];
    - [SelectFile]:
      [SELECT id, name, folder FROM File WHERE name = ? AND folder = ?];
    - [SelectFoldersNamed n]:
      [SELECT id, name, parent FROM MediaItemFolder WHERE name IN (?,...,?)]
      with [n] marks. *)
Inductive Sql :=
| SelectFolderChain (n : nat)
| SelectFile
| SelectFoldersNamed (n : nat).

Inductive Call :=
| RunSuiteQL (sql : Sql) (params : list Param)
| FolderSave (name : string) (parent : Z)
| FileSave (options : FileOptions).

Record World := {
  folders : list FolderRow;
  files : list FileRow;
  faults : list bool;               (* outcome of the coming platform calls *)
  journal : list (Call * bool)      (* calls made, oldest first; [true]: it threw *)
}.

Abbreviation M := (Eff.M World).

Definition setFaults (fs : list bool) (w : World) : World :=
  {| folders := folders w; files := files w; faults := fs; journal := journal w |}.

Definition setFolders (l : list FolderRow) (w : World) : World :=
  {| folders := l; files := files w; faults := faults w; journal := journal w |}.

Definition setFiles (l : list FileRow) (w : World) : World :=
  {| folders := folders w; files := l; faults := faults w; journal := journal w |}.

Definition logCall (c : Call) (threw : bool) (w : World) : World :=
  {| folders := folders w; files := files w; faults := faults w;
     journal := journal w ++ [(c, threw)] |}.

Definition platformError : Exn :=
  {| exn_name := "UNEXPECTED_ERROR"; exn_message := "The platform call failed" |}.

Definition invalidParameters : Exn :=
  {| exn_name := "SSS_INVALID_SRCH_QUERY"; exn_message := "Invalid parameters" |}.

(** A platform call: the next entry of the script says whether it
    throws; when it does not, [op] answers and may change the cabinet. *)
Definition invoke {A} (c : Call) (op : World -> (Exn + A) * World) : M A :=
  fun w =>
    let w1 := setFaults (List.tl (faults w)) w in
    if List.hd false (faults w) then (inl platformError, logCall c true w1)
    else match op w1 with
         | (inl e, w2) => (inl e, logCall c true w2)
         | (inr a, w2) => (inr a, logCall c false w2)
         end.

(** An identifier no folder and no file carries. *)
Definition freshId (w : World) : Z :=
  (1 + fold_right Z.max 0 (map folder_id (folders w) ++ map file_id (files w)))%Z.

(** **** N/query *)

(** Ids of the folders named [name] directly under [parent]. *)
Definition childrenNamed (fs : list FolderRow) (parent : Z) (name : string) : list Z :=
  map folder_id
    (List.filter
       (fun f => match folder_parent f with
                 | Some p => Z.eqb p parent && String.eqb (folder_name f) name
                 | None => false
                 end) fs).

(** The rows of the join chain: [f1] named [first] under [root], each
    further [f<i>] named by [joins] under its predecessor; the answer
    lists the id of the last folder of every chain. *)
Definition chainRows (fs : list FolderRow) (root : Z) (first : string)
    (joins : list string) : list Z :=
  fold_left (fun ids name => flat_map (fun pid => childrenNamed fs pid name) ids)
    joins (childrenNamed fs root first).

Fixpoint stringParams (ps : list Param) : option (list string) :=
  match ps with
  | [] => Some []
  | PStr s :: rest => option_map (cons s) (stringParams rest)
  | PNum _ :: _ => None
  end.

(** Modelled from the spec: the platform's [query.runSuiteQL] on the
    chain statement ("walking segment-by-segment from a fixed root id,
    matching each segment's name under the current parent").  The first
    [n - 1] parameters name [f2] to [f<n>], the next is [f1.parent], the
    last is [f1.name]. *)
Definition evalFolderChain (n : nat) (params : list Param) (w : World)
  : Exn + list Z :=
  match stringParams (firstn (n - 1) params), skipn (n - 1) params with
  | Some joins, [PNum root; PStr first] =>
      if (length joins =? n - 1)%nat && (1 <=? n)%nat
      then inr (chainRows (folders w) root first joins)
      else inl invalidParameters
  | _, _ => inl invalidParameters
  end.

Definition runFolderChainQuery (n : nat) (params : list Param) : M (list Z) :=
  invoke (RunSuiteQL (SelectFolderChain n) params)
    (fun w => (evalFolderChain n params w, w)).

(** Modelled from the spec: [query.runSuiteQL] on the file statement
    ("query for an existing file with that exact (name, folderId)
    pair"); the rows come in the order of the table. *)
Definition evalFileQuery (params : list Param) (w : World) : Exn + list FileRow :=
  match params with
  | [PStr name; PNum folder] =>
      inr (List.filter
             (fun f => String.eqb (file_name f) name && Z.eqb (file_folder f) folder)
             (files w))
  | _ => inl invalidParameters
  end.

Definition runFileQuery (params : list Param) : M (list FileRow) :=
  invoke (RunSuiteQL SelectFile params) (fun w => (evalFileQuery params w, w)).

(** Modelled from the spec: [query.runSuiteQL] on the [IN] statement:
    every folder whose name is one of the parameters. *)
Definition evalFoldersNamed (n : nat) (params : list Param) (w : World)
  : Exn + list FolderRow :=
  match stringParams params with
  | Some names =>
      if (length names =? n)%nat
      then inr (List.filter
                  (fun f => existsb (String.eqb (folder_name f)) names)
                  (folders w))
      else inl invalidParameters
  | None => inl invalidParameters
  end.

Definition runFoldersNamedQuery (n : nat) (params : list Param) : M (list FolderRow) :=
  invoke (RunSuiteQL (SelectFoldersNamed n) params)
    (fun w => (evalFoldersNamed n params w, w)).

(** **** N/record *)

(** Modelled from the spec: [record.create({type: FOLDER})], the two
    [setValue] calls and [save()], taken as one platform call ("create a
    new folder node under the current parent"): a folder row with an id
    of its own is added and the id returned. *)
Definition folderSave (name : string) (parent : Z) : M Z :=
  invoke (FolderSave name parent)
    (fun w =>
       let id := freshId w in
       (inr id,
        setFolders (folders w ++
          [{| folder_id := id; folder_name := name; folder_parent := Some parent |}]) w)).

(** **** N/file *)

Definition sameNameAndFolder (o : FileOptions) (f : FileRow) : bool :=
  String.eqb (file_name f) (opt_name o) && Z.eqb (file_folder f) (opt_folder o).

Definition rowOf (id : Z) (o : FileOptions) : FileRow := {|
  file_id := id;
  file_name := opt_name o;
  file_folder := opt_folder o;
  file_type := opt_fileType o;
  file_contents := opt_contents o;
  file_description := opt_description o;
  file_encoding := opt_encoding o
|}.

(** Overwrite the first file of the table that has the name and the
    folder of [o], keeping its id; [None] when there is none. *)
Fixpoint overwrite (o : FileOptions) (l : list FileRow) : option (Z * list FileRow) :=
  match l with
  | [] => None
  | f :: rest =>
      if sameNameAndFolder o f then Some (file_id f, rowOf (file_id f) o :: rest)
      else match overwrite o rest with
           | Some (id, rest') => Some (id, f :: rest')
           | None => None
           end
  end.

(** Modelled from the spec: [file.create(options).save()].  With
    [conflictResolution: OVERWRITE] a file of that name in that folder
    has its content replaced and keeps its identifier ("an overwrite
    write that preserves the original file identifier"); otherwise, and
    when there is no such file, the save is "a plain create, yielding a
    new identifier". *)
Definition fileSave (o : FileOptions) : M Z :=
  invoke (FileSave o)
    (fun w =>
       match opt_conflictResolution o, overwrite o (files w) with
       | Some OVERWRITE, Some (id, files') => (inr id, setFiles files' w)
       | _, _ =>
           let id := freshId w in
           (inr id, setFiles (files w ++ [rowOf id o]) w)
       end).

(** *** The request and the response *)

(** The body of a POST.  [folder] is the numeric id of the wire
    contract; [undefined], [null] and [''] are [None]. *)
Record Context := {
  path : option string;
  content : option string;
  encoding : option string;
  folder : option Z;
  description : option string
}.

Inductive Action := create | update.

Definition actionName (a : Action) : string :=
  match a with create => "create" | update => "update" end.

(** The answer of the POST handler; the fields [duration] and
    [details], which no decision reads, are left out. *)
Inductive Response :=
| Success (message : string) (fileId : Z) (path : string) (action : Action)
| Failure (error message : string).

Inductive Validation :=
| Valid
| Invalid (error message : string).

(** *** [validateRequest] *)

Definition validateRequest (context : Context) : Validation :=
  match path context with
  | None => Invalid "MISSING_PATH" "File path is required"
  | Some p =>
      if isEmpty p then Invalid "MISSING_PATH" "File path is required"
      else
        match content context with
        | None => Invalid "MISSING_CONTENT" "File content is required"
        | Some c =>
            let contentSize := len c in
            if (contentSize >? maxFileSize CONFIG)%Z then
              Invalid "FILE_TOO_LARGE"
                ("File size (" ++ pretty contentSize
                 ++ " bytes) exceeds maximum allowed ("
                 ++ pretty (maxFileSize CONFIG) ++ " bytes)")
            else if includes p ".." then
              Invalid "INVALID_PATH" "Path traversal (..) is not allowed"
            else Valid
        end
  end.

(** *** [sanitizePath] *)

Definition sanitizePath (filePath : string) : string :=
  let cleanPath := trim filePath in
  let cleanPath := backslashesToSlashes cleanPath in
  let cleanPath := collapseSlashes cleanPath in
  if startsWith cleanPath "/" then cleanPath else "/" ++ cleanPath.

(** *** [parseFilePath] *)

Record PathParts := {
  fileName : string;
  folderPath : string;
  fullPath : string
}.

Definition parseFilePath (filePath : string) : PathParts :=
  let cleanPath := stripLeadingSlashes filePath in
  let parts := split "/" cleanPath in
  {| fileName := pop parts;
     folderPath := join "/" (removelast parts);
     fullPath := cleanPath |}.

(** *** [getFileType] *)

Definition typeMap : gmap string FileType :=
  list_to_map
    [ ("js", JAVASCRIPT); ("ts", JAVASCRIPT);
      ("html", HTMLDOC); ("htm", HTMLDOC); ("css", STYLESHEET);
      ("scss", PLAINTEXT); ("less", PLAINTEXT);
      ("xml", XMLDOC); ("json", JSON); ("txt", PLAINTEXT); ("csv", CSV);
      ("xls", EXCEL); ("xlsx", EXCEL);
      ("pdf", PDF); ("doc", WORD); ("docx", WORD);
      ("png", PNGIMAGE); ("jpg", JPGIMAGE); ("jpeg", JPGIMAGE);
      ("gif", GIFIMAGE); ("svg", SVGIMAGE); ("ico", ICON); ("bmp", BMPIMAGE);
      ("zip", ZIP); ("gzip", GZIP); ("tar", TAR);
      ("mp3", MP3); ("mp4", MP4); ("mov", MOV);
      ("ppt", POWERPOINT); ("pptx", POWERPOINT); ("ftl", FREEMARKER) ].

(** The table is read by the own keys of [typeMap]; names that reach a
    member of [Object.prototype] are outside the table. *)
Definition getFileType (name : string) : FileType :=
  let extension := toLowerCase (pop (split "." name)) in
  default PLAINTEXT (typeMap !! extension).

(** *** [findFolderByPath] *)

(** An id is truthy when it is not zero. *)
Definition truthyId (id : Z) : bool := negb (Z.eqb id 0).

(** The segments of a folder path: separators normalised, leading and
    trailing slashes removed, blank segments dropped. *)
Definition pathSegments (folderPath : string) : list string :=
  let normalizedPath := collapseSlashes (backslashesToSlashes folderPath) in
  let normalizedPath := stripSlashes normalizedPath in
  List.filter (fun p => truthy p && negb (String.eqb (trim p) ""))
    (split "/" normalizedPath).

(** [if (parts.length > 0 && parts[0].toLowerCase() === 'suitescripts') parts.shift()] *)
Definition skipSuiteScripts (parts : list string) : list string :=
  match parts with
  | first :: rest =>
      if String.eqb (toLowerCase first) "suitescripts" then rest else parts
  | [] => []
  end.

(** The query part of [findFolderByPath], for the segments left after
    the skip: one chain statement whose first folder sits under
    [CONFIG.defaultRootFolder]. *)
Definition queryFolderChain (parts : list string) : M (option Z) :=
  match parts with
  | [] => ret (Some (defaultRootFolder CONFIG))
  | first :: rest =>
      let params :=
        (map PStr rest ++ [PNum (defaultRootFolder CONFIG); PStr first])%list in
      let* results := runFolderChainQuery (length parts) params in
      match results with
      | id :: _ => if truthyId id then ret (Some id) else ret None
      | [] => ret None
      end
  end.

(** [null] is [None]. *)
Definition findFolderByPath (folderPath : string) : M (option Z) :=
  if isEmpty folderPath then ret (Some (defaultRootFolder CONFIG))
  else
    tryCatch
      (queryFolderChain (skipSuiteScripts (pathSegments folderPath)))
      (fun _ => ret None).

(** *** [findFileByFullPath] *)

Record ExistingFile := {
  existing_id : Z;
  existing_name : string;
  existing_folderId : Z
}.

Definition findFileByFullPath (filePath folderPath fileName : string)
  : M (option ExistingFile) :=
  tryCatch
    (let* folderId := findFolderByPath folderPath in
     match folderId with
     | None => ret None
     | Some folderId =>
         if negb (truthyId folderId) then ret None
         else
           let* results := runFileQuery [PStr fileName; PNum folderId] in
           match results with
           | row :: _ =>
               ret (Some {| existing_id := file_id row;
                            existing_name := file_name row;
                            existing_folderId := folderId |})
           | [] => ret None
           end
     end)
    (fun _ => ret None).

(** *** [findOrCreateFolderPath] *)

(** [foldersByParent]: for each parent (the key [None] is [null]) the
    folders below it by name.  A later row replaces an earlier one of
    the same parent and name. *)
Definition indexByParent (allFolders : list FolderRow)
  : gmap (option Z) (gmap string Z) :=
  fold_left
    (fun (acc : gmap (option Z) (gmap string Z)) f =>
       let inner := default ∅ (acc !! folder_parent f) in
       <[folder_parent f := <[folder_name f := folder_id f]> inner]> acc)
    allFolders ∅.

(** [foldersByParent[currentFolderId] && foldersByParent[currentFolderId][folderName]],
    when truthy.  The objects are read by their own keys: a [folderName]
    that names a member inherited from [Object.prototype] (see
    [inheritedKeys] below) is outside this lookup; in the source it
    yields the inherited member. *)
Definition knownChild (foldersByParent : gmap (option Z) (gmap string Z))
    (currentFolderId : Z) (folderName : string) : option Z :=
  match foldersByParent !! Some currentFolderId with
  | Some inner =>
      match inner !! folderName with
      | Some id => if truthyId id then Some id else None
      | None => None
      end
  | None => None
  end.

(** The loop over the segments: descend into a known folder, create
    the missing ones. *)
Fixpoint traverse (parts : list string)
    (foldersByParent : gmap (option Z) (gmap string Z))
    (currentFolderId : Z) : M Z :=
  match parts with
  | [] => ret currentFolderId
  | folderName :: rest =>
      match knownChild foldersByParent currentFolderId folderName with
      | Some id => traverse rest foldersByParent id
      | None =>
          let* id := folderSave folderName currentFolderId in
          let foldersByParent' :=
            match foldersByParent !! Some id with
            | Some _ => foldersByParent
            | None => <[Some id := ∅]> foldersByParent
            end in
          traverse rest foldersByParent' id
      end
  end.

(** The [try] block of [findOrCreateFolderPath]. *)
Definition findOrCreateFolderPath_try (folderPath : string) : M Z :=
  let parts := skipSuiteScripts (pathSegments folderPath) in
  match parts with
  | [] => ret (defaultRootFolder CONFIG)
  | _ :: _ =>
      let* existingFolderId := findFolderByPath (join "/" parts) in
      match existingFolderId with
      | Some id => ret id
      | None =>
          let* allFolders :=
            runFoldersNamedQuery (length parts) (map PStr parts) in
          traverse parts (indexByParent allFolders) (defaultRootFolder CONFIG)
      end
  end.

Definition findOrCreateFolderPath (folderPath : string) : M Z :=
  if isEmpty folderPath then ret (defaultRootFolder CONFIG)
  else
    tryCatch (findOrCreateFolderPath_try folderPath)
      (fun _ => ret (defaultRootFolder CONFIG)).

(** *** [post] *)

Definition encodingOf (encoding : string) : Encoding :=
  if String.eqb encoding "base64" then BASE_64 else UTF_8.

(** The options of [file.create] in the update branch. *)
Definition updateOptions (context : Context) (existingFile : ExistingFile)
  : FileOptions :=
  let name := fileName (parseFilePath (sanitizePath (default "" (path context)))) in
  {| opt_name := name;
     opt_fileType := getFileType name;
     opt_folder := existing_folderId existingFile;
     opt_contents := default "" (content context);
     opt_description := orElse (description context) "Uploaded via Auto-Upload";
     opt_encoding := encodingOf (orElse (encoding context) "utf8");
     opt_conflictResolution := Some OVERWRITE |}.

(** The options of [file.create] in the create branch. *)
Definition createOptions (context : Context) (folderId : Z) : FileOptions :=
  let name := fileName (parseFilePath (sanitizePath (default "" (path context)))) in
  {| opt_name := name;
     opt_fileType := getFileType name;
     opt_folder := folderId;
     opt_contents := default "" (content context);
     opt_description := orElse (description context) "Uploaded via Auto-Upload";
     opt_encoding := encodingOf (orElse (encoding context) "utf8");
     opt_conflictResolution := None |}.

(** The [try] block of [post], after the validation. *)
Definition post_try (context : Context) : M Response :=
  let filePath := sanitizePath (default "" (path context)) in
  let pathParts := parseFilePath filePath in
  let fileName := fileName pathParts in
  let folderPath := folderPath pathParts in
  let ext := toLowerCase (pop (split "." fileName)) in
  if (0 <? length (allowedExtensions CONFIG))%nat
     && negb (existsb (String.eqb ext) (allowedExtensions CONFIG))
  then ret (Failure "INVALID_EXTENSION"
              ("File extension ." ++ ext ++ " is not allowed"))
  else
    let* existingFile := findFileByFullPath filePath folderPath fileName in
    match existingFile with
    | Some existingFile =>
        let* savedFileId := fileSave (updateOptions context existingFile) in
        ret (Success "File updated successfully" savedFileId filePath update)
    | None =>
        let* folderId :=
          match folder context with
          | Some f => if truthyId f then ret f else findOrCreateFolderPath folderPath
          | None => findOrCreateFolderPath folderPath
          end in
        let* savedFileId := fileSave (createOptions context folderId) in
        ret (Success "File created successfully" savedFileId filePath create)
    end.

(** The response of the [catch] block of [post]. *)
Definition caught (e : Exn) : Response :=
  Failure (orElse (Some (exn_name e)) "UNKNOWN_ERROR")
          (orElse (Some (exn_message e)) (exnToString e)).

Definition post (context : Context) (w : World) : Response * World :=
  match validateRequest context with
  | Invalid error message => (Failure error message, w)
  | Valid =>
      match post_try context w with
      | (inr response, w') => (response, w')
      | (inl e, w') => (caught e, w')
      end
  end.

(** *** The lookup as the spec words it *)

(** "Resolve folderPath to a folder id by walking segment-by-segment from
    a fixed root id, matching each segment's name under the current
    parent": the folders the walk ends in. *)
Fixpoint walk (fs : list FolderRow) (parent : Z) (segments : list string) : list Z :=
  match segments with
  | [] => [parent]
  | segment :: rest =>
      flat_map (fun id => walk fs id rest) (childrenNamed fs parent segment)
  end.

(** [results.length > 0 && results[0].id], when truthy. *)
Definition firstId (results : list Z) : option Z :=
  match results with
  | id :: _ => if truthyId id then Some id else None
  | [] => None
  end.

(** *** Reading the journal *)

(** The platform calls [findOrCreateFolderPath] makes in its own [try]
    block: the [IN] statement and the creation of a folder.  (The chain
    statement belongs to [findFolderByPath], which has a [try] block of
    its own.) *)
Definition isCreationStep (c : Call) : Prop :=
  match c with
  | RunSuiteQL (SelectFoldersNamed _) _ => True
  | FolderSave _ _ => True
  | _ => False
  end.

(** A query, of a folder or of a file. *)
Definition isQuery (c : Call) : Prop :=
  match c with
  | RunSuiteQL _ _ => True
  | _ => False
  end.

(** Between the worlds [w] and [w'] a call satisfying [P] threw. *)
Definition threwBetween (P : Call -> Prop) (w w' : World) : Prop :=
  exists c before after,
    journal w' = (journal w ++ before ++ (c, true) :: after)%list /\ P c.

(** *** The shape of a sanitised path *)

(** What [sanitizePath] answers: no doubled slash, no backslash, no
    white space at the end, a slash in front. *)
Record canonical (s : string) : Prop := {
  canonical_slashFree : slashFree s;
  canonical_forward : backslashesToSlashes s = s;
  canonical_end : trimEnd s = s;
  canonical_root : startsWith s "/" = true
}.

(** *** What a request does to the cabinet *)

(** The cabinet of [w'] is the cabinet of [w]. *)
Definition sameCabinet (w w' : World) : Prop :=
  folders w' = folders w /\ files w' = files w.

(** From [w] to [w'] nothing is lost: folders are only added, after
    those there; files keep their place and their id, new ones come
    after them; a file not named [target] is as it was. *)
Definition keepsCabinet (target : string) (w w' : World) : Prop :=
  (exists created, folders w' = (folders w ++ created)%list)
  /\ (exists added, map file_id (files w') = (map file_id (files w) ++ added)%list)
  /\ (forall f, In f (files w) -> file_name f <> target -> In f (files w')).

(** The platform calls of [delta] are queries. *)
Definition readsOnly (delta : list (Call * bool)) : Prop :=
  forall c b, In (c, b) delta -> isQuery c.

(** From [w] to [w'] the cabinet is the same and the platform calls made
    are queries. *)
Definition onlyReads (w w' : World) : Prop :=
  sameCabinet w w'
  /\ exists delta, journal w' = (journal w ++ delta)%list /\ readsOnly delta.

(** A relation between worlds that every step of a lookup keeps. *)
Record ReadFrame (R : World -> World -> Prop) (allowed : Call -> Prop) : Prop := {
  frame_refl : forall w, R w w;
  frame_trans : forall w1 w2 w3, R w1 w2 -> R w2 w3 -> R w1 w3;
  frame_call : forall c b l w w2,
    allowed c -> R (setFaults l w) w2 -> R w (logCall c b w2);
  frame_query : forall sql params, allowed (RunSuiteQL sql params)
}.

(** One that the saves of an upload of a file named [target] keep as
    well. *)
Record WriteFrame (R : World -> World -> Prop) (allowed : Call -> Prop)
    (target : string) : Prop := {
  frame_folderSave : forall name parent, allowed (FolderSave name parent);
  frame_folder : forall name parent w,
    R w (setFolders (folders w ++
           [{| folder_id := freshId w; folder_name := name;
               folder_parent := Some parent |}]) w);
  frame_fileSave : forall o, allowed (FileSave o);
  frame_file : forall o w,
    opt_name o = target ->
    R w (snd (match opt_conflictResolution o, overwrite o (files w) with
              | Some OVERWRITE, Some (id, files') => (inr id, setFiles files' w)
              | _, _ =>
                  (@inr Exn Z (freshId w),
                   setFiles (files w ++ [rowOf (freshId w) o]) w)
              end))
}.

(** *** The segments of a folder path *)

(** Every character of the string passes the test. *)
Fixpoint allChars (P : ascii -> bool) (s : string) : bool :=
  match s with
  | EmptyString => true
  | String c s' => P c && allChars P s'
  end.

(** A segment as [pathSegments] yields them: not blank, free of
    separators. *)
Definition isSegment (p : string) : bool :=
  truthy p && negb (String.eqb (trim p) "")
  && allChars (fun c => negb (isSlash c) && negb (isBackslash c)) p.

(** *** Folder names that are members of every object *)

(** The members a plain object inherits from [Object.prototype]:
    [foldersByParent[id][name]] finds them under every [id] that has an
    entry. *)
Definition inheritedKeys : list string :=
  [ "constructor"; "hasOwnProperty"; "isPrototypeOf"; "propertyIsEnumerable";
    "toLocaleString"; "toString"; "valueOf"; "__proto__";
    "__defineGetter__"; "__defineSetter__"; "__lookupGetter__"; "__lookupSetter__" ].

(** No segment of the folder path is the name of such a member. *)
Definition ownSegments (folderPath : string) : bool :=
  forallb (fun segment => negb (existsb (String.eqb segment) inheritedKeys))
    (pathSegments folderPath).

(** *** The size of a content in bytes *)

(** A code unit of the ASCII range. *)
Definition isAsciiUnit (c : ascii) : bool := (nat_of_ascii c <? 128)%nat.

(** The content holds code units of the ASCII range only. *)
Definition isAscii (s : string) : bool := allChars isAsciiUnit s.

(** The size of a content in bytes, as UTF-8 has it on the range of the
    model: one byte for a code unit of the ASCII range, two for another. *)
Fixpoint sizeInBytes (s : string) : Z :=
  match s with
  | EmptyString => 0
  | String c s' => (if isAsciiUnit c then 1 else 2) + sizeInBytes s'
  end.

(** *** The lookups on a day without faults *)

(** What the chain statement of [findFolderByPath] finds for a path in
    a table of folders. *)
Definition resolveFolder (fs : list FolderRow) (folderPath : string) : option Z :=
  if isEmpty folderPath then Some (defaultRootFolder CONFIG)
  else match skipSuiteScripts (pathSegments folderPath) with
       | [] => Some (defaultRootFolder CONFIG)
       | first :: rest =>
           firstId (walk fs (defaultRootFolder CONFIG) (first :: rest))
       end.

(** The rows the file statement finds. *)
Definition filesNamed (name : string) (folderId : Z) (l : list FileRow)
  : list FileRow :=
  List.filter
    (fun f => String.eqb (file_name f) name && Z.eqb (file_folder f) folderId) l.

(** No platform call to come throws, and the cabinet is that of [w]. *)
Definition quietly (w w' : World) : Prop :=
  faults w' = [] /\ folders w' = folders w /\ files w' = files w.

(** The id is the root folder or the id of a folder of the table. *)
Definition isFolderOf (fs : list FolderRow) (id : Z) : Prop :=
  id = defaultRootFolder CONFIG \/ In id (map folder_id fs).

(** *** [doDelete] *)

(** The body of a DELETE.  [fileId] is the numeric id of the wire
    contract; [undefined], [null], [''] and [0] are falsy. *)
Record DeleteContext := {
  delete_path : option string;
  delete_fileId : option Z
}.

Inductive DeleteResponse :=
| Deleted (message : string) (fileId : Z)
| NotDeleted (error message : string).

Section Delete.

(** [file.delete({ id })] of N/file: what it does to the cabinet is the
    platform's. *)
Variable fileDelete : Z -> M unit.

(** [context.fileId], when truthy. *)
Definition fileIdGiven (context : DeleteContext) : option Z :=
  match delete_fileId context with
  | Some id => if truthyId id then Some id else None
  | None => None
  end.

(** The [try] block of [doDelete]; the early return of the branch that
    looks the path up is the left case of [located]. *)
Definition doDelete_try (context : DeleteContext) : M DeleteResponse :=
  if negb (present (delete_path context))
     && match fileIdGiven context with Some _ => false | None => true end
  then ret (NotDeleted "MISSING_IDENTIFIER" "File path or fileId is required")
  else
    let* located :=
      match fileIdGiven context with
      | Some id => ret (inr id)
      | None =>
          let filePath := sanitizePath (default "" (delete_path context)) in
          let pathParts := parseFilePath filePath in
          let* existingFile :=
            findFileByFullPath filePath (folderPath pathParts) (fileName pathParts) in
          match existingFile with
          | None =>
              ret (inl (NotDeleted "FILE_NOT_FOUND"
                          ("File not found: " ++ default "" (delete_path context))))
          | Some existingFile => ret (inr (existing_id existingFile))
          end
      end in
    match located with
    | inl response => ret response
    | inr fileId =>
        fileDelete fileId ;;
        ret (Deleted "File deleted successfully" fileId)
    end.

Definition doDelete (context : DeleteContext) (w : World) : DeleteResponse * World :=
  match doDelete_try context w with
  | (inr response, w') => (response, w')
  | (inl e, w') =>
      (NotDeleted (orElse (Some (exn_name e)) "DELETE_ERROR")
                  (orElse (Some (exn_message e)) (exnToString e)), w')
  end.

End Delete.

End Restlet.


(** ** The extension: [vscode-extension/src/extension.js] *)

Module Extension.

Import Js Eff.

Definition dquote : string := String "034"%char EmptyString.
Definition newline : ascii := "010"%char.

(** [s.endsWith(suffix)] *)
Definition endsWith (s suffix : string) : bool :=
  (String.length suffix <=? String.length s)%nat
  && String.eqb (substringFrom (String.length s - String.length suffix) s) suffix.

(** [s.slice(1, -1)] *)
Definition sliceInner (s : string) : string :=
  substringTo (String.length s - 2) (substringFrom 1 s).

(** *** Node's [path] module, POSIX flavour

    The arguments of [relative] are absolute paths: the file name of a
    saved document and the path of its workspace folder. *)

Definition pushSegment (allowAboveRoot : bool) (stack : list string) (seg : string)
  : list string :=
  if String.eqb seg "" || String.eqb seg "." then stack
  else if String.eqb seg ".." then
    match stack with
    | top :: below =>
        if String.eqb top ".." then seg :: stack else below
    | [] => if allowAboveRoot then [seg] else []
    end
  else seg :: stack.

(** The segments of a path with [.], [..] and empty segments resolved. *)
Definition normalizeSegments (allowAboveRoot : bool) (p : string) : list string :=
  rev (fold_left (pushSegment allowAboveRoot) (split "/" p) []).

(** [path.normalize(p)] *)
Definition path_normalize (p : string) : string :=
  if isEmpty p then "."
  else
    let isAbsolute := startsWith p "/" in
    let trailingSeparator := endsWith p "/" in
    let body := join "/" (normalizeSegments (negb isAbsolute) p) in
    if isEmpty body then
      if isAbsolute then "/" else if trailingSeparator then "./" else "."
    else
      (if isAbsolute then "/" else "") ++ body
      ++ (if trailingSeparator then "/" else "").

(** [path.join(a, b)] *)
Definition path_join (a b : string) : string :=
  let joined := join "/" (List.filter truthy [a; b]) in
  if isEmpty joined then "." else path_normalize joined.

Fixpoint dropCommonPrefix (l1 l2 : list string) : list string * list string :=
  match l1, l2 with
  | a :: l1', b :: l2' =>
      if String.eqb a b then dropCommonPrefix l1' l2' else (l1, l2)
  | _, _ => (l1, l2)
  end.

(** [path.relative(from, to)] for absolute paths *)
Definition path_relative (from to : string) : string :=
  let (fromRest, toRest) :=
    dropCommonPrefix (normalizeSegments false from) (normalizeSegments false to) in
  join "/" (map (fun _ => "..") fromRest ++ toRest)%list.

(** [path.basename(p)] *)
Definition path_basename (p : string) : string :=
  List.last (List.filter truthy (split "/" p)) "".

(** *** The world of the extension

    What the extension reads: the files of the workspace, the settings
    of the editor, and the answers of the remote endpoint.  What it keeps:
    the cache of the environment files and the upload history.  What it
    does to the outside is recorded, in order, in [effects]. *)

Inductive FsNode :=
| RegularFile (content : string)
| Unreadable.                        (* a directory, or a file that cannot be read *)

Record WorkspaceFolder := { fsPath : string }.

Record Document := {
  doc_fileName : string;
  doc_workspaceFolder : option WorkspaceFolder
}.

Record Url := {
  hostname : string;
  port : string;
  pathname : string;
  search : string
}.

Record Payload := {
  payload_path : string;
  payload_content : string;
  payload_encoding : string;
  payload_description : string
}.

(** The request handed to [https.request]; the [Content-Length] header,
    set from the serialised body, goes with [req_body]. *)
Record HttpRequest := {
  req_hostname : string;
  req_port : string;
  req_path : string;
  req_method : string;
  req_headers : list (string * string);
  req_timeout : Z;
  req_body : option Payload
}.

(** The parsed JSON answer of the endpoint. *)
Record Answer := {
  success : bool;
  message : option string;
  error : option string;             (* [error] when it is a string *)
  error_message : option string;     (* [error.message] when [error] is an object *)
  fileId : option Z;
  action : option string;
  version : option string
}.

Inductive HttpBody :=
| NoData
| Json (response : Answer)
| Garbage (raw : string).

Inductive HttpOutcome :=
| Responded (statusCode : Z) (body : HttpBody)
| ConnectionError (message : string)
| TimedOut.

(** What the OAuth library signs. *)
Record SigningInput := {
  sig_method : string;
  sig_url : string;
  sig_consumerKey : string;
  sig_consumerSecret : string;
  sig_tokenKey : string;
  sig_tokenSecret : string;
  sig_nonce : string;
  sig_timestamp : Z
}.

Inductive Effect :=
| FsExists (path : string)
| FsRead (path : string)
| OutputLine (line : string)
| HttpSend (request : HttpRequest)
| StatusBar (state extra : string)
| ErrorMessage (text : string)
| WarningMessage (text : string)
| InformationMessage (text : string).

Record UploadRecord := {
  h_file : string;
  h_localPath : string;
  h_netSuitePath : string;
  h_action : option string;
  h_fileId : option Z
}.

Record World := {
  fileSystem : gmap string FsNode;
  settings : gmap string string;           (* string settings of 'netsuite-auto-upload' *)
  numberSettings : gmap string Z;          (* its numeric settings *)
  showNotifications : bool;
  envConfigCache : gmap string (gmap string string);
  uploadHistory : list UploadRecord;
  effects : list Effect;                   (* oldest first *)
  nonces : list string;                    (* the coming OAuth nonces *)
  clock : Z;                               (* seconds since the epoch *)
  parseUrl : string -> option Url;         (* [new URL(url)]; [None]: it throws *)
  signature : SigningInput -> string;      (* HMAC-SHA256 of the base string, in Base64 *)
  signingFault : SigningInput -> option Exn;
                                           (* what [oauth.authorize] throws; [None]: it signs *)
  remote : HttpRequest -> HttpOutcome      (* what the endpoint answers *)
}.

Abbreviation M := (Eff.M World).

Definition setEnvConfigCache (c : gmap string (gmap string string)) (w : World) : World :=
  {| fileSystem := fileSystem w; settings := settings w;
     numberSettings := numberSettings w; showNotifications := showNotifications w;
     envConfigCache := c; uploadHistory := uploadHistory w; effects := effects w;
     nonces := nonces w; clock := clock w; parseUrl := parseUrl w;
     signature := signature w; signingFault := signingFault w;
     remote := remote w |}.

Definition setUploadHistory (h : list UploadRecord) (w : World) : World :=
  {| fileSystem := fileSystem w; settings := settings w;
     numberSettings := numberSettings w; showNotifications := showNotifications w;
     envConfigCache := envConfigCache w; uploadHistory := h; effects := effects w;
     nonces := nonces w; clock := clock w; parseUrl := parseUrl w;
     signature := signature w; signingFault := signingFault w;
     remote := remote w |}.

Definition setEffects (l : list Effect) (w : World) : World :=
  {| fileSystem := fileSystem w; settings := settings w;
     numberSettings := numberSettings w; showNotifications := showNotifications w;
     envConfigCache := envConfigCache w; uploadHistory := uploadHistory w; effects := l;
     nonces := nonces w; clock := clock w; parseUrl := parseUrl w;
     signature := signature w; signingFault := signingFault w;
     remote := remote w |}.

Definition setNonces (l : list string) (w : World) : World :=
  {| fileSystem := fileSystem w; settings := settings w;
     numberSettings := numberSettings w; showNotifications := showNotifications w;
     envConfigCache := envConfigCache w; uploadHistory := uploadHistory w;
     effects := effects w;
     nonces := l; clock := clock w; parseUrl := parseUrl w;
     signature := signature w; signingFault := signingFault w;
     remote := remote w |}.

(** One action on the outside world. *)
Definition effect (e : Effect) : M unit :=
  modify (fun w => setEffects (effects w ++ [e]) w).

(** [log(message)]: a line on the output channel (the time stamp and the
    attached data are left out). *)
Definition log (message : string) : M unit := effect (OutputLine message).

(** [fs.existsSync(p)] *)
Definition existsSync (p : string) : M bool :=
  effect (FsExists p) ;;
  gets (fun w => match fileSystem w !! p with Some _ => true | None => false end).

(** [fs.readFileSync(p, 'utf8')] *)
Definition readFileSync (p : string) : M string :=
  effect (FsRead p) ;;
  let* node := gets (fun w => fileSystem w !! p) in
  match node with
  | Some (RegularFile content) => ret content
  | Some Unreadable =>
      throw {| exn_name := "Error"; exn_message := "EISDIR: illegal operation on a directory, read" |}
  | None =>
      throw {| exn_name := "Error"; exn_message := "ENOENT: no such file or directory, open '" ++ p ++ "'" |}
  end.

(** *** [parseEnvFile] *)

(** The body of the loop over the lines.  [result] is read by its own
    keys; the key [__proto__], which [result[key] = value] does not
    store, is outside this model. *)
Definition parseEnvLine (result : gmap string string) (line : string)
  : gmap string string :=
  let trimmed := trim line in
  if isEmpty trimmed || startsWith trimmed "#" then result
  else
    match indexOf trimmed "=" with
    | Some (S i) =>
        let eqIndex := S i in
        let key := trim (substringTo eqIndex trimmed) in
        let value := trim (substringFrom (eqIndex + 1) trimmed) in
        let value :=
          if (startsWith value dquote && endsWith value dquote)
             || (startsWith value "'" && endsWith value "'")
          then sliceInner value else value in
        <[key := value]> result
    | _ => result
    end.

Definition parseEnvFile (content : string) : gmap string string :=
  fold_left parseEnvLine (split newline content) ∅.

(** *** [loadEnvConfig] *)

Definition envFiles : list string := [".env"; ".env.local"; ".netsuite.env"].

(** The body of the loop over [envFiles]; [Object.assign(envConfig, parsed)]
    lets the keys of [parsed] win. *)
Definition loadEnvFile (wsPath : string) (envConfig : gmap string string)
    (name : string) : M (gmap string string) :=
  let envPath := path_join wsPath name in
  let* found := existsSync envPath in
  if found then
    tryCatch
      (let* content := readFileSync envPath in
       let parsed := parseEnvFile content in
       log ("Loaded credentials from: " ++ name) ;;
       ret (parsed ∪ envConfig))
      (fun e =>
         log ("Failed to load " ++ name ++ ": " ++ exn_message e) ;;
         ret envConfig)
  else ret envConfig.

Fixpoint loadEnvFiles (wsPath : string) (envConfig : gmap string string)
    (names : list string) : M (gmap string string) :=
  match names with
  | [] => ret envConfig
  | name :: rest =>
      let* envConfig' := loadEnvFile wsPath envConfig name in
      loadEnvFiles wsPath envConfig' rest
  end.

Definition loadEnvConfig (workspaceFolder : option WorkspaceFolder)
  : M (gmap string string) :=
  match workspaceFolder with
  | None => ret ∅
  | Some ws =>
      let wsPath := fsPath ws in
      let* cached := gets (fun w => envConfigCache w !! wsPath) in
      match cached with
      | Some envConfig => ret envConfig
      | None =>
          let* envConfig := loadEnvFiles wsPath ∅ envFiles in
          modify (fun w => setEnvConfigCache (<[wsPath := envConfig]> (envConfigCache w)) w) ;;
          ret envConfig
      end
  end.

(** *** [getCredential] *)

Definition envKeyMap : gmap string (list string) :=
  list_to_map
    [ ("restletUrl", ["NS_RESTLET_URL"; "NETSUITE_RESTLET_URL"]);
      ("accountId", ["NS_ACCOUNT_ID"; "NETSUITE_ACCOUNT_ID"]);
      ("oauth.consumerKey", ["NS_CONSUMER_KEY"; "NETSUITE_CONSUMER_KEY"]);
      ("oauth.consumerSecret", ["NS_CONSUMER_SECRET"; "NETSUITE_CONSUMER_SECRET"]);
      ("oauth.tokenId", ["NS_TOKEN_ID"; "NETSUITE_TOKEN_ID"]);
      ("oauth.tokenSecret", ["NS_TOKEN_SECRET"; "NETSUITE_TOKEN_SECRET"]);
      ("uploadFrom", ["NS_UPLOAD_FROM"; "NETSUITE_UPLOAD_FROM"]);
      ("watchFolder", ["NS_WATCH_FOLDER"; "NETSUITE_WATCH_FOLDER"]);
      ("rootPath", ["NS_ROOT_PATH"; "NETSUITE_ROOT_PATH"]) ].

Definition defaults : gmap string string :=
  list_to_map
    [ ("uploadFrom", "dist"); ("watchFolder", "src"); ("rootPath", "/SuiteScripts") ].

(** The loop over [envKeys]: the first variable with a truthy value. *)
Fixpoint firstTruthy (envConfig : gmap string string) (envKeys : list string)
  : option string :=
  match envKeys with
  | [] => None
  | envKey :: rest =>
      match envConfig !! envKey with
      | Some v => if truthy v then Some v else firstTruthy envConfig rest
      | None => firstTruthy envConfig rest
      end
  end.

(** The value of [key] once the environment files are loaded: the
    environment first, the settings next, the default last. *)
Definition credentialFrom (envConfig settings : gmap string string) (key : string)
  : option string :=
  let envKeys := default [] (envKeyMap !! key) in
  match firstTruthy envConfig envKeys with
  | Some v => Some v
  | None =>
      let value := settings !! key in
      if present value then value
      else match defaults !! key with
           | Some d => Some d
           | None => value
           end
  end.

Definition getCredential (key : string) (workspaceFolder : option WorkspaceFolder)
  : M (option string) :=
  let* envConfig := loadEnvConfig workspaceFolder in
  let* config := gets settings in
  ret (credentialFrom envConfig config key).

(** *** [calculateNetSuitePath] *)

Definition calculateNetSuitePath (relativePath : string)
    (workspaceFolder : WorkspaceFolder) : M string :=
  let normalizedPath := backslashesToSlashes relativePath in
  let* uploadFrom := getCredential "uploadFrom" (Some workspaceFolder) in
  let uploadFrom := orElse uploadFrom "dist" in
  let normalizedPath :=
    if startsWith normalizedPath (uploadFrom ++ "/")
    then substringFrom (String.length uploadFrom + 1) normalizedPath
    else normalizedPath in
  let normalizedPath :=
    if startsWith normalizedPath "FileCabinet/"
    then substringFrom (String.length "FileCabinet/") normalizedPath
    else normalizedPath in
  match indexOf (toLowerCase normalizedPath) "suitescripts/" with
  | Some suiteScriptsIndex =>
      let netSuitePath := substringFrom suiteScriptsIndex normalizedPath in
      let netSuitePath :=
        if startsWith netSuitePath "/" then netSuitePath else "/" ++ netSuitePath in
      ret (collapseSlashes netSuitePath)
  | None =>
      if startsWith (toLowerCase normalizedPath) "suitescripts/" then
        ret (collapseSlashes ("/" ++ normalizedPath))
      else
        let* rootPath := getCredential "rootPath" (Some workspaceFolder) in
        let rootPath := orElse rootPath "/SuiteScripts" in
        let normalizedPath :=
          if startsWith normalizedPath "/" then substringFrom 1 normalizedPath
          else normalizedPath in
        let netSuitePath := rootPath ++ "/" ++ normalizedPath in
        let netSuitePath :=
          if startsWith netSuitePath "/" then netSuitePath else "/" ++ netSuitePath in
        ret (collapseSlashes netSuitePath)
  end.

(** *** [resolveUploadFile] *)

Record UploadInfo := {
  uploadPath : string;
  relativePath : string;
  netSuitePath : string;
  isMapped : bool;
  originalPath : option string
}.

Definition resolveUploadFile (savedFilePath : string)
    (workspaceFolder : WorkspaceFolder) : M UploadInfo :=
  let* uploadFrom := getCredential "uploadFrom" (Some workspaceFolder) in
  let uploadFrom := orElse uploadFrom "dist" in
  let* watchFolder := getCredential "watchFolder" (Some workspaceFolder) in
  let watchFolder := orElse watchFolder "src" in
  let wsPath := fsPath workspaceFolder in
  let relativePath := backslashesToSlashes (path_relative wsPath savedFilePath) in
  if String.eqb uploadFrom watchFolder then
    let* netSuitePath := calculateNetSuitePath relativePath workspaceFolder in
    ret {| uploadPath := savedFilePath;
           relativePath := relativePath;
           netSuitePath := netSuitePath;
           isMapped := false;
           originalPath := None |}
  else if startsWith relativePath (watchFolder ++ "/") then
    let pathAfterWatch := substringFrom (String.length watchFolder + 1) relativePath in
    let mappedRelativePath := uploadFrom ++ "/" ++ pathAfterWatch in
    let mappedAbsolutePath := path_join wsPath mappedRelativePath in
    let* netSuitePath := calculateNetSuitePath mappedRelativePath workspaceFolder in
    ret {| uploadPath := mappedAbsolutePath;
           relativePath := mappedRelativePath;
           netSuitePath := netSuitePath;
           isMapped := true;
           originalPath := Some savedFilePath |}
  else
    let* netSuitePath := calculateNetSuitePath relativePath workspaceFolder in
    ret {| uploadPath := savedFilePath;
           relativePath := relativePath;
           netSuitePath := netSuitePath;
           isMapped := false;
           originalPath := None |}.

(** *** The Authorization header of the oauth-1.0a library *)

Definition hexDigit (n : nat) : ascii :=
  nth n (list_ascii_of_string "0123456789ABCDEF") "0"%char.

Definition percentByte (n : nat) : string :=
  String "%"%char (String (hexDigit (n / 16)) (String (hexDigit (n mod 16)) EmptyString)).

Definition isUnreserved (c : ascii) : bool :=
  let n := nat_of_ascii c in
  ((48 <=? n)%nat && (n <=? 57)%nat) || ((65 <=? n)%nat && (n <=? 90)%nat)
  || ((97 <=? n)%nat && (n <=? 122)%nat)
  || (n =? 45)%nat || (n =? 46)%nat || (n =? 95)%nat || (n =? 126)%nat.

(** Modelled from the spec: [percentEncode] of the oauth-1.0a library
    (not part of the repository): [encodeURIComponent] with [! * ' ( )]
    escaped as well; a code unit from 128 on is written as its two UTF-8
    bytes. *)
Fixpoint percentEncode (s : string) : string :=
  match s with
  | EmptyString => EmptyString
  | String c s' =>
      let n := nat_of_ascii c in
      (if isUnreserved c then String c EmptyString
       else if (n <? 128)%nat then percentByte n
       else percentByte (192 + n / 64) ++ percentByte (128 + n mod 64))
      ++ percentEncode s'
  end.

(** Modelled from the spec: the data [oauth.authorize] returns, in the
    order [oauth.toHeader] lists them (sorted by key); section 6 of the
    spec names them under "Authorization header". *)
Definition oauthData (input : SigningInput) (sig : string) : list (string * string) :=
  [ ("oauth_consumer_key", sig_consumerKey input);
    ("oauth_nonce", sig_nonce input);
    ("oauth_signature", sig);
    ("oauth_signature_method", "HMAC-SHA256");
    ("oauth_timestamp", pretty (sig_timestamp input));
    ("oauth_token", sig_tokenKey input);
    ("oauth_version", "1.0") ].

Definition headerParameter (kv : string * string) : string :=
  percentEncode (fst kv) ++ "=" ++ dquote ++ percentEncode (snd kv) ++ dquote.

(** Modelled from the spec: [oauth.toHeader(data).Authorization], the
    text [OAuth ] followed by the parameters, separated by a comma and a
    space. *)
Definition toHeader (data : list (string * string)) : string :=
  "OAuth " ++ join ", " (map headerParameter data).

Definition nextNonce : M string :=
  fun w =>
    match nonces w with
    | n :: rest => (inr n, setNonces rest w)
    | [] => (inr "", w)
    end.

(** [oauth.toHeader(oauth.authorize(requestData, token)).Authorization].
    The library draws the nonce and the time stamp and then builds the
    base string from the request data; there it throws on data it cannot
    read (a [URIError] on a malformed percent escape in the query of the
    URL).  What it throws on is the library's: [signingFault] of the
    world says it. *)
Definition oauthAuthorization (url method consumerKey consumerSecret tokenId
    tokenSecret : string) : M string :=
  let* nonce := nextNonce in
  let* timestamp := gets clock in
  let input := {| sig_method := method; sig_url := url;
                  sig_consumerKey := consumerKey;
                  sig_consumerSecret := consumerSecret;
                  sig_tokenKey := tokenId; sig_tokenSecret := tokenSecret;
                  sig_nonce := nonce; sig_timestamp := timestamp |} in
  let* fault := gets signingFault in
  match fault input with
  | Some e => throw e
  | None =>
      let* sign := gets signature in
      ret (toHeader (oauthData input (sign input)))
  end.

(** *** [makeAuthenticatedRequest] *)

Definition is2xx (statusCode : Z) : bool :=
  (200 <=? statusCode)%Z && (statusCode <? 300)%Z.

Definition firstPresent (l : list (option string)) (d : string) : string :=
  fold_right (fun o acc => orElse o acc) d l.

(** The handlers of the response, of [error] and of [timeout]. *)
Definition settle (timeout : Z) (outcome : HttpOutcome) : M Answer :=
  match outcome with
  | Responded statusCode body =>
      log "Response received" ;;
      match body with
      | NoData =>
          if is2xx statusCode then
            ret {| success := true; message := Some "Request completed";
                   error := None; error_message := None; fileId := None;
                   action := None; version := None |}
          else throw (Error ("HTTP " ++ pretty statusCode ++ ": Empty response"))
      | Json response =>
          if is2xx statusCode then ret response
          else throw (Error (firstPresent [message response; error_message response]
                               ("HTTP " ++ pretty statusCode)))
      | Garbage raw =>
          log "Parse error" ;;
          throw (Error ("Invalid response: " ++ substringTo 100 raw))
      end
  | ConnectionError text =>
      log "Request error" ;;
      throw (Error ("Network error: " ++ text))
  | TimedOut =>
      throw (Error ("Request timeout after " ++ pretty timeout ++ "ms"))
  end.

Definition missingCredentials : Exn :=
  Error "OAuth credentials not configured. Add them to .env file or run Configure command.".

(** [oauthHeader.Authorization.replace('OAuth ', `OAuth realm="${accountId}",`)] *)
Definition authorizationHeader (accountId oauthHeader : string) : string :=
  replaceFirst oauthHeader "OAuth "
    ("OAuth realm=" ++ dquote ++ accountId ++ dquote ++ ",").

Definition invalidUrl : Exn :=
  {| exn_name := "TypeError"; exn_message := "Invalid URL" |}.

Definition makeAuthenticatedRequest (url method : string) (payload : option Payload)
    (workspaceFolder : option WorkspaceFolder) : M Answer :=
  let* timeout :=
    gets (fun w => match numberSettings w !! "requestTimeout" with
                   | Some t => if Z.eqb t 0 then 30000%Z else t
                   | None => 30000%Z
                   end) in
  let* consumerKey := getCredential "oauth.consumerKey" workspaceFolder in
  let* consumerSecret := getCredential "oauth.consumerSecret" workspaceFolder in
  let* tokenId := getCredential "oauth.tokenId" workspaceFolder in
  let* tokenSecret := getCredential "oauth.tokenSecret" workspaceFolder in
  let* accountId := getCredential "accountId" workspaceFolder in
  if negb (present consumerKey) || negb (present consumerSecret)
     || negb (present tokenId) || negb (present tokenSecret)
     || negb (present accountId)
  then throw missingCredentials
  else
    let* oauthHeader :=
      oauthAuthorization url method (default "" consumerKey)
        (default "" consumerSecret) (default "" tokenId) (default "" tokenSecret) in
    let authHeader := authorizationHeader (default "" accountId) oauthHeader in
    let* parse := gets parseUrl in
    match parse url with
    | None => throw invalidUrl
    | Some urlParsed =>
        let request :=
          {| req_hostname := hostname urlParsed;
             req_port := if truthy (port urlParsed) then port urlParsed else "443";
             req_path := pathname urlParsed ++ search urlParsed;
             req_method := method;
             req_headers := [ ("Authorization", authHeader);
                              ("Content-Type", "application/json");
                              ("Accept", "application/json") ];
             req_timeout := timeout;
             req_body := payload |} in
        log "Making request" ;;
        effect (HttpSend request) ;;
        let* answer := gets remote in
        settle timeout (answer request)
    end.

(** *** [uploadFile] *)

Definition historyLimit : nat := 50.

(** [uploadHistory.unshift(record); if (uploadHistory.length > 50) uploadHistory.pop()] *)
Definition remember (r : UploadRecord) (h : list UploadRecord) : list UploadRecord :=
  let h' := r :: h in
  if (historyLimit <? length h')%nat then removelast h' else h'.

(** The [try] block of [uploadFile]. *)
Definition uploadFile_try (restletUrl : string) (workspaceFolder : WorkspaceFolder)
    (uploadInfo : UploadInfo) (name : string) : M unit :=
  let* content := readFileSync (uploadPath uploadInfo) in
  let payload :=
    {| payload_path := netSuitePath uploadInfo;
       payload_content := content;
       payload_encoding := "utf8";
       payload_description :=
         "Uploaded via Auto-Upload from " ++ relativePath uploadInfo |} in
  let* response :=
    makeAuthenticatedRequest restletUrl "POST" (Some payload) (Some workspaceFolder) in
  if success response then
    effect (StatusBar "success" name) ;;
    log ("Upload successful: " ++ name) ;;
    modify (fun w =>
      setUploadHistory
        (remember {| h_file := name;
                     h_localPath := uploadPath uploadInfo;
                     h_netSuitePath := netSuitePath uploadInfo;
                     h_action := action response;
                     h_fileId := fileId response |} (uploadHistory w)) w) ;;
    let* notify := gets showNotifications in
    if notify then
      effect (InformationMessage
                ("✓ " ++ name ++ " → " ++ netSuitePath uploadInfo))
    else ret tt
  else
    throw (Error (firstPresent [message response; error response] "Upload failed")).

(** [uploadFile(document)].  The two waits of the function (the build
    wait, the round trip of the request) are points where other events
    may run; here the steps follow each other.  The buttons of the
    messages are left out. *)
Definition uploadFile (document : Document) : M unit :=
  let workspaceFolder := doc_workspaceFolder document in
  let* restletUrl := getCredential "restletUrl" workspaceFolder in
  if negb (present restletUrl) then
    effect (ErrorMessage
      "NetSuite Auto-Upload: RESTlet URL not configured. Add NS_RESTLET_URL to .env file.")
  else
    let savedFilePath := doc_fileName document in
    match workspaceFolder with
    | None => log "File not in workspace, skipping upload"
    | Some workspaceFolder =>
        let* uploadInfo := resolveUploadFile savedFilePath workspaceFolder in
        let name := path_basename (uploadPath uploadInfo) in
        let* found :=
          if isMapped uploadInfo then existsSync (uploadPath uploadInfo) else ret true in
        if negb found then
          let* config := gets settings in
          effect (WarningMessage
            ("File not found in '" ++ orElse (config !! "uploadFrom") "src"
             ++ "' folder: " ++ name
             ++ ". Run your build or change 'uploadFrom' setting."))
        else
          effect (StatusBar "uploading" name) ;;
          log ("Uploading: " ++ name) ;;
          tryCatch
            (uploadFile_try (default "" restletUrl) workspaceFolder uploadInfo name)
            (fun e =>
               effect (StatusBar "error" (exn_message e)) ;;
               log ("Upload failed: " ++ name) ;;
               effect (ErrorMessage ("NetSuite Upload Failed: " ++ exn_message e)))
    end.

(** *** Reading the world of the extension *)

(** The value [getCredential] yields for a key in a world. *)
Definition credentialIn (key : string) (workspaceFolder : option WorkspaceFolder)
    (w : World) : option string :=
  match fst (getCredential key workspaceFolder w) with
  | inr value => value
  | inl _ => None
  end.

(** The environment files of the workspace folder are in the cache. *)
Definition loaded (workspaceFolder : option WorkspaceFolder) (w : World) : Prop :=
  match workspaceFolder with
  | Some ws => is_Some (envConfigCache w !! fsPath ws)
  | None => True
  end.

(** The world once the environment files of the folder are in the cache. *)
Definition warm (workspaceFolder : option WorkspaceFolder) (w : World) : World :=
  snd (loadEnvConfig workspaceFolder w).

(** The effects that are requests. *)
Definition requestsOf (l : list Effect) : list HttpRequest :=
  flat_map (fun e => match e with HttpSend r => [r] | _ => [] end) l.

(** The requests handed to [https.request] so far. *)
Definition requestsSent (w : World) : list HttpRequest := requestsOf (effects w).

(** The five secrets [makeAuthenticatedRequest] asks for. *)
Definition secretKeys : list string :=
  ["oauth.consumerKey"; "oauth.consumerSecret"; "oauth.tokenId";
   "oauth.tokenSecret"; "accountId"].

(** All five are there. *)
Definition secretsPresent (workspaceFolder : option WorkspaceFolder) (w : World)
  : bool :=
  forallb (fun key => present (credentialIn key workspaceFolder w)) secretKeys.

(** The value of a header of a request. *)
Definition header (name : string) (request : HttpRequest) : option string :=
  option_map snd
    (List.find (fun kv => String.eqb (fst kv) name) (req_headers request)).

(** What [makeAuthenticatedRequest] hands to [oauth.authorize] once the
    credentials are there. *)
Definition signingInput (url method : string)
    (workspaceFolder : option WorkspaceFolder) (w : World) : SigningInput :=
  let secret key := default "" (credentialIn key workspaceFolder w) in
  {| sig_method := method; sig_url := url;
     sig_consumerKey := secret "oauth.consumerKey";
     sig_consumerSecret := secret "oauth.consumerSecret";
     sig_tokenKey := secret "oauth.tokenId";
     sig_tokenSecret := secret "oauth.tokenSecret";
     sig_nonce := hd "" (nonces w);
     sig_timestamp := clock w |}.

(** [oauth.authorize] signs the request for the URL: it does not throw. *)
Definition signs (url method : string) (workspaceFolder : option WorkspaceFolder)
    (w : World) : Prop :=
  signingFault w (signingInput url method workspaceFolder w) = None.

(** The request [makeAuthenticatedRequest] builds once the credentials
    are there, the request data are signed and the URL is parsed. *)
Definition requestOf (url method : string) (payload : option Payload)
    (workspaceFolder : option WorkspaceFolder) (w : World) (urlParsed : Url)
  : HttpRequest :=
  let secret key := default "" (credentialIn key workspaceFolder w) in
  let input :=
    {| sig_method := method; sig_url := url;
       sig_consumerKey := secret "oauth.consumerKey";
       sig_consumerSecret := secret "oauth.consumerSecret";
       sig_tokenKey := secret "oauth.tokenId";
       sig_tokenSecret := secret "oauth.tokenSecret";
       sig_nonce := hd "" (nonces w);
       sig_timestamp := clock w |} in
  {| req_hostname := hostname urlParsed;
     req_port := if truthy (port urlParsed) then port urlParsed else "443";
     req_path := pathname urlParsed ++ search urlParsed;
     req_method := method;
     req_headers :=
       [ ("Authorization",
          authorizationHeader (secret "accountId")
            (toHeader (oauthData input (signature w input))));
         ("Content-Type", "application/json");
         ("Accept", "application/json") ];
     req_timeout :=
       match numberSettings w !! "requestTimeout" with
       | Some t => if Z.eqb t 0 then 30000%Z else t
       | None => 30000%Z
       end;
     req_body := payload |}.

(** *** The resolver as the spec words it *)

(** "Strip the uploadFolder prefix, strip a FileCabinet/ prefix if
    present, then locate the case-insensitive segment SuiteScripts/ and
    keep everything from there onward, prefixed with /.  If no such marker
    exists, fall back to rootRemotePath + '/' + remainder."  Separators
    are normalised first and repeated separators collapsed last. *)
Definition logicalRemotePath (uploadFolder rootRemotePath relativePath : string)
  : string :=
  let p := backslashesToSlashes relativePath in
  let p := if startsWith p (uploadFolder ++ "/")
           then substringFrom (String.length uploadFolder + 1) p else p in
  let p := if startsWith p "FileCabinet/"
           then substringFrom (String.length "FileCabinet/") p else p in
  let slashed (s : string) := if startsWith s "/" then s else "/" ++ s in
  match indexOf (toLowerCase p) "suitescripts/" with
  | Some i => collapseSlashes (slashed (substringFrom i p))
  | None =>
      let remainder := if startsWith p "/" then substringFrom 1 p else p in
      collapseSlashes (slashed (rootRemotePath ++ "/" ++ remainder))
  end.

(** The contract of the spec:
    [resolve(savedPath, workspaceRoot, watchFolder, uploadFolder, rootRemotePath)].
    The relative path is passed through when it does not begin with the
    watch folder or when the two folders are the same; otherwise the
    leading watch folder is replaced by the upload folder and the result
    marked as remapped. *)
Definition resolve (savedPath workspaceRoot watchFolder uploadFolder
    rootRemotePath : string) : UploadInfo :=
  let relative := backslashesToSlashes (path_relative workspaceRoot savedPath) in
  if String.eqb uploadFolder watchFolder
     || negb (startsWith relative (watchFolder ++ "/"))
  then
    {| uploadPath := savedPath;
       relativePath := relative;
       netSuitePath := logicalRemotePath uploadFolder rootRemotePath relative;
       isMapped := false;
       originalPath := None |}
  else
    let mapped :=
      uploadFolder ++ "/" ++ substringFrom (String.length watchFolder + 1) relative in
    {| uploadPath := path_join workspaceRoot mapped;
       relativePath := mapped;
       netSuitePath := logicalRemotePath uploadFolder rootRemotePath mapped;
       isMapped := true;
       originalPath := Some savedPath |}.

(** The folders and the root path in force in a world. *)
Definition uploadFolderIn (ws : WorkspaceFolder) (w : World) : string :=
  orElse (credentialIn "uploadFrom" (Some ws) w) "dist".

Definition watchFolderIn (ws : WorkspaceFolder) (w : World) : string :=
  orElse (credentialIn "watchFolder" (Some ws) w) "src".

Definition rootPathIn (ws : WorkspaceFolder) (w : World) : string :=
  orElse (credentialIn "rootPath" (Some ws) w) "/SuiteScripts".

(** *** The lines of an environment file *)

(** The value of an assignment: quotes around it are dropped. *)
Definition unquoted (value : string) : string :=
  if (startsWith value dquote && endsWith value dquote)
     || (startsWith value "'" && endsWith value "'")
  then sliceInner value else value.

(** A line that assigns nothing. *)
Definition idle (line : string) : bool :=
  isEmpty (trim line) || startsWith (trim line) "#"
  || match indexOf (trim line) "=" with
     | Some (S _) => false
     | _ => true
     end.

(** *** The cache of the environment files *)

(** The world with the files of [fs] on the disk. *)
Definition setFileSystem (fs : gmap string FsNode) (w : World) : World :=
  {| fileSystem := fs; settings := settings w;
     numberSettings := numberSettings w; showNotifications := showNotifications w;
     envConfigCache := envConfigCache w; uploadHistory := uploadHistory w;
     effects := effects w;
     nonces := nonces w; clock := clock w; parseUrl := parseUrl w;
     signature := signature w; signingFault := signingFault w;
     remote := remote w |}.

(** [clearEnvCache(workspaceFolder)] *)
Definition clearEnvCache (workspaceFolder : option WorkspaceFolder) : M unit :=
  modify (fun w =>
    setEnvConfigCache
      match workspaceFolder with
      | Some ws => delete (fsPath ws) (envConfigCache w)
      | None => ∅
      end w).

(** What the environment files of a folder hold: the files that can be
    read, a later file over an earlier one. *)
Definition envOfFiles (fs : gmap string FsNode) (wsPath : string)
  : gmap string string :=
  fold_left
    (fun envConfig name =>
       match fs !! path_join wsPath name with
       | Some (RegularFile content) => parseEnvFile content ∪ envConfig
       | _ => envConfig
       end)
    envFiles ∅.

(** The value an environment file gives a key: none when the file is
    not there or cannot be read. *)
Definition keyInFile (fs : gmap string FsNode) (envPath key : string)
  : option string :=
  match fs !! envPath with
  | Some (RegularFile content) => parseEnvFile content !! key
  | _ => None
  end.

(** The first value that is there. *)
Definition firstSome (l : list (option string)) : option string :=
  fold_right (fun o acc => match o with Some v => Some v | None => acc end) None l.



(** *** [handleFileSave] *)

(** The settings [handleFileSave] reads, and the [minimatch] library:
    [minimatch p pattern] is [minimatch(p, pattern, { dot: true })],
    [None] when it throws. *)
Record WatchSettings := {
  enabled : bool;
  watchPatterns : list string;          (* [config.get('watchPatterns') || []] *)
  excludePatterns : list string;        (* [config.get('excludePatterns') || []] *)
  minimatch : string -> string -> option bool
}.

(** The callback of [some]: the two [minimatch] calls in their [try]
    block; [None] when one of them threw before a match. *)
Definition matchesPattern (config : WatchSettings)
    (pathInWatchFolder relativePath pattern : string) : option bool :=
  match minimatch config pathInWatchFolder pattern with
  | Some true => Some true
  | Some false => minimatch config relativePath pattern
  | None => None
  end.

(** [patterns.some(pattern => ...)]: up to the first pattern that
    matches; a pattern that throws is logged and does not match. *)
Fixpoint somePattern (config : WatchSettings) (complaint : string)
    (pathInWatchFolder relativePath : string) (patterns : list string) : M bool :=
  match patterns with
  | [] => ret false
  | pattern :: rest =>
      match matchesPattern config pathInWatchFolder relativePath pattern with
      | Some true => ret true
      | Some false =>
          somePattern config complaint pathInWatchFolder relativePath rest
      | None =>
          log (complaint ++ pattern) ;;
          somePattern config complaint pathInWatchFolder relativePath rest
      end
  end.

(** [handleFileSave(document)]; the value says whether
    [debounceUpload(document)] is called. *)
Definition handleFileSave (config : WatchSettings) (document : Document) : M bool :=
  if negb (enabled config) then ret false
  else
    let filePath := doc_fileName document in
    match doc_workspaceFolder document with
    | None => log ("File not in workspace, skipping: " ++ filePath) ;; ret false
    | Some workspaceFolder =>
        let wsPath := fsPath workspaceFolder in
        let relativePath := backslashesToSlashes (path_relative wsPath filePath) in
        let* watchFolder := getCredential "watchFolder" (Some workspaceFolder) in
        let watchFolder := orElse watchFolder "src" in
        if negb (startsWith relativePath (watchFolder ++ "/"))
           && negb (String.eqb relativePath watchFolder)
        then
          log ("File not in watch folder (" ++ watchFolder ++ "): " ++ relativePath) ;;
          ret false
        else
          let pathInWatchFolder :=
            if startsWith relativePath (watchFolder ++ "/")
            then substringFrom (String.length watchFolder + 1) relativePath
            else relativePath in
          let* isExcluded :=
            somePattern config "Invalid exclude pattern: "
              pathInWatchFolder relativePath (excludePatterns config) in
          if isExcluded then
            log ("File excluded by pattern: " ++ relativePath) ;; ret false
          else
            let* isIncluded :=
              somePattern config "Invalid watch pattern: "
                pathInWatchFolder relativePath (watchPatterns config) in
            if negb isIncluded then
              log ("File not matching watch patterns: " ++ relativePath) ;; ret false
            else ret true
    end.

(** An effect other than a request handed to the network. *)
Definition isLocal (e : Effect) : Prop :=
  match e with HttpSend _ => False | _ => True end.

(** From [w] to [w'] only the effects and the caches changed: the files,
    the settings and the upload history are those of [w]. *)
Definition sameSetup (w w' : World) : Prop :=
  fileSystem w' = fileSystem w /\ settings w' = settings w
  /\ numberSettings w' = numberSettings w
  /\ showNotifications w' = showNotifications w
  /\ uploadHistory w' = uploadHistory w
  /\ parseUrl w' = parseUrl w /\ remote w' = remote w.

(** [sameSetup], and no request was handed to the network. *)
Definition offline (w w' : World) : Prop :=
  sameSetup w w' /\ requestsSent w' = requestsSent w.

(** A pattern of the list matches the file. *)
Definition anyMatch (config : WatchSettings)
    (pathInWatchFolder relativePath : string) (patterns : list string) : bool :=
  existsb
    (fun pattern =>
       match matchesPattern config pathInWatchFolder relativePath pattern with
       | Some true => true
       | _ => false
       end) patterns.

(** The path of a saved file as the patterns see it. *)
Definition pathInWatchFolder (watchFolder relativePath : string) : string :=
  if startsWith relativePath (watchFolder ++ "/")
  then substringFrom (String.length watchFolder + 1) relativePath
  else relativePath.



(** *** [testConnection] *)

(** [testConnection()]; [workspaceFolder] is the first folder of the
    workspace, if any.  The message on the status bar while the test
    runs and the buttons of the error message are left out. *)
Definition testConnection (workspaceFolder : option WorkspaceFolder) : M unit :=
  let* restletUrl := getCredential "restletUrl" workspaceFolder in
  if negb (present restletUrl) then
    effect (ErrorMessage
      "NetSuite Auto-Upload: RESTlet URL not configured. Add NS_RESTLET_URL to .env file.")
  else
    tryCatch
      (log ("Testing connection to: " ++ default "" restletUrl) ;;
       let* response :=
         makeAuthenticatedRequest (default "" restletUrl) "GET" None workspaceFolder in
       if success response then
         log "Connection test successful" ;;
         effect (InformationMessage
                   ("✓ NetSuite connection successful! RESTlet v"
                    ++ orElse (version response) "1.0"))
       else throw (Error (orElse (message response) "Unknown error")))
      (fun e =>
         log "Connection test failed" ;;
         effect (ErrorMessage ("Connection failed: " ++ exn_message e))).

(** The endpoint answered, and its answer counts as a success: a status
    from 200 to 299 with no body, or with a body that says so. *)
Definition answersSuccess (outcome : HttpOutcome) : bool :=
  match outcome with
  | Responded statusCode NoData => is2xx statusCode
  | Responded statusCode (Json response) => is2xx statusCode && success response
  | _ => false
  end.

(** From [w] to [w'] the requests handed to the network all pass [P]. *)
Definition sends (P : HttpRequest -> Prop) (w w' : World) : Prop :=
  exists l, requestsSent w' = (requestsSent w ++ l)%list /\ Forall P l.


(** A relation between worlds that every step of the extension keeps
    which touches the effects (those that pass [allowed]), the cache of
    the environment files and the nonces. *)
Record Frame (R : World -> World -> Prop) (allowed : Effect -> Prop) : Prop := {
  frame_refl : forall w, R w w;
  frame_trans : forall w1 w2 w3, R w1 w2 -> R w2 w3 -> R w1 w3;
  frame_effect : forall e w, allowed e -> R w (setEffects (effects w ++ [e]) w);
  frame_cache : forall c w, R w (setEnvConfigCache c w);
  frame_nonces : forall l w, R w (setNonces l w);
  frame_local : forall e, isLocal e -> allowed e
}.

(** From [w] to [w'] the upload history is the same, or one record was
    put in front of it after the endpoint had answered a request with a
    success. *)
Definition recordsAtMostOne (w w' : World) : Prop :=
  remote w' = remote w
  /\ (uploadHistory w' = uploadHistory w
      \/ exists r request,
           uploadHistory w' = remember r (uploadHistory w)
           /\ h_file r = path_basename (h_localPath r)
           /\ answersSuccess (remote w request) = true).

(** The effects [testConnection] may have: no request but a [GET]
    without a body. *)
Definition isProbe (request : HttpRequest) : Prop :=
  req_method request = "GET" /\ req_body request = None.

(** An effect that is no request, or a request that passes [P]. *)
Definition localOr (P : HttpRequest -> Prop) (e : Effect) : Prop :=
  match e with HttpSend request => P request | _ => True end.

(** The record [uploadFile] writes for an answer of the endpoint. *)
Definition recordOf (uploadInfo : UploadInfo) (response : Answer) : UploadRecord :=
  {| h_file := path_basename (uploadPath uploadInfo);
     h_localPath := uploadPath uploadInfo;
     h_netSuitePath := netSuitePath uploadInfo;
     h_action := action response;
     h_fileId := fileId response |}.

(** The body of the request [uploadFile] makes for a file it read. *)
Definition payloadOf (uploadInfo : UploadInfo) (fileContent : string) : Payload :=
  {| payload_path := netSuitePath uploadInfo;
     payload_content := fileContent;
     payload_encoding := "utf8";
     payload_description :=
       "Uploaded via Auto-Upload from " ++ relativePath uploadInfo |}.

End Extension.

(** ** The debounce timers of the extension: [debounceUpload]

    The extension runs on one event loop.  Time is counted in
    milliseconds.  A timer armed by [setTimeout] fires once its delay has
    passed, unless [clearTimeout] removed it first; its callback calls
    [uploadFile], which stays in flight (build wait and round trip of the
    request) for a time the extension does not decide. *)

Module Dispatcher.

Record Timer := {
  timer_id : nat;                  (* the handle [setTimeout] returned *)
  timer_file : string;             (* [document.fileName] of its callback *)
  timer_due : nat
}.

(** A call of [uploadFile] made by a timer: in flight from [upload_start]
    until [upload_end]. *)
Record Upload := {
  upload_file : string;
  upload_start : nat;
  upload_end : nat
}.

Record Env := {
  debounceDelay : option nat;             (* [config.get('debounceDelay')] *)
  latency : string -> nat -> nat          (* time in flight of an upload of a file started at a time *)
}.

Record Loop := {
  now : nat;
  nextTimerId : nat;
  pending : list Timer;                   (* the armed timers, in the order of arming *)
  debounceTimers : gmap string nat;       (* the map of the extension: file name to handle *)
  uploads : list Upload                   (* the uploads started, oldest first *)
}.

Definition initial : Loop :=
  {| now := 0; nextTimerId := 0; pending := []; debounceTimers := ∅; uploads := [] |}.

(** [config.get('debounceDelay') || 1000] *)
Definition delayOf (env : Env) : nat :=
  match debounceDelay env with
  | Some 0 => 1000
  | Some d => d
  | None => 1000
  end.

(** [clearTimeout(handle)] *)
Definition clearTimeout (handle : nat) (l : list Timer) : list Timer :=
  List.filter (fun t => negb (timer_id t =? handle)%nat) l.

(** [debounceUpload(document)], at the present time. *)
Definition debounceUpload (env : Env) (filePath : string) (s : Loop) : Loop :=
  let armed :=
    match debounceTimers s !! filePath with
    | Some handle => clearTimeout handle (pending s)
    | None => pending s
    end in
  let timer := {| timer_id := nextTimerId s;
                  timer_file := filePath;
                  timer_due := now s + delayOf env |} in
  {| now := now s;
     nextTimerId := S (nextTimerId s);
     pending := armed ++ [timer];
     debounceTimers := <[filePath := timer_id timer]> (debounceTimers s);
     uploads := uploads s |}.

(** The upload a callback starts at a time: in flight for as long as the
    network takes. *)
Definition uploadAt (env : Env) (filePath : string) (time : nat) : Upload :=
  {| upload_file := filePath; upload_start := time;
     upload_end := time + latency env filePath time |}.

(** The callback of a timer, run when it fires:
    [uploadFile(document); debounceTimers.delete(filePath)]. *)
Definition fire (env : Env) (s : Loop) (t : Timer) : Loop :=
  let time := Nat.max (now s) (timer_due t) in
  {| now := time;
     nextTimerId := nextTimerId s;
     pending := clearTimeout (timer_id t) (pending s);
     debounceTimers := delete (timer_file t) (debounceTimers s);
     uploads := uploads s ++ [uploadAt env (timer_file t) time] |}.

(** Timers fire in the order of their due times, ties in the order of
    arming. *)
Fixpoint insertByDue (t : Timer) (l : list Timer) : list Timer :=
  match l with
  | [] => [t]
  | u :: rest =>
      if (timer_due t <? timer_due u)%nat then t :: l
      else u :: insertByDue t rest
  end.

Definition sortByDue (l : list Timer) : list Timer :=
  fold_right insertByDue [] l.

Definition dueBy (time : nat) (l : list Timer) : list Timer :=
  sortByDue (List.filter (fun t => (timer_due t <=? time)%nat) l).

(** Let time pass until [time]: every timer due by then fires. *)
Definition advanceTo (env : Env) (time : nat) (s : Loop) : Loop :=
  let s' := fold_left (fire env) (dueBy time (pending s)) s in
  {| now := Nat.max (now s') time;
     nextTimerId := nextTimerId s';
     pending := pending s';
     debounceTimers := debounceTimers s';
     uploads := uploads s' |}.

(** A save of a watched file, handled at a given time. *)
Record Save := { save_time : nat; save_file : string }.

Definition step (env : Env) (s : Loop) (e : Save) : Loop :=
  debounceUpload env (save_file e) (advanceTo env (save_time e) s).

Definition run (env : Env) (events : list Save) (s : Loop) : Loop :=
  fold_left (step env) events s.

(** The uploads of one file. *)
Definition uploadsOf (filePath : string) (s : Loop) : list Upload :=
  List.filter (fun u => String.eqb (upload_file u) filePath) (uploads s).

(** The armed timers of one file. *)
Definition pendingOf (filePath : string) (s : Loop) : list Timer :=
  List.filter (fun t => String.eqb (timer_file t) filePath) (pending s).

(** Two uploads are in flight at the same time. *)
Definition overlap (u1 u2 : Upload) : Prop :=
  upload_start u1 <= upload_start u2 < upload_end u1.

(** A burst of saves seen from one file: time does not go back, and
    every event comes while the timer armed by the last save of the file
    has not run out. *)
Fixpoint withinWindow (env : Env) (filePath : string) (previous lastSave : nat)
    (events : list Save) : Prop :=
  match events with
  | [] => True
  | e :: rest =>
      previous <= save_time e /\ save_time e < lastSave + delayOf env /\
      withinWindow env filePath (save_time e)
        (if String.eqb (save_file e) filePath then save_time e else lastSave) rest
  end.

(** The time of the last save of the file in a burst. *)
Fixpoint lastSaveOf (filePath : string) (lastSave : nat) (events : list Save) : nat :=
  match events with
  | [] => lastSave
  | e :: rest =>
      lastSaveOf filePath
        (if String.eqb (save_file e) filePath then save_time e else lastSave) rest
  end.

(** Timer handles come from a counter: the handles the map holds and those
    of the armed timers are below it. *)
Definition bounded (s : Loop) : Prop :=
  (forall g h, debounceTimers s !! g = Some h -> h < nextTimerId s)
  /\ (forall t, In t (pending s) -> timer_id t < nextTimerId s).

(** The file has one armed timer, the one the map holds for it, and
    neither another file nor a timer of another file has its handle. *)
Definition tracked (filePath : string) (t0 : Timer) (s : Loop) : Prop :=
  timer_file t0 = filePath
  /\ pendingOf filePath s = [t0]
  /\ debounceTimers s !! filePath = Some (timer_id t0)
  /\ (forall g, debounceTimers s !! g = Some (timer_id t0) -> g = filePath)
  /\ (forall t, In t (pending s) -> timer_id t = timer_id t0 ->
                timer_file t = filePath).

(** The order timers fire in. *)
Definition byDue (t u : Timer) : Prop := timer_due t <= timer_due u.

(** [deactivate()]: [debounceTimers.forEach(timer => clearTimeout(timer));
    debounceTimers.clear()].  The timers left do not depend on the order
    the map is gone through in.  The line on the output channel and the
    disposal of the status bar, the watcher and the channel are left
    out. *)
Definition deactivate (s : Loop) : Loop :=
  {| now := now s;
     nextTimerId := nextTimerId s;
     pending :=
       fold_right (fun entry l => clearTimeout (snd entry) l) (pending s)
         (map_to_list (debounceTimers s));
     debounceTimers := ∅;
     uploads := uploads s |}.

(** The saves of one file. *)
Definition savesOf (filePath : string) (events : list Save) : list Save :=
  List.filter (fun e => String.eqb (save_file e) filePath) events.

(** The map of the extension and the armed timers go together: no two
    armed timers share a handle, the map holds the handle of every armed
    timer under its file, and every handle of the map is that of an armed
    timer of the file. *)
Definition inStep (s : Loop) : Prop :=
  List.NoDup (map timer_id (pending s))
  /\ (forall t, In t (pending s) ->
                debounceTimers s !! timer_file t = Some (timer_id t))
  /\ (forall g h, debounceTimers s !! g = Some h ->
                  exists t, In t (pending s) /\ timer_file t = g /\ timer_id t = h).

(** Every armed timer and every upload started goes back to a save of
    its file, handled a debounce delay before or earlier, and a file has
    no more uploads and armed timers than saves. *)
Definition accounted (env : Env) (seen : list Save) (s : Loop) : Prop :=
  (forall g, length (uploadsOf g s) + length (pendingOf g s)
             <= length (savesOf g seen))
  /\ (forall t, In t (pending s) ->
        exists e, In e seen /\ save_file e = timer_file t
                  /\ save_time e + delayOf env <= timer_due t)
  /\ (forall u, In u (uploads s) ->
        exists e, In e seen /\ save_file e = upload_file u
                  /\ save_time e + delayOf env <= upload_start u).

(** Saves handled in the order of their times, none before [previous]. *)
Fixpoint inOrder (previous : nat) (events : list Save) : Prop :=
  match events with
  | [] => True
  | e :: rest => previous <= save_time e /\ inOrder (save_time e) rest
  end.

(** No save of the file of an upload falls in the debounce delay before
    its start; the armed timers run out a delay or more after every save
    of their file. *)
Definition settled (env : Env) (seen : list Save) (s : Loop) : Prop :=
  (forall e, In e seen -> save_time e <= now s)
  /\ (forall t e, In t (pending s) -> In e seen -> save_file e = timer_file t ->
                  save_time e + delayOf env <= timer_due t)
  /\ (forall u, In u (uploads s) -> upload_start u <= now s)
  /\ (forall u e, In u (uploads s) -> In e seen -> save_file e = upload_file u ->
                  save_time e + delayOf env <= upload_start u
                  \/ upload_start u <= save_time e).

End Dispatcher.

(** ** The wire between the two *)

Module Wire.

(** The body of the POST as the RESTlet receives it. *)
Definition contextOf (p : Extension.Payload) : Restlet.Context := {|
  Restlet.path := Some (Extension.payload_path p);
  Restlet.content := Some (Extension.payload_content p);
  Restlet.encoding := Some (Extension.payload_encoding p);
  Restlet.folder := None;
  Restlet.description := Some (Extension.payload_description p)
|}.

(** The response of the RESTlet as the extension parses it. *)
Definition answerOf (r : Restlet.Response) : Extension.Answer :=
  match r with
  | Restlet.Success message fileId _ action =>
      {| Extension.success := true;
         Extension.message := Some message;
         Extension.error := None;
         Extension.error_message := None;
         Extension.fileId := Some fileId;
         Extension.action := Some (Restlet.actionName action);
         Extension.version := None |}
  | Restlet.Failure error message =>
      {| Extension.success := false;
         Extension.message := Some message;
         Extension.error := Some error;
         Extension.error_message := None;
         Extension.fileId := None;
         Extension.action := None;
         Extension.version := None |}
  end.

(** An endpoint that runs the POST handler on a cabinet. *)
Definition endpoint (cabinet : Restlet.World) (request : Extension.HttpRequest)
  : Extension.HttpOutcome :=
  match Extension.req_body request with
  | Some p =>
      Extension.Responded 200
        (Extension.Json (answerOf (fst (Restlet.post (contextOf p) cabinet))))
  | None => Extension.Responded 200 Extension.NoData
  end.

End Wire.

(** ** Sample worlds *)

Module Examples.

Import Restlet.

(** A cabinet with the folders [app] and [app/lib] under the root, no
    folder named after the root, and one file, [app/lib/a.js]. *)
Definition cabinet : World := {|
  folders :=
    [ {| folder_id := 101; folder_name := "app"; folder_parent := Some (-15)%Z |};
      {| folder_id := 102; folder_name := "lib"; folder_parent := Some 101%Z |} ];
  files :=
    [ {| file_id := 500; file_name := "a.js"; file_folder := 102;
         file_type := JAVASCRIPT; file_contents := "old";
         file_description := ""; file_encoding := UTF_8 |} ];
  faults := [];
  journal := []
|}.

(** An upload of new content for [app/lib/a.js]. *)
Definition upload : Context := {|
  path := Some "/SuiteScripts/app/lib/a.js";
  content := Some "new";
  encoding := None;
  folder := None;
  description := None
|}.

(** The same cabinet on a day when its second platform call, the lookup
    of the file, throws. *)
Definition cabinetFailingLookup : World := setFaults [false; true] cabinet.




(** A workspace and a document saved in its watch folder. *)
Definition workspace : Extension.WorkspaceFolder :=
  {| Extension.fsPath := "/home/dev/project" |}.

Definition savedSource : string :=
  "/home/dev/project/src/FileCabinet/SuiteScripts/a/b.js".

(** A world of the extension with nothing configured, and so with the
    folders and the root path of the defaults, and with no file. *)
Definition bare : Extension.World := {|
  Extension.fileSystem := ∅;
  Extension.settings := ∅;
  Extension.numberSettings := ∅;
  Extension.showNotifications := true;
  Extension.envConfigCache := ∅;
  Extension.uploadHistory := [];
  Extension.effects := [];
  Extension.nonces := [];
  Extension.clock := 0;
  Extension.parseUrl := fun _ => None;
  Extension.signature := fun _ => "";
  Extension.signingFault := fun _ => None;
  Extension.remote := fun _ => Extension.TimedOut
|}.

(** The same world with the RESTlet URL and the five secrets in the
    settings, the source folder as upload folder, and a URL parser that
    accepts the RESTlet URL. *)
Definition restletUrl : string :=
  "https://1234567.restlets.api.netsuite.com/app/site/hosting/restlet.nl?script=123&deploy=1".

Definition restletUrlParsed : Extension.Url := {|
  Extension.hostname := "1234567.restlets.api.netsuite.com";
  Extension.port := "";
  Extension.pathname := "/app/site/hosting/restlet.nl";
  Extension.search := "?script=123&deploy=1"
|}.

Definition configuredWith (accountId : string)
    (fs : gmap string Extension.FsNode)
    (cache : gmap string (gmap string string))
    (answer : Extension.HttpRequest -> Extension.HttpOutcome) : Extension.World := {|
  Extension.fileSystem := fs;
  Extension.settings :=
    list_to_map
      [ ("restletUrl", restletUrl); ("accountId", accountId);
        ("oauth.consumerKey", "ck"); ("oauth.consumerSecret", "cs");
        ("oauth.tokenId", "tk"); ("oauth.tokenSecret", "ts");
        ("uploadFrom", "src") ];
  Extension.numberSettings := ∅;
  Extension.showNotifications := true;
  Extension.envConfigCache := cache;
  Extension.uploadHistory := [];
  Extension.effects := [];
  Extension.nonces := ["n0nce"];
  Extension.clock := 1700000000;
  Extension.parseUrl :=
    fun url => if String.eqb url restletUrl then Some restletUrlParsed else None;
  Extension.signature := fun _ => "c2lnbmF0dXJl";
  Extension.signingFault := fun _ => None;
  Extension.remote := answer
|}.

Definition configured : Extension.World :=
  configuredWith "1234567_SB1" ∅ ∅ (fun _ => Extension.TimedOut).

(** A configured world whose environment files are loaded, whose saved
    source file has the given content, and whose endpoint is the RESTlet
    on the sample cabinet. *)
Definition sourceWorld (fileContent : string) : Extension.World :=
  configuredWith "1234567_SB1"
    {[ savedSource := Extension.RegularFile fileContent ]}
    {[ "/home/dev/project" := ∅ ]}
    (Wire.endpoint cabinet).

Definition savedDocument : Extension.Document := {|
  Extension.doc_fileName := savedSource;
  Extension.doc_workspaceFolder := Some workspace
|}.

(** A text doubled [n] times. *)
Fixpoint doubled (n : nat) (s : string) : string :=
  match n with
  | O => s
  | S n' => doubled n' (s ++ s)
  end.

(** A content of exactly [5 * 1024 * 1024] characters, and one more. *)
Definition atLimit : string := doubled 20 "xxxxx".
Definition overLimit : string := "x" ++ atLimit.

(** The same with an account id that holds a replacement pattern. *)
Definition configuredWithDollar : Extension.World :=
  configuredWith "12$&34" ∅ ∅ (fun _ => Extension.TimedOut).

(** A RESTlet URL with a malformed percent escape in its query, and what
    the OAuth library throws when it decodes one. *)
Definition malformedUrl : string :=
  "https://1234567.restlets.api.netsuite.com/app/site/hosting/restlet.nl?script=%zz&deploy=1".

Definition uriError : Eff.Exn :=
  {| Eff.exn_name := "URIError"; Eff.exn_message := "URI malformed" |}.

Definition malformedUrlParsed : Extension.Url := {|
  Extension.hostname := "1234567.restlets.api.netsuite.com";
  Extension.port := "";
  Extension.pathname := "/app/site/hosting/restlet.nl";
  Extension.search := "?script=%zz&deploy=1"
|}.

(** The configured world with an OAuth library that throws on such a
    URL, and a URL parser that takes it. *)
Definition strictSigner : Extension.World := {|
  Extension.fileSystem := Extension.fileSystem configured;
  Extension.settings := Extension.settings configured;
  Extension.numberSettings := Extension.numberSettings configured;
  Extension.showNotifications := Extension.showNotifications configured;
  Extension.envConfigCache := Extension.envConfigCache configured;
  Extension.uploadHistory := Extension.uploadHistory configured;
  Extension.effects := Extension.effects configured;
  Extension.nonces := Extension.nonces configured;
  Extension.clock := Extension.clock configured;
  Extension.parseUrl :=
    fun url => if String.eqb url malformedUrl then Some malformedUrlParsed
               else Extension.parseUrl configured url;
  Extension.signature := Extension.signature configured;
  Extension.signingFault :=
    fun input =>
      if Js.includes (Extension.sig_url input) "%zz" then Some uriError else None;
  Extension.remote := Extension.remote configured
|}.

(** A network that takes three seconds to answer, and the default delay. *)
Definition slowNetwork : Dispatcher.Env :=
  {| Dispatcher.debounceDelay := None; Dispatcher.latency := fun _ _ => 3000 |}.

(** Two saves of one file, the second after the timer of the first fired. *)
Definition twoSaves : list Dispatcher.Save :=
  [ {| Dispatcher.save_time := 0; Dispatcher.save_file := "/w/src/a.js" |};
    {| Dispatcher.save_time := 1500; Dispatcher.save_file := "/w/src/a.js" |} ].

(** Saves in quick succession, of two files. *)
Definition burst : list Dispatcher.Save :=
  [ {| Dispatcher.save_time := 400; Dispatcher.save_file := "/w/src/a.js" |};
    {| Dispatcher.save_time := 700; Dispatcher.save_file := "/w/src/b.js" |};
    {| Dispatcher.save_time := 900; Dispatcher.save_file := "/w/src/a.js" |} ].

(** An upload of a file the cabinet does not hold yet, into a folder it
    holds. *)
Definition uploadNew : Context := {|
  path := Some "/SuiteScripts/app/lib/new.js";
  content := Some "new";
  encoding := None;
  folder := None;
  description := None
|}.

(** A DELETE of a file the cabinet does not hold. *)
Definition deleteMissing : DeleteContext := {|
  delete_path := Some "/SuiteScripts/app/lib/gone.js";
  delete_fileId := None
|}.

(** A [file.delete] that never fails. *)
Definition deleteQuietly : Z -> M unit := fun _ => Eff.ret tt.

(** The bare world with two environment files in the workspace. *)
Definition withEnvFiles : Extension.World :=
  Extension.setFileSystem
    {[ "/home/dev/project/.env" :=
         Extension.RegularFile
           ("NS_ACCOUNT_ID=111"
            ++ String Extension.newline "NS_ROOT_PATH=/SuiteScripts/dev");
       "/home/dev/project/.env.local" :=
         Extension.RegularFile "NS_ACCOUNT_ID=222" ]}
    bare.

(** Settings that watch the scripts and leave the tests out, with a
    matcher that knows the patterns [**/*suffix]. *)
Definition watchScripts : Extension.WatchSettings := {|
  Extension.enabled := true;
  Extension.watchPatterns := ["**/*.js"];
  Extension.excludePatterns := ["**/*.test.js"];
  Extension.minimatch :=
    fun p pattern => Some (Extension.endsWith p (Js.substringFrom 4 pattern))
|}.

(** The configured world with the same two environment files. *)
Definition configuredWithEnvFiles : Extension.World :=
  Extension.setFileSystem (Extension.fileSystem withEnvFiles) configured.

End Examples.

(** * Facts *)

(** ** Strings *)

Module JsFacts.

Import Js.

Lemma append_assoc (a b c : string) : (a ++ b) ++ c = a ++ b ++ c.
Proof.
  induction a as [|x a IH]; [reflexivity|].
  change (String x ((a ++ b) ++ c) = String x (a ++ b ++ c)). now rewrite IH.
Qed.

Lemma append_nil_r (a : string) : a ++ "" = a.
Proof.
  induction a as [|x a IH]; [reflexivity|].
  change (String x (a ++ "") = String x a). now rewrite IH.
Qed.

Lemma isSlash_true c : isSlash c = true -> c = "/"%char.
Proof. unfold isSlash. intros H. now apply Ascii.eqb_eq in H. Qed.

Lemma startsWith_slash s : startsWith s "/" = true -> exists r, s = String "/"%char r.
Proof.
  destruct s as [|c r]; cbn [startsWith]; [discriminate|].
  rewrite andb_true_r. intros H. apply Ascii.eqb_eq in H. subst. eauto.
Qed.

Lemma startsWith_slash_cons c r : startsWith (String c r) "/" = isSlash c.
Proof.
  cbn [startsWith]. rewrite andb_true_r. unfold isSlash. apply Ascii.eqb_sym.
Qed.

Lemma collapseSlashes_cons c s :
  collapseSlashes (String c s) =
  if isSlash c && startsWith s "/" then collapseSlashes s
  else String c (collapseSlashes s).
Proof.
  destruct s as [|c' s].
  - cbn. now destruct (isSlash c).
  - rewrite startsWith_slash_cons. cbn [collapseSlashes].
    now destruct (isSlash c), (isSlash c').
Qed.

Lemma collapseSlashes_head c s :
  exists r, collapseSlashes (String c s) = String c r
            /\ (isSlash c = true -> startsWith r "/" = false).
Proof.
  revert c. induction s as [|c' s IH]; intros c.
  - exists EmptyString. split; [|reflexivity].
    rewrite collapseSlashes_cons. cbn. now rewrite andb_false_r.
  - rewrite collapseSlashes_cons, startsWith_slash_cons.
    destruct (IH c') as (r & Hr & Hs).
    destruct (isSlash c) eqn:Hc, (isSlash c') eqn:Hc'; cbn [andb].
    + apply isSlash_true in Hc, Hc'. subst. exists r. split; [exact Hr|].
      intros _. now apply Hs.
    + exists (collapseSlashes (String c' s)). split; [reflexivity|].
      intros _. rewrite Hr. now rewrite startsWith_slash_cons.
    + eexists. split; [reflexivity|discriminate].
    + eexists. split; [reflexivity|discriminate].
Qed.

Lemma collapseSlashes_slashFree s : slashFree (collapseSlashes s).
Proof.
  induction s as [|c s IH]; [exact I|].
  rewrite collapseSlashes_cons.
  destruct (isSlash c && startsWith s "/") eqn:E; [exact IH|].
  destruct s as [|c' s]; [exact I|].
  destruct (collapseSlashes_head c' s) as (r & Hr & _).
  rewrite Hr in *. cbn [slashFree]. split; [|exact IH].
  now rewrite startsWith_slash_cons in E.
Qed.

(** A string without two slashes in a row holds no [//] anywhere. *)
Lemma slashFree_no_double s : slashFree s -> forall a b, s <> a ++ "//" ++ b.
Proof.
  intros Hs a. revert s Hs. induction a as [|x a IH]; intros s Hs b E.
  - subst s. cbn in Hs. destruct Hs as [Hs _]. discriminate.
  - subst s. change (String x a ++ "//" ++ b) with (String x (a ++ "//" ++ b)) in Hs.
    destruct (a ++ "//" ++ b) as [|y t] eqn:E.
    + destruct a; discriminate.
    + cbn [slashFree] in Hs. destruct Hs as [_ Hs].
      apply (IH (String y t) Hs b). symmetry. exact E.
Qed.

End JsFacts.

(** ** The RESTlet *)

Module RestletFacts.

Import Js Eff Restlet.

(** *** Platform calls *)

Lemma invoke_answers {A} (c : Call) (op : World -> (Exn + A) * World) w :
  hd false (faults w) = false ->
  invoke c op w =
  match op (setFaults (tl (faults w)) w) with
  | (inl e, w2) => (inl e, logCall c true w2)
  | (inr a, w2) => (inr a, logCall c false w2)
  end.
Proof. intros H. unfold invoke. now rewrite H. Qed.

Lemma invoke_throws {A} (c : Call) (op : World -> (Exn + A) * World) w :
  hd false (faults w) = true ->
  invoke c op w = (inl platformError, logCall c true (setFaults (tl (faults w)) w)).
Proof. intros H. unfold invoke. now rewrite H. Qed.

(** *** The chain statement walks the segments *)

Lemma flat_map_flat_map {A B C} (f : A -> list B) (g : B -> list C) (l : list A) :
  flat_map g (flat_map f l) = flat_map (fun x => flat_map g (f x)) l.
Proof.
  induction l as [|x l IH]; [reflexivity|].
  cbn [flat_map]. now rewrite flat_map_app, IH.
Qed.

Lemma flat_map_unit {A} (l : list A) : flat_map (fun x => [x]) l = l.
Proof. induction l as [|x l IH]; [reflexivity|]. cbn. now rewrite IH. Qed.

Lemma joins_walk fs (joins : list string) (ids : list Z) :
  fold_left (fun ids name => flat_map (fun pid => childrenNamed fs pid name) ids)
    joins ids
  = flat_map (fun id => walk fs id joins) ids.
Proof.
  revert ids. induction joins as [|name joins IH]; intros ids.
  - cbn [fold_left walk]. now rewrite flat_map_unit.
  - cbn [fold_left]. rewrite IH, flat_map_flat_map. reflexivity.
Qed.

Lemma chainRows_walk fs root first joins :
  chainRows fs root first joins = walk fs root (first :: joins).
Proof. unfold chainRows. now rewrite joins_walk. Qed.

Lemma stringParams_strings (l : list string) : stringParams (map PStr l) = Some l.
Proof. induction l as [|s l IH]; [reflexivity|]. cbn. now rewrite IH. Qed.

Lemma params_split (rest : list string) (tail : list Param) :
  firstn (length rest) (map PStr rest ++ tail) = map PStr rest
  /\ skipn (length rest) (map PStr rest ++ tail) = tail.
Proof.
  induction rest as [|s rest [IH1 IH2]]; [now split|].
  cbn [length map app firstn skipn]. now rewrite IH1, IH2.
Qed.

Lemma evalFolderChain_built root first rest w :
  evalFolderChain (length (first :: rest))
    (map PStr rest ++ [PNum root; PStr first]) w
  = inr (walk (folders w) root (first :: rest)).
Proof.
  unfold evalFolderChain. cbn [length]. rewrite Nat.sub_1_r. cbn [Nat.pred].
  destruct (params_split rest [PNum root; PStr first]) as [-> ->].
  rewrite stringParams_strings, Nat.eqb_refl. cbn [andb Nat.leb].
  now rewrite chainRows_walk.
Qed.

Lemma queryFolderChain_answers first rest w :
  hd false (faults w) = false ->
  fst (queryFolderChain (first :: rest) w)
  = inr (firstId (walk (folders w) (defaultRootFolder CONFIG) (first :: rest))).
Proof.
  intros H. unfold queryFolderChain, bind, runFolderChainQuery.
  rewrite invoke_answers by exact H.
  rewrite evalFolderChain_built.
  change (folders (setFaults (tl (faults w)) w)) with (folders w).
  destruct (walk (folders w) (defaultRootFolder CONFIG) (first :: rest)) as [|id ids];
    [reflexivity|].
  cbn [firstId]. now destruct (truthyId id).
Qed.

Lemma queryFolderChain_throws first rest w :
  hd false (faults w) = true ->
  fst (queryFolderChain (first :: rest) w) = inl platformError.
Proof.
  intros H. unfold queryFolderChain, bind, runFolderChainQuery.
  now rewrite invoke_throws by exact H.
Qed.

Lemma pathSegments_empty : pathSegments "" = [].
Proof. reflexivity. Qed.

(** C3. Watch-root skip in folder lookup: when the first segment of a
    folder path is the name of the watch root, whatever its case,
    [findFolderByPath] drops it and resolves the segments that follow by
    the walk from the fixed root folder; the answer is the first folder
    the walk ends in and does not depend on a folder named after the
    root.  With no segment left the root folder itself is the answer. *)
Theorem findFolderByPath_skips_watch_root
    (folderPath first : string) (rest : list string) (w : World) :
  pathSegments folderPath = first :: rest ->
  toLowerCase first = "suitescripts" ->
  (rest = [] ->
     findFolderByPath folderPath w = (inr (Some (defaultRootFolder CONFIG)), w))
  /\ (rest <> [] -> hd false (faults w) = false ->
        fst (findFolderByPath folderPath w)
        = inr (firstId (walk (folders w) (defaultRootFolder CONFIG) rest)))
  /\ (rest <> [] -> hd false (faults w) = true ->
        fst (findFolderByPath folderPath w) = inr None).
Proof.
  intros Hseg Hlow.
  assert (Hne : isEmpty folderPath = false).
  { destruct folderPath; [now rewrite pathSegments_empty in Hseg | reflexivity]. }
  assert (Hskip : skipSuiteScripts (pathSegments folderPath) = rest).
  { rewrite Hseg. cbn [skipSuiteScripts]. now rewrite Hlow. }
  unfold findFolderByPath. rewrite Hne, Hskip. unfold tryCatch.
  repeat split.
  - intros ->. reflexivity.
  - intros Hrest Hok. destruct rest as [|r rest]; [congruence|].
    pose proof (queryFolderChain_answers r rest w Hok) as Hq.
    destruct (queryFolderChain (r :: rest) w) as [[e|a] w']; cbn [fst] in *;
      [discriminate|]. exact Hq.
  - intros Hrest Hbad. destruct rest as [|r rest]; [congruence|].
    pose proof (queryFolderChain_throws r rest w Hbad) as Hq.
    destruct (queryFolderChain (r :: rest) w) as [[e|a] w']; cbn [fst] in *;
      [reflexivity|discriminate].
Qed.

Lemma findFolderByPath_skips_watch_root_witness :
  fst (findFolderByPath "/SuiteScripts/app" Examples.cabinet) = inr (Some 101%Z).
Proof.
  destruct (findFolderByPath_skips_watch_root "/SuiteScripts/app" "SuiteScripts"
              ["app"] Examples.cabinet eq_refl eq_refl) as (_ & H & _).
  rewrite H; [reflexivity | discriminate | reflexivity].
Defined.

(** *** The update branch *)

Lemma overwrite_first o (l : list FileRow) row rows :
  List.filter (sameNameAndFolder o) l = row :: rows ->
  exists l', overwrite o l = Some (file_id row, l').
Proof.
  induction l as [|f l IH]; cbn [List.filter overwrite]; [discriminate|].
  destruct (sameNameAndFolder o f).
  - intros [= -> _]. eauto.
  - intros H. destruct (IH H) as (l' & ->). eauto.
Qed.

(** What a found file tells about the table of files. *)
Lemma findFileByFullPath_found filePath folderPath name w existing w1 :
  findFileByFullPath filePath folderPath name w = (inr (Some existing), w1) ->
  exists row rows,
    List.filter
      (fun f => String.eqb (file_name f) name
                && Z.eqb (file_folder f) (existing_folderId existing))
      (files w1) = row :: rows
    /\ existing_id existing = file_id row.
Proof.
  unfold findFileByFullPath, tryCatch, bind.
  destruct (findFolderByPath folderPath w) as [[e|[folderId|]] w'];
    cbn [ret]; try discriminate.
  destruct (truthyId folderId); cbn [negb]; [|discriminate].
  unfold runFileQuery, invoke.
  destruct (hd false (faults w')); [discriminate|].
  cbn [evalFileQuery].
  change (files (setFaults (tl (faults w')) w')) with (files w').
  destruct (List.filter _ (files w')) as [|row rows] eqn:E; [discriminate|].
  intros [= <- <-]. exists row, rows. split; [exact E | reflexivity].
Qed.

Lemma post_try_lookup context :
  post_try context =
  let filePath := sanitizePath (default "" (path context)) in
  let parts := parseFilePath filePath in
  bind (findFileByFullPath filePath (folderPath parts) (fileName parts))
    (fun existingFile =>
       match existingFile with
       | Some existingFile =>
           let* savedFileId := fileSave (updateOptions context existingFile) in
           ret (Success "File updated successfully" savedFileId filePath update)
       | None =>
           let* folderId :=
             match folder context with
             | Some f =>
                 if truthyId f then ret f
                 else findOrCreateFolderPath (folderPath parts)
             | None => findOrCreateFolderPath (folderPath parts)
             end in
           let* savedFileId := fileSave (createOptions context folderId) in
           ret (Success "File created successfully" savedFileId filePath create)
       end).
Proof. reflexivity. Qed.

Lemma post_update context w existing w1 :
  validateRequest context = Valid ->
  findFileByFullPath
    (sanitizePath (default "" (path context)))
    (folderPath (parseFilePath (sanitizePath (default "" (path context)))))
    (fileName (parseFilePath (sanitizePath (default "" (path context)))))
    w = (inr (Some existing), w1) ->
  post context w =
  match fileSave (updateOptions context existing) w1 with
  | (inr id, w2) =>
      (Success "File updated successfully" id
         (sanitizePath (default "" (path context))) update, w2)
  | (inl e, w2) => (caught e, w2)
  end.
Proof.
  intros Hvalid Hfind. unfold post. rewrite Hvalid, post_try_lookup. cbv zeta.
  unfold bind at 1. rewrite Hfind. unfold bind.
  now destruct (fileSave (updateOptions context existing) w1) as [[e|id] w2].
Qed.

(** C1. Identity preservation of the upsert: when the path of a valid
    POST resolves, by [findFileByFullPath], to an existing file with id X,
    the handler takes the update branch: its one further platform call is
    a save with [conflictResolution: OVERWRITE], the name of the request
    and the folder of the file found; when the save answers, the response
    is a success with action [update] and file id X, and no success of
    this request carries another id. *)
Theorem post_preserves_identity (context : Context) (w : World)
    (existing : ExistingFile) (w1 : World) :
  validateRequest context = Valid ->
  findFileByFullPath
    (sanitizePath (default "" (path context)))
    (folderPath (parseFilePath (sanitizePath (default "" (path context)))))
    (fileName (parseFilePath (sanitizePath (default "" (path context)))))
    w = (inr (Some existing), w1) ->
  exists options threw,
    journal (snd (post context w)) = (journal w1 ++ [(FileSave options, threw)])%list
    /\ opt_conflictResolution options = Some OVERWRITE
    /\ opt_name options
       = fileName (parseFilePath (sanitizePath (default "" (path context))))
    /\ opt_folder options = existing_folderId existing
    /\ threw = hd false (faults w1)
    /\ (threw = false ->
          fst (post context w)
          = Success "File updated successfully" (existing_id existing)
              (sanitizePath (default "" (path context))) update)
    /\ (forall message id p a,
          fst (post context w) = Success message id p a ->
          id = existing_id existing /\ a = update).
Proof.
  intros Hvalid Hfind.
  destruct (findFileByFullPath_found _ _ _ _ _ _ Hfind) as (row & rows & Hrows & Hid).
  rewrite (post_update context w existing w1 Hvalid Hfind).
  exists (updateOptions context existing), (hd false (faults w1)).
  unfold fileSave, invoke.
  destruct (hd false (faults w1)) eqn:Hfault.
  - cbn [fst snd journal logCall].
    repeat split; try reflexivity; try discriminate.
    all: match goal with H : caught _ = Success _ _ _ _ |- _ => discriminate H end.
  - change (files (setFaults (tl (faults w1)) w1)) with (files w1).
    destruct (overwrite_first (updateOptions context existing) (files w1) row rows)
      as (l' & Hl'); [exact Hrows|].
    cbn [opt_conflictResolution updateOptions]. rewrite Hl'.
    cbn [fst snd ret journal logCall setFiles setFaults].
    rewrite Hid. repeat split; try reflexivity.
    all: match goal with H : Success _ _ _ _ = Success _ _ _ _ |- _ =>
           now injection H as _ <- _ <- end.
Qed.

Lemma post_preserves_identity_witness :
  fst (post Examples.upload Examples.cabinet)
  = Success "File updated successfully" 500 "/SuiteScripts/app/lib/a.js" update.
Proof.
  destruct (post_preserves_identity Examples.upload Examples.cabinet
              {| existing_id := 500; existing_name := "a.js";
                 existing_folderId := 102 |}
              (snd (findFileByFullPath "/SuiteScripts/app/lib/a.js"
                      "SuiteScripts/app/lib" "a.js" Examples.cabinet))
              eq_refl eq_refl)
    as (options & threw & _ & _ & _ & _ & Hthrew & Hok & _).
  apply Hok. rewrite Hthrew. reflexivity.
Defined.

(** *** What the lookups leave alone *)

Local Abbreviation keepsFiles m := (forall w, files (snd (m w)) = files w).

Lemma ret_keepsFiles {A} (a : A) : keepsFiles (ret (W := World) a).
Proof. reflexivity. Qed.

Lemma bind_keepsFiles {A B} (m : M A) (k : A -> M B) :
  keepsFiles m -> (forall a, keepsFiles (k a)) -> keepsFiles (bind m k).
Proof.
  intros Hm Hk w. unfold bind. specialize (Hm w).
  destruct (m w) as [[e|a] w']; cbn [snd] in *; [exact Hm|].
  now rewrite Hk.
Qed.

Lemma tryCatch_keepsFiles {A} (m : M A) (h : Exn -> M A) :
  keepsFiles m -> (forall e, keepsFiles (h e)) -> keepsFiles (tryCatch m h).
Proof.
  intros Hm Hh w. unfold tryCatch. specialize (Hm w).
  destruct (m w) as [[e|a] w']; cbn [snd] in *; [|exact Hm].
  now rewrite Hh.
Qed.

Lemma invoke_keepsFiles {A} c (op : World -> (Exn + A) * World) :
  keepsFiles op -> keepsFiles (invoke c op).
Proof.
  intros Hop w. unfold invoke. destruct (hd false (faults w)); [reflexivity|].
  specialize (Hop (setFaults (tl (faults w)) w)).
  destruct (op _) as [[e|a] w2]; cbn [snd] in *; exact Hop.
Qed.

Lemma findFolderByPath_keepsFiles folderPath : keepsFiles (findFolderByPath folderPath).
Proof.
  unfold findFolderByPath. destruct (isEmpty folderPath); [reflexivity|].
  apply tryCatch_keepsFiles; [|reflexivity].
  unfold queryFolderChain.
  destruct (skipSuiteScripts (pathSegments folderPath)) as [|first rest];
    [reflexivity|].
  apply bind_keepsFiles.
  - apply invoke_keepsFiles. reflexivity.
  - intros [|id ids]; [reflexivity|]. now destruct (truthyId id).
Qed.

Lemma findFileByFullPath_keepsFiles filePath folderPath name :
  keepsFiles (findFileByFullPath filePath folderPath name).
Proof.
  unfold findFileByFullPath. apply tryCatch_keepsFiles; [|reflexivity].
  apply bind_keepsFiles; [apply findFolderByPath_keepsFiles|].
  intros [folderId|]; [|reflexivity].
  destruct (truthyId folderId); cbn [negb]; [|reflexivity].
  apply bind_keepsFiles.
  - apply invoke_keepsFiles. reflexivity.
  - now intros [|row rows].
Qed.

Lemma traverse_keepsFiles parts :
  forall foldersByParent currentFolderId,
    keepsFiles (traverse parts foldersByParent currentFolderId).
Proof.
  induction parts as [|folderName rest IH]; intros foldersByParent currentFolderId;
    [reflexivity|].
  cbn [traverse].
  destruct (knownChild foldersByParent currentFolderId folderName);
    [apply IH|].
  apply bind_keepsFiles; [apply invoke_keepsFiles; reflexivity|].
  intros id. apply IH.
Qed.

Lemma findOrCreateFolderPath_keepsFiles folderPath :
  keepsFiles (findOrCreateFolderPath folderPath).
Proof.
  unfold findOrCreateFolderPath. destruct (isEmpty folderPath); [reflexivity|].
  apply tryCatch_keepsFiles; [|reflexivity].
  unfold findOrCreateFolderPath_try.
  destruct (skipSuiteScripts (pathSegments folderPath)) as [|first rest];
    [reflexivity|].
  apply bind_keepsFiles; [apply findFolderByPath_keepsFiles|].
  intros [id|]; [reflexivity|].
  apply bind_keepsFiles; [apply invoke_keepsFiles; reflexivity|].
  intros allFolders. apply traverse_keepsFiles.
Qed.

(** [findOrCreateFolderPath] and the lookups always return. *)
Lemma findFolderByPath_returns folderPath w :
  exists r, fst (findFolderByPath folderPath w) = inr r.
Proof.
  unfold findFolderByPath. destruct (isEmpty folderPath); [now eexists|].
  unfold tryCatch. destruct (queryFolderChain _ w) as [[e|a] w']; now eexists.
Qed.

Lemma findOrCreateFolderPath_returns folderPath w :
  exists id, fst (findOrCreateFolderPath folderPath w) = inr id.
Proof.
  unfold findOrCreateFolderPath. destruct (isEmpty folderPath); [now eexists|].
  unfold tryCatch.
  destruct (findOrCreateFolderPath_try folderPath w) as [[e|a] w']; now eexists.
Qed.

(** *** New identifiers *)

Lemma max_bound (l : list Z) (x : Z) : In x l -> (x <= fold_right Z.max 0 l)%Z.
Proof.
  induction l as [|y l IH]; [intros []|].
  cbn [fold_right In]. intros [->|H]; [lia|]. specialize (IH H). lia.
Qed.

Lemma freshId_new w : ~ In (freshId w) (map file_id (files w)).
Proof.
  intros H. unfold freshId in H.
  assert (In (1 + fold_right Z.max 0 (map folder_id (folders w) ++ map file_id (files w)))%Z
             (map folder_id (folders w) ++ map file_id (files w))) as Hin
    by (apply in_or_app; now right).
  apply max_bound in Hin. lia.
Qed.

(** *** The journal of the lookups *)

Lemma findFolderByPath_journal folderPath w :
  exists delta,
    journal (snd (findFolderByPath folderPath w)) = (journal w ++ delta)%list
    /\ forall c b, In (c, b) delta ->
         isQuery c /\ ~ isCreationStep c
         /\ (b = true -> fst (findFolderByPath folderPath w) = inr None).
Proof.
  unfold findFolderByPath.
  destruct (isEmpty folderPath).
  { exists []. split; [now rewrite app_nil_r | intros c b []]. }
  destruct (skipSuiteScripts (pathSegments folderPath)) as [|first rest].
  { exists []. split; [now rewrite app_nil_r | intros c b []]. }
  unfold tryCatch, queryFolderChain, bind, runFolderChainQuery, invoke.
  destruct (hd false (faults w)).
  - eexists [_]. split; [reflexivity|].
    intros c b [[= <- <-]|[]]. cbn. auto.
  - rewrite evalFolderChain_built.
    eexists [(_, false)]. split.
    + destruct (walk _ _ _) as [|id ids]; [reflexivity|].
      destruct (truthyId id); reflexivity.
    + intros c b [[= <- <-]|[]]. cbn. repeat split; auto. discriminate.
Qed.

Lemma findFileByFullPath_journal filePath folderPath name w :
  exists delta,
    journal (snd (findFileByFullPath filePath folderPath name w))
    = (journal w ++ delta)%list
    /\ ((exists c, In (c, true) delta) ->
        fst (findFileByFullPath filePath folderPath name w) = inr None).
Proof.
  unfold findFileByFullPath, tryCatch, bind.
  destruct (findFolderByPath_journal folderPath w) as (d1 & Hj1 & Hd1).
  destruct (findFolderByPath folderPath w) as [[e|[folderId|]] w'];
    cbn [fst snd] in *.
  - exists d1. split; [exact Hj1 | reflexivity].
  - assert (Hclean : forall c, ~ In (c, true) d1).
    { intros c Hc. destruct (Hd1 c true Hc) as (_ & _ & H).
      specialize (H eq_refl). discriminate. }
    destruct (truthyId folderId); cbn [negb].
    + unfold runFileQuery, invoke.
      destruct (hd false (faults w')).
      * exists (d1 ++ [(RunSuiteQL SelectFile [PStr name; PNum folderId], true)])%list.
        cbn [fst snd journal logCall setFaults ret]. rewrite Hj1, app_assoc.
        split; reflexivity.
      * cbn [evalFileQuery].
        exists (d1 ++ [(RunSuiteQL SelectFile [PStr name; PNum folderId], false)])%list.
        split.
        { destruct (List.filter _ _) as [|row rows];
            cbn [fst snd journal logCall setFaults ret];
            now rewrite Hj1, app_assoc. }
        intros (c & Hc). apply in_app_or in Hc as [Hc|[[=]|[]]].
        now apply Hclean in Hc.
    + exists d1. split; [exact Hj1 | reflexivity].
  - exists d1. split; [exact Hj1 | reflexivity].
Qed.

Lemma threwBetween_delta P w w' delta :
  journal w' = (journal w ++ delta)%list ->
  threwBetween P w w' -> exists c, In (c, true) delta /\ P c.
Proof.
  intros Hj (c & before & after & Hj' & Hc).
  rewrite Hj in Hj'. apply app_inv_head in Hj'. subst delta.
  exists c. split; [|exact Hc]. apply in_or_app. right. now left.
Qed.

(** The create branch of [post]. *)
Lemma post_create context w w1 :
  validateRequest context = Valid ->
  findFileByFullPath
    (sanitizePath (default "" (path context)))
    (folderPath (parseFilePath (sanitizePath (default "" (path context)))))
    (fileName (parseFilePath (sanitizePath (default "" (path context)))))
    w = (inr None, w1) ->
  post context w =
  match
    (let* folderId :=
       match folder context with
       | Some f =>
           if truthyId f then ret f
           else findOrCreateFolderPath
                  (folderPath (parseFilePath (sanitizePath (default "" (path context)))))
       | None =>
           findOrCreateFolderPath
             (folderPath (parseFilePath (sanitizePath (default "" (path context)))))
       end in
     fileSave (createOptions context folderId)) w1
  with
  | (inr id, w2) =>
      (Success "File created successfully" id
         (sanitizePath (default "" (path context))) create, w2)
  | (inl e, w2) => (caught e, w2)
  end.
Proof.
  intros Hvalid Hfind. unfold post. rewrite Hvalid, post_try_lookup. cbv zeta.
  unfold bind at 1. rewrite Hfind. unfold bind.
  set (locate := match folder context with Some _ => _ | None => _ end).
  destruct (locate w1) as [[e|folderId] w2]; [reflexivity|].
  now destruct (fileSave (createOptions context folderId) w2) as [[e|id] w3].
Qed.

Lemma fileSave_create o w id w' :
  opt_conflictResolution o = None ->
  fileSave o w = (inr id, w') -> id = freshId w.
Proof.
  intros Ho. unfold fileSave, invoke.
  destruct (hd false (faults w)); [discriminate|].
  rewrite Ho. now intros [= <- _].
Qed.

(** C10. [findFileByFullPath] answers [null] both when no file has the
    name and the folder asked for and when a query of the lookup throws;
    [post] then takes the create branch, so every success it reports is a
    [create] whose file id is none of the ids the files of the cabinet
    had: a lookup that fails on the path of an existing file yields a new
    id, not the id of that file. *)
Theorem lookup_failure_creates_anew :
  (forall filePath folderPath name w folderId w',
      findFolderByPath folderPath w = (inr (Some folderId), w') ->
      truthyId folderId = true ->
      hd false (faults w') = false ->
      (forall f, In f (files w) ->
                 file_name f = name -> file_folder f = folderId -> False) ->
      fst (findFileByFullPath filePath folderPath name w) = inr None)
  /\ (forall filePath folderPath name w,
        threwBetween isQuery w (snd (findFileByFullPath filePath folderPath name w)) ->
        fst (findFileByFullPath filePath folderPath name w) = inr None)
  /\ (forall context w w1,
        validateRequest context = Valid ->
        findFileByFullPath
          (sanitizePath (default "" (path context)))
          (folderPath (parseFilePath (sanitizePath (default "" (path context)))))
          (fileName (parseFilePath (sanitizePath (default "" (path context)))))
          w = (inr None, w1) ->
        forall message id p a,
          fst (post context w) = Success message id p a ->
          a = create /\ ~ In id (map file_id (files w))).
Proof.
  split; [|split].
  - intros filePath folderPath name w folderId w' Hfolder Htruthy Hok Habsent.
    unfold findFileByFullPath, tryCatch, bind. rewrite Hfolder, Htruthy.
    cbn [negb]. unfold runFileQuery. rewrite invoke_answers by exact Hok.
    cbn [evalFileQuery].
    change (files (setFaults (tl (faults w')) w')) with (files w').
    pose proof (findFolderByPath_keepsFiles folderPath w) as Hfiles.
    rewrite Hfolder in Hfiles. cbn [snd] in Hfiles. rewrite Hfiles.
    destruct (List.filter _ (files w)) as [|row rows] eqn:E; [reflexivity|].
    exfalso.
    assert (Hin : In row (List.filter
                     (fun f => String.eqb (file_name f) name
                               && Z.eqb (file_folder f) folderId) (files w)))
      by (rewrite E; now left).
    apply filter_In in Hin as [Hin Hrow].
    apply andb_true_iff in Hrow as [Hn Hf].
    apply String.eqb_eq in Hn. apply Z.eqb_eq in Hf.
    exact (Habsent row Hin Hn Hf).
  - intros filePath folderPath name w Hthrew.
    destruct (findFileByFullPath_journal filePath folderPath name w) as (d & Hj & Hd).
    destruct (threwBetween_delta _ _ _ _ Hj Hthrew) as (c & Hc & _).
    apply Hd. now exists c.
  - intros context w w1 Hvalid Hfind message id p a.
    rewrite (post_create context w w1 Hvalid Hfind).
    pose proof (findFileByFullPath_keepsFiles
                  (sanitizePath (default "" (path context)))
                  (folderPath (parseFilePath (sanitizePath (default "" (path context)))))
                  (fileName (parseFilePath (sanitizePath (default "" (path context)))))
                  w) as Hfiles1.
    rewrite Hfind in Hfiles1. cbn [snd] in Hfiles1.
    unfold bind.
    set (locate := match folder context with Some _ => _ | None => _ end).
    assert (Hlocate : files (snd (locate w1)) = files w1).
    { subst locate. destruct (folder context) as [f|];
        [destruct (truthyId f); [reflexivity|]|];
        apply findOrCreateFolderPath_keepsFiles. }
    destruct (locate w1) as [[e|folderId] w2]; cbn [fst snd] in *; [discriminate|].
    destruct (fileSave (createOptions context folderId) w2) as [[e|saved] w3] eqn:Hsave;
      cbn [fst]; [discriminate|].
    intros [= _ <- _ <-]. split; [reflexivity|].
    rewrite (fileSave_create (createOptions context folderId) w2 saved w3 eq_refl Hsave),
      <- Hfiles1, <- Hlocate.
    apply freshId_new.
Qed.

Lemma lookup_failure_creates_anew_witness :
  fst (findFileByFullPath "/SuiteScripts/app/lib/a.js" "SuiteScripts/app/lib" "a.js"
         Examples.cabinetFailingLookup) = inr None
  /\ fst (post Examples.upload Examples.cabinetFailingLookup)
     = Success "File created successfully" 501 "/SuiteScripts/app/lib/a.js" create
  /\ ~ In 501%Z (map file_id (files Examples.cabinetFailingLookup))
  /\ fst (findFileByFullPath "/SuiteScripts/app/b.js" "SuiteScripts/app" "b.js"
            Examples.cabinet) = inr None.
Proof.
  destruct lookup_failure_creates_anew as (Habsent & Hthrows & Hnew).
  split; [|split; [|split]].
  - apply Hthrows.
    exists (RunSuiteQL SelectFile [PStr "a.js"; PNum 102]),
      [(RunSuiteQL (SelectFolderChain 2) [PStr "lib"; PNum (-15); PStr "app"], false)],
      [].
    split; [reflexivity | exact I].
  - reflexivity.
  - apply (Hnew Examples.upload Examples.cabinetFailingLookup
             (snd (findFileByFullPath "/SuiteScripts/app/lib/a.js"
                     "SuiteScripts/app/lib" "a.js" Examples.cabinetFailingLookup))
             eq_refl eq_refl
             "File created successfully" 501%Z "/SuiteScripts/app/lib/a.js" create
             eq_refl).
  - apply (Habsent "/SuiteScripts/app/b.js" "SuiteScripts/app" "b.js" Examples.cabinet
             101%Z (snd (findFolderByPath "SuiteScripts/app" Examples.cabinet))
             eq_refl eq_refl eq_refl).
    intros f [<-|[]] Hname Hfolder. discriminate Hname.
Defined.

(** *** The journal of [findOrCreateFolderPath] *)

(** A computation is strict when a step of folder creation that throws
    makes the whole computation throw. *)
Local Abbreviation strict m :=
  (forall w, exists delta,
      journal (snd (m w)) = (journal w ++ delta)%list
      /\ ((exists c, In (c, true) delta /\ isCreationStep c) ->
          exists e, fst (m w) = inl e)).












End RestletFacts.

(** ** The extension *)

Module ExtensionFacts.

Import Js Eff Extension.

(** *** Loading the environment files *)

Lemma setEffects_twice l1 l2 w : setEffects l2 (setEffects l1 w) = setEffects l2 w.
Proof. reflexivity. Qed.

Lemma loadEnvFile_effects wsPath env name w :
  exists env' l,
    loadEnvFile wsPath env name w = (inr env', setEffects (effects w ++ l) w)
    /\ requestsOf l = [].
Proof.
  unfold loadEnvFile, existsSync, tryCatch, readFileSync, log, effect,
    modify, gets, ret, throw, bind.
  cbn [fst snd fileSystem effects setEffects].
  destruct (fileSystem w !! path_join wsPath name) as [[content|]|] eqn:E;
    cbn [fst snd fileSystem effects setEffects]; rewrite ?E;
    cbn [fst snd fileSystem effects setEffects].
  - eexists _, [_; _; _]. split; [rewrite <- !app_assoc|]; reflexivity.
  - eexists _, [_; _; _]. split; [rewrite <- !app_assoc|]; reflexivity.
  - eexists _, [_]. split; reflexivity.
Qed.

Lemma requestsOf_app l1 l2 : requestsOf (l1 ++ l2) = (requestsOf l1 ++ requestsOf l2)%list.
Proof. apply flat_map_app. Qed.

Lemma loadEnvFiles_effects wsPath names :
  forall env w,
    exists env' l,
      loadEnvFiles wsPath env names w = (inr env', setEffects (effects w ++ l) w)
      /\ requestsOf l = [].
Proof.
  induction names as [|name rest IH]; intros env w.
  - exists env, []. split; [|reflexivity].
    cbn. rewrite app_nil_r. now destruct w.
  - cbn [loadEnvFiles]. unfold bind.
    destruct (loadEnvFile_effects wsPath env name w) as (env1 & l1 & -> & H1).
    destruct (IH env1 (setEffects (effects w ++ l1) w)) as (env2 & l2 & -> & H2).
    exists env2, (l1 ++ l2)%list. split.
    + cbn [effects setEffects]. now rewrite setEffects_twice, app_assoc.
    + now rewrite requestsOf_app, H1, H2.
Qed.

(** Loading returns, and what it changes is the cache and the effects,
    to which it adds no request. *)
Lemma loadEnvConfig_spec workspaceFolder w :
  exists envConfig cache l,
    loadEnvConfig workspaceFolder w
    = (inr envConfig, setEnvConfigCache cache (setEffects (effects w ++ l) w))
    /\ requestsOf l = []
    /\ match workspaceFolder with
       | Some ws => cache !! fsPath ws = Some envConfig
       | None => envConfig = ∅
       end
    /\ (loaded workspaceFolder w -> warm workspaceFolder w = w).
Proof.
  unfold warm, loadEnvConfig. destruct workspaceFolder as [ws|].
  - unfold bind, gets. cbn [loaded].
    destruct (envConfigCache w !! fsPath ws) as [envConfig|] eqn:Hcache.
    + exists envConfig, (envConfigCache w), []. repeat split; auto.
      cbn. rewrite app_nil_r. now destruct w.
    + destruct (loadEnvFiles_effects (fsPath ws) envFiles ∅ w)
        as (envConfig & l & -> & Hl).
      eexists envConfig, _, l. unfold modify, ret. cbn [fst snd].
      repeat split; [exact Hl | apply lookup_insert_eq |].
      intros [x Hx]. discriminate.
  - exists ∅, (envConfigCache w), []. repeat split; auto.
    cbn. rewrite app_nil_r. now destruct w.
Qed.

(** *** [getCredential] *)

Lemma getCredential_value key workspaceFolder w :
  getCredential key workspaceFolder w
  = (inr (credentialIn key workspaceFolder w), warm workspaceFolder w).
Proof.
  unfold credentialIn, warm, getCredential, bind, gets, ret.
  destruct (loadEnvConfig_spec workspaceFolder w) as (env & cache & l & -> & _).
  reflexivity.
Qed.

Lemma bind_getCredential {A} key workspaceFolder (k : option string -> M A) w :
  bind (getCredential key workspaceFolder) k w
  = k (credentialIn key workspaceFolder w) (warm workspaceFolder w).
Proof. unfold bind. now rewrite getCredential_value. Qed.

Lemma warm_loaded workspaceFolder w : loaded workspaceFolder (warm workspaceFolder w).
Proof.
  unfold warm.
  destruct (loadEnvConfig_spec workspaceFolder w) as (env & cache & l & -> & _ & H & _).
  destruct workspaceFolder as [ws|]; [|exact I].
  cbn. now rewrite H.
Qed.

Lemma warm_of_loaded workspaceFolder w :
  loaded workspaceFolder w -> warm workspaceFolder w = w.
Proof.
  destruct (loadEnvConfig_spec workspaceFolder w) as (_ & _ & _ & _ & _ & _ & H).
  exact H.
Qed.

Lemma warm_twice workspaceFolder w :
  warm workspaceFolder (warm workspaceFolder w) = warm workspaceFolder w.
Proof. apply warm_of_loaded, warm_loaded. Qed.

(** What loading leaves as it was. *)
Lemma warm_frame workspaceFolder w :
  settings (warm workspaceFolder w) = settings w
  /\ numberSettings (warm workspaceFolder w) = numberSettings w
  /\ fileSystem (warm workspaceFolder w) = fileSystem w
  /\ nonces (warm workspaceFolder w) = nonces w
  /\ clock (warm workspaceFolder w) = clock w
  /\ parseUrl (warm workspaceFolder w) = parseUrl w
  /\ signature (warm workspaceFolder w) = signature w
  /\ remote (warm workspaceFolder w) = remote w
  /\ requestsSent (warm workspaceFolder w) = requestsSent w.
Proof.
  unfold warm.
  destruct (loadEnvConfig_spec workspaceFolder w) as (env & cache & l & -> & Hl & _).
  cbn [snd]. repeat split.
  unfold requestsSent. cbn [effects setEnvConfigCache setEffects].
  now rewrite requestsOf_app, Hl, app_nil_r.
Qed.

Lemma warm_signingFault workspaceFolder w :
  signingFault (warm workspaceFolder w) = signingFault w.
Proof.
  unfold warm.
  now destruct (loadEnvConfig_spec workspaceFolder w) as (env & cache & l & -> & _).
Qed.

Lemma credentialIn_warm key workspaceFolder w :
  credentialIn key workspaceFolder (warm workspaceFolder w)
  = credentialIn key workspaceFolder w.
Proof.
  unfold credentialIn, getCredential, bind, gets, ret, warm.
  destruct (loadEnvConfig_spec workspaceFolder w)
    as (env & cache & l & E & _ & Hcache & _).
  rewrite E. cbn [fst snd].
  unfold loadEnvConfig. destruct workspaceFolder as [ws|]; [|now subst env].
  unfold bind, gets. cbn [envConfigCache setEnvConfigCache].
  now rewrite Hcache.
Qed.

(** *** The resolver computes the path of the spec *)

Lemma indexOf_unfold s needle :
  indexOf s needle =
  if startsWith s needle then Some O
  else match s with
       | EmptyString => None
       | String _ s' => option_map S (indexOf s' needle)
       end.
Proof. now destruct s. Qed.

Lemma indexOf_None_startsWith s needle :
  indexOf s needle = None -> startsWith s needle = false.
Proof.
  rewrite indexOf_unfold. now destruct (startsWith s needle).
Qed.

Lemma calculateNetSuitePath_value relativePath ws w :
  calculateNetSuitePath relativePath ws w
  = (inr (logicalRemotePath (uploadFolderIn ws w) (rootPathIn ws w) relativePath),
     warm (Some ws) w).
Proof.
  unfold calculateNetSuitePath, logicalRemotePath.
  rewrite bind_getCredential. fold (uploadFolderIn ws w).
  set (p1 := if startsWith _ (uploadFolderIn ws w ++ "/") then _ else _).
  set (p2 := if startsWith p1 "FileCabinet/" then _ else _).
  destruct (indexOf (toLowerCase p2) "suitescripts/") as [i|] eqn:E; [reflexivity|].
  rewrite (indexOf_None_startsWith _ _ E), bind_getCredential.
  now rewrite credentialIn_warm, warm_twice.
Qed.

Lemma resolveUploadFile_value savedFilePath ws w :
  resolveUploadFile savedFilePath ws w
  = (inr (resolve savedFilePath (fsPath ws) (watchFolderIn ws w)
            (uploadFolderIn ws w) (rootPathIn ws w)),
     warm (Some ws) w).
Proof.
  unfold resolveUploadFile, resolve.
  rewrite !bind_getCredential, credentialIn_warm, warm_twice.
  fold (uploadFolderIn ws w) (watchFolderIn ws w).
  assert (Hu : uploadFolderIn ws (warm (Some ws) w) = uploadFolderIn ws w)
    by (unfold uploadFolderIn; now rewrite credentialIn_warm).
  assert (Hr : rootPathIn ws (warm (Some ws) w) = rootPathIn ws w)
    by (unfold rootPathIn; now rewrite credentialIn_warm).
  destruct (String.eqb (uploadFolderIn ws w) (watchFolderIn ws w)); cbn [orb].
  - unfold bind. rewrite calculateNetSuitePath_value, Hu, Hr, warm_twice. reflexivity.
  - destruct (startsWith _ (watchFolderIn ws w ++ "/")); cbn [negb];
      unfold bind; rewrite calculateNetSuitePath_value, Hu, Hr, warm_twice;
      reflexivity.
Qed.

(** *** The File Cabinet path is canonical *)





(** *** The path of the file to upload *)

Lemma split_nonempty sep s : exists h t, split sep s = h :: t.
Proof.
  destruct s as [|c s]; cbn [split]; [now eexists _, _|].
  destruct (Ascii.eqb c sep); [now eexists _, _|].
  destruct (split sep s); now eexists _, _.
Qed.

Lemma split_app sep a b :
  split sep (a ++ String sep b) = (split sep a ++ split sep b)%list.
Proof.
  induction a as [|c a IH].
  - change ("" ++ String sep b) with (String sep b).
    cbn [split app]. now rewrite Ascii.eqb_refl.
  - change (String c a ++ String sep b) with (String c (a ++ String sep b)).
    cbn [split]. rewrite IH.
    destruct (Ascii.eqb c sep); [reflexivity|].
    now destruct (split_nonempty sep a) as (h & t & ->).
Qed.

Lemma join_app sep (l : list string) x l' :
  join sep (l ++ x :: l')
  = (match l with [] => "" | _ :: _ => join sep l ++ sep end) ++ join sep (x :: l').
Proof.
  induction l as [|y l IH]; [reflexivity|].
  destruct l as [|z l].
  - cbn [app join]. now rewrite !JsFacts.append_assoc.
  - change ((y :: z :: l) ++ x :: l')%list with (y :: ((z :: l) ++ x :: l'))%list.
    change (join sep (y :: ((z :: l) ++ x :: l'))%list)
      with (y ++ sep ++ join sep ((z :: l) ++ x :: l')%list).
    rewrite IH.
    change (join sep (y :: z :: l)) with (y ++ sep ++ join sep (z :: l)).
    now rewrite !JsFacts.append_assoc.
Qed.

Lemma substringFrom_app x n y :
  substringFrom (String.length x + n) (x ++ y) = substringFrom n y.
Proof. induction x as [|c x IH]; [reflexivity|]. exact IH. Qed.

Lemma length_append x y :
  String.length (x ++ y) = (String.length x + String.length y)%nat.
Proof.
  induction x as [|c x IH]; [reflexivity|].
  change (S (String.length (x ++ y)) = S (String.length x + String.length y)).
  now rewrite IH.
Qed.

Lemma endsWith_app x y z :
  (String.length z <= String.length y)%nat ->
  endsWith (x ++ y) z = endsWith y z.
Proof.
  intros H. unfold endsWith. rewrite length_append.
  replace (String.length x + String.length y - String.length z)%nat
    with (String.length x + (String.length y - String.length z))%nat by lia.
  rewrite substringFrom_app.
  replace (String.length z <=? String.length x + String.length y)%nat with true
    by (symmetry; apply Nat.leb_le; lia).
  replace (String.length z <=? String.length y)%nat with true
    by (symmetry; apply Nat.leb_le; lia).
  reflexivity.
Qed.

Lemma isEmpty_append_cons x c y : isEmpty (x ++ String c y) = false.
Proof. now destruct x. Qed.

(** Joining a workspace path and the five plain segments of the build
    output keeps those segments at the end. *)
Lemma path_join_build_output (wsPath : string) :
  endsWith (path_join wsPath "dist/FileCabinet/SuiteScripts/a/b.js")
           "dist/FileCabinet/SuiteScripts/a/b.js" = true.
Proof.
  destruct wsPath as [|c a]; [reflexivity|].
  unfold path_join. cbn [List.filter truthy isEmpty negb join].
  set (target := "dist/FileCabinet/SuiteScripts/a/b.js").
  set (joined := String c a ++ "/" ++ target).
  assert (Hne : isEmpty joined = false) by reflexivity.
  rewrite Hne. unfold path_normalize. rewrite Hne.
  assert (Htrail : endsWith joined "/" = false).
  { subst joined target. rewrite endsWith_app; [reflexivity | vm_compute; lia]. }
  rewrite Htrail.
  assert (Hbody : exists pre,
            join "/" (normalizeSegments (negb (startsWith joined "/")) joined)
            = pre ++ target).
  { unfold normalizeSegments. subst joined.
    change ("/" ++ target) with (String "/"%char target).
    rewrite split_app, fold_left_app.
    set (stack := fold_left _ (split "/" (String c a)) []).
    change (fold_left (pushSegment (negb (startsWith (String c a ++ String "/"%char target) "/")))
              (split "/" target) stack)
      with ("b.js" :: "a" :: "SuiteScripts" :: "FileCabinet" :: "dist" :: stack).
    cbn [rev]. rewrite <- !app_assoc. cbn [app].
    rewrite join_app. eexists. reflexivity. }
  destruct Hbody as (pre & ->).
  unfold target at 1. rewrite isEmpty_append_cons.
  rewrite JsFacts.append_nil_r, <- JsFacts.append_assoc.
  subst target. rewrite endsWith_app; [reflexivity | vm_compute; lia].
Qed.

(** C4. Path remap correctness: a saved file whose path relative to the
    workspace is [src/FileCabinet/SuiteScripts/a/b.js], with watch folder
    [src] and upload folder [dist], resolves to a file to upload whose
    path ends in [dist/FileCabinet/SuiteScripts/a/b.js], is marked as
    mapped, and has the File Cabinet path [/SuiteScripts/a/b.js], whatever
    the root path. *)
Theorem resolveUploadFile_remaps_to_build_output
    (ws : WorkspaceFolder) (savedFilePath : string) (w : World) :
  path_relative (fsPath ws) savedFilePath = "src/FileCabinet/SuiteScripts/a/b.js" ->
  watchFolderIn ws w = "src" ->
  uploadFolderIn ws w = "dist" ->
  exists info,
    fst (resolveUploadFile savedFilePath ws w) = inr info
    /\ endsWith (uploadPath info) "dist/FileCabinet/SuiteScripts/a/b.js" = true
    /\ isMapped info = true
    /\ netSuitePath info = "/SuiteScripts/a/b.js".
Proof.
  intros Hrel Hwatch Hupload.
  rewrite resolveUploadFile_value. cbn [fst]. eexists. split; [reflexivity|].
  unfold resolve. rewrite Hrel, Hwatch, Hupload.
  cbn [String.eqb orb]. repeat split.
  apply path_join_build_output.
Qed.

Lemma resolveUploadFile_remaps_to_build_output_witness :
  exists info,
    fst (resolveUploadFile Examples.savedSource Examples.workspace Examples.bare)
    = inr info
    /\ uploadPath info = "/home/dev/project/dist/FileCabinet/SuiteScripts/a/b.js"
    /\ isMapped info = true
    /\ netSuitePath info = "/SuiteScripts/a/b.js".
Proof.
  destruct (resolveUploadFile_remaps_to_build_output Examples.workspace
              Examples.savedSource Examples.bare eq_refl eq_refl eq_refl)
    as (info & Hinfo & _ & Hmapped & Hpath).
  exists info. repeat split; try assumption.
  vm_compute in Hinfo. now injection Hinfo as <-.
Defined.

(** *** The credential gate of [makeAuthenticatedRequest] *)

Lemma settle_requests timeout outcome w :
  requestsSent (snd (settle timeout outcome w)) = requestsSent w.
Proof.
  unfold requestsSent.
  destruct outcome as [statusCode [|response|raw]|text|];
    unfold settle, log, effect, modify, throw, ret, bind; cbn [fst snd];
    try destruct (is2xx statusCode); cbn [snd effects setEffects];
    rewrite ?requestsOf_app, ?app_nil_r; reflexivity.
Qed.

Lemma gate_secretsPresent workspaceFolder w :
  negb (present (credentialIn "oauth.consumerKey" workspaceFolder w))
  || negb (present (credentialIn "oauth.consumerSecret" workspaceFolder w))
  || negb (present (credentialIn "oauth.tokenId" workspaceFolder w))
  || negb (present (credentialIn "oauth.tokenSecret" workspaceFolder w))
  || negb (present (credentialIn "accountId" workspaceFolder w))
  = negb (secretsPresent workspaceFolder w).
Proof.
  unfold secretsPresent, secretKeys. cbn [forallb].
  destruct (present (credentialIn "oauth.consumerKey" workspaceFolder w)),
    (present (credentialIn "oauth.consumerSecret" workspaceFolder w)),
    (present (credentialIn "oauth.tokenId" workspaceFolder w)),
    (present (credentialIn "oauth.tokenSecret" workspaceFolder w)),
    (present (credentialIn "accountId" workspaceFolder w)); reflexivity.
Qed.

(** The world after the OAuth library drew its nonce. *)
Lemma nextNonce_value w :
  nextNonce w = (inr (hd "" (nonces w)), setNonces (tl (nonces w)) w).
Proof.
  unfold nextNonce. destruct (nonces w) as [|n rest] eqn:E; [|reflexivity].
  cbn [hd tl]. rewrite <- E. now destruct w.
Qed.

Lemma makeAuthenticatedRequest_value url method payload workspaceFolder w :
  makeAuthenticatedRequest url method payload workspaceFolder w =
  let w1 := warm workspaceFolder w in
  let w2 := setNonces (tl (nonces w)) w1 in
  if secretsPresent workspaceFolder w then
    match signingFault w (signingInput url method workspaceFolder w) with
    | Some e => (inl e, w2)
    | None =>
        match parseUrl w url with
        | None => (inl invalidUrl, w2)
        | Some urlParsed =>
            let request := requestOf url method payload workspaceFolder w urlParsed in
            settle (req_timeout request) (remote w request)
              (setEffects (effects w2 ++ [OutputLine "Making request"; HttpSend request])
                 w2)
        end
    end
  else (inl missingCredentials, w1).
Proof.
  destruct (warm_frame workspaceFolder w)
    as (_ & Hnum & _ & Hnonces & Hclock & Hparse & Hsig & Hremote & _).
  pose proof (warm_signingFault workspaceFolder w) as Hfault.
  unfold makeAuthenticatedRequest.
  unfold bind at 1. unfold gets at 1. cbv beta iota.
  repeat (rewrite bind_getCredential; cbv beta).
  rewrite !credentialIn_warm, !warm_twice, gate_secretsPresent.
  destruct (secretsPresent workspaceFolder w); cbn [negb]; [|reflexivity].
  unfold oauthAuthorization.
  unfold bind at 1. unfold bind at 1. rewrite nextNonce_value.
  unfold bind at 1. unfold gets at 1. cbv beta iota zeta.
  unfold bind at 1. unfold gets at 1. cbv beta iota.
  cbn [clock signingFault nonces setNonces]. rewrite Hnonces, Hclock, Hfault.
  unfold signingInput.
  match goal with
  | |- context [signingFault w ?input] => destruct (signingFault w input) as [e|]
  end; [reflexivity|].
  unfold bind, gets, throw, log, effect, modify, ret. cbn [fst snd].
  cbn [parseUrl remote clock signature nonces effects setNonces setEffects].
  rewrite Hparse, Hsig.
  destruct (parseUrl w url) as [urlParsed|]; [|reflexivity].
  cbn [remote effects setNonces setEffects]. rewrite Hremote.
  unfold requestOf. cbn [req_timeout]. rewrite <- !app_assoc. reflexivity.
Qed.

Lemma secretsPresent_false workspaceFolder w :
  (exists key, In key secretKeys
               /\ present (credentialIn key workspaceFolder w) = false) ->
  secretsPresent workspaceFolder w = false.
Proof.
  intros (key & Hin & Hkey). unfold secretsPresent.
  destruct (forallb _ secretKeys) eqn:E; [|reflexivity].
  rewrite forallb_forall in E. specialize (E key Hin). congruence.
Qed.

Lemma secretsPresent_true workspaceFolder w :
  (forall key, In key secretKeys ->
               present (credentialIn key workspaceFolder w) = true) ->
  secretsPresent workspaceFolder w = true.
Proof. intros H. unfold secretsPresent. now apply forallb_forall. Qed.

Lemma requestsSent_setNonces l w : requestsSent (setNonces l w) = requestsSent w.
Proof. reflexivity. Qed.

(** C7. Missing-credential failure before I/O: when one of the five
    secrets (consumer key, consumer secret, token id, token secret,
    account id) is absent or empty, [makeAuthenticatedRequest] throws its
    configuration error and has handed no request to the network.  With
    all five there the request goes on only if the OAuth library signs
    the request data and the URL can be parsed: then exactly one request,
    the signed one, is handed to the network; when the library throws,
    its error is the outcome and no request is handed over, and the same
    holds of a URL that cannot be parsed. *)
Theorem missing_credentials_fail_before_network
    (url method : string) (payload : option Payload)
    (workspaceFolder : option WorkspaceFolder) (w : World) :
  let outcome := makeAuthenticatedRequest url method payload workspaceFolder w in
  ((exists key, In key secretKeys
                /\ present (credentialIn key workspaceFolder w) = false) ->
     fst outcome = inl missingCredentials
     /\ requestsSent (snd outcome) = requestsSent w)
  /\ ((forall key, In key secretKeys ->
                   present (credentialIn key workspaceFolder w) = true) ->
      (forall e,
          signingFault w (signingInput url method workspaceFolder w) = Some e ->
          fst outcome = inl e
          /\ requestsSent (snd outcome) = requestsSent w)
      /\ (signs url method workspaceFolder w ->
          (forall urlParsed,
              parseUrl w url = Some urlParsed ->
              requestsSent (snd outcome)
              = (requestsSent w
                 ++ [requestOf url method payload workspaceFolder w urlParsed])%list)
          /\ (parseUrl w url = None ->
              fst outcome = inl invalidUrl
              /\ requestsSent (snd outcome) = requestsSent w))).
Proof.
  destruct (warm_frame workspaceFolder w) as (_ & _ & _ & _ & _ & _ & _ & _ & Hsent).
  cbv zeta. rewrite makeAuthenticatedRequest_value. cbv zeta. split.
  - intros Hmissing. rewrite (secretsPresent_false _ _ Hmissing).
    split; [reflexivity | exact Hsent].
  - intros Hall. rewrite (secretsPresent_true _ _ Hall). split.
    + intros e ->. split; [reflexivity | exact Hsent].
    + unfold signs. intros ->. split.
      * intros urlParsed ->. rewrite settle_requests.
        unfold requestsSent. cbn [effects setEffects setNonces].
        rewrite requestsOf_app. fold (requestsSent (warm workspaceFolder w)).
        now rewrite Hsent.
      * intros ->. split; [reflexivity | exact Hsent].
Qed.

Lemma missing_credentials_fail_before_network_witness :
  (fst (makeAuthenticatedRequest Examples.restletUrl "POST" None
          (Some Examples.workspace) Examples.bare) = inl missingCredentials
   /\ requestsSent (snd (makeAuthenticatedRequest Examples.restletUrl "POST" None
                           (Some Examples.workspace) Examples.bare)) = [])
  /\ length (requestsSent (snd (makeAuthenticatedRequest Examples.restletUrl "POST"
                                  None (Some Examples.workspace) Examples.configured)))
     = 1%nat.
Proof.
  split.
  - apply (proj1 (missing_credentials_fail_before_network Examples.restletUrl "POST"
                    None (Some Examples.workspace) Examples.bare)).
    exists "accountId". split; [|reflexivity].
    unfold secretKeys. auto 10 using in_eq, in_cons.
  - destruct (missing_credentials_fail_before_network Examples.restletUrl "POST" None
                (Some Examples.workspace) Examples.configured) as (_ & Hpresent).
    destruct Hpresent as (_ & Hsigned).
    + intros key Hkey. unfold secretKeys in Hkey.
      repeat (destruct Hkey as [<-|Hkey]; [reflexivity|]). destruct Hkey.
    + destruct Hsigned as (Hsent & _); [reflexivity|].
      rewrite (Hsent Examples.restletUrlParsed eq_refl). reflexivity.
Defined.

(** C7 as stated fails in its second half: with all five secrets there
    and a RESTlet URL whose query holds a malformed percent escape, the
    OAuth library throws while it builds the base string; the outcome is
    its [URIError], no configuration error, and no request is handed to
    the network. *)
Lemma present_secrets_do_not_make_the_request_proceed :
  (forall key, In key secretKeys ->
               present (credentialIn key (Some Examples.workspace)
                          Examples.strictSigner) = true)
  /\ parseUrl Examples.strictSigner Examples.malformedUrl
     = Some Examples.malformedUrlParsed
  /\ fst (makeAuthenticatedRequest Examples.malformedUrl "POST" None
            (Some Examples.workspace) Examples.strictSigner)
     = inl Examples.uriError
  /\ requestsSent (snd (makeAuthenticatedRequest Examples.malformedUrl "POST" None
                          (Some Examples.workspace) Examples.strictSigner)) = [].
Proof.
  split; [|split; [|split]; reflexivity].
  intros key Hkey. unfold secretKeys in Hkey.
  repeat (destruct Hkey as [<-|Hkey]; [reflexivity|]). destruct Hkey.
Qed.

(** *** The realm in the Authorization header *)

Lemma indexOf_dollar_cons c s :
  indexOf (String c s) "$" = None ->
  Ascii.eqb c "$"%char = false /\ indexOf s "$" = None.
Proof.
  rewrite indexOf_unfold. cbn [startsWith]. rewrite andb_true_r, Ascii.eqb_sym.
  destruct (Ascii.eqb c "$"%char); [discriminate|].
  destruct (indexOf s "$"); [discriminate|]. now split.
Qed.

Lemma indexOf_dollar_app a b :
  indexOf a "$" = None -> indexOf b "$" = None -> indexOf (a ++ b) "$" = None.
Proof.
  intros Ha Hb. induction a as [|c a IH]; [exact Hb|].
  apply indexOf_dollar_cons in Ha as [Hc Ha].
  change (String c a ++ b) with (String c (a ++ b)).
  rewrite indexOf_unfold. cbn [startsWith].
  rewrite andb_true_r, Ascii.eqb_sym, Hc, (IH Ha). reflexivity.
Qed.

(** A replacement text without a dollar sign is taken as it is. *)
Lemma expandReplacement_plain repl matched before after :
  indexOf repl "$" = None ->
  expandReplacement repl matched before after = repl.
Proof.
  induction repl as [|c r IH]; [reflexivity|].
  intros H. apply indexOf_dollar_cons in H as [Hc Hr].
  cbn [expandReplacement]. rewrite Hc. now rewrite (IH Hr).
Qed.

Lemma authorizationHeader_toHeader accountId data :
  authorizationHeader accountId (toHeader data)
  = expandReplacement ("OAuth realm=" ++ dquote ++ accountId ++ dquote ++ ",")
      "OAuth " "" (join ", " (map headerParameter data))
    ++ join ", " (map headerParameter data).
Proof. reflexivity. Qed.

(** For an account id without a dollar sign the header has the form
    [OAuth realm="<accountId>",] followed by the oauth parameters, and the
    request carries no header for the realm. *)
Lemma authorization_embeds_realm url method payload workspaceFolder w urlParsed :
  let request := requestOf url method payload workspaceFolder w urlParsed in
  let accountId := default "" (credentialIn "accountId" workspaceFolder w) in
  indexOf accountId "$" = None ->
  (exists input sig,
      header "Authorization" request
      = Some ("OAuth realm=" ++ dquote ++ accountId ++ dquote ++ ","
              ++ join ", " (map headerParameter (oauthData input sig)))
      /\ map fst (oauthData input sig)
         = [ "oauth_consumer_key"; "oauth_nonce"; "oauth_signature";
             "oauth_signature_method"; "oauth_timestamp"; "oauth_token";
             "oauth_version" ]
      /\ In ("oauth_signature_method", "HMAC-SHA256") (oauthData input sig))
  /\ map fst (req_headers request) = ["Authorization"; "Content-Type"; "Accept"].
Proof.
  intros request accountId Hplain. split; [|reflexivity].
  eexists _, _. split; [|split; [reflexivity|]].
  - unfold header, request, requestOf. cbn [req_headers List.find fst snd String.eqb
      Ascii.eqb Bool.eqb option_map].
    rewrite authorizationHeader_toHeader.
    fold accountId.
    rewrite expandReplacement_plain.
    + now rewrite !JsFacts.append_assoc.
    + apply indexOf_dollar_app; [reflexivity|].
      apply indexOf_dollar_app; [reflexivity|].
      apply indexOf_dollar_app; [exact Hplain | reflexivity].
  - cbn. auto.
Qed.

(** C8, at an account id that holds the replacement pattern [$&]: the
    realm of the header sent is not the account id; the pattern is
    replaced by the matched text, [OAuth ]. *)
Theorem account_id_with_dollar_breaks_realm :
  credentialIn "accountId" (Some Examples.workspace) Examples.configuredWithDollar
  = Some "12$&34"
  /\ exists request,
       requestsSent (snd (makeAuthenticatedRequest Examples.restletUrl "POST" None
                            (Some Examples.workspace) Examples.configuredWithDollar))
       = [request]
       /\ header "Authorization" request
          = Some ("OAuth realm=" ++ dquote ++ "12OAuth 34" ++ dquote
                  ++ ",oauth_consumer_key=" ++ dquote ++ "ck" ++ dquote
                  ++ ", oauth_nonce=" ++ dquote ++ "n0nce" ++ dquote
                  ++ ", oauth_signature=" ++ dquote ++ "c2lnbmF0dXJl" ++ dquote
                  ++ ", oauth_signature_method=" ++ dquote ++ "HMAC-SHA256" ++ dquote
                  ++ ", oauth_timestamp=" ++ dquote ++ "1700000000" ++ dquote
                  ++ ", oauth_token=" ++ dquote ++ "tk" ++ dquote
                  ++ ", oauth_version=" ++ dquote ++ "1.0" ++ dquote).
Proof.
  split; [reflexivity|]. eexists. split; vm_compute; reflexivity.
Qed.

(** *** What [uploadFile] sends *)

Lemma loadEnvConfig_setEffects workspaceFolder l w :
  loaded workspaceFolder w ->
  loadEnvConfig workspaceFolder (setEffects l w)
  = (fst (loadEnvConfig workspaceFolder w), setEffects l w).
Proof.
  unfold loaded, loadEnvConfig. destruct workspaceFolder as [ws|]; [|reflexivity].
  intros [envConfig H]. unfold bind, gets. cbn [envConfigCache setEffects].
  now rewrite H.
Qed.

Lemma credentialIn_setEffects key workspaceFolder l w :
  loaded workspaceFolder w ->
  credentialIn key workspaceFolder (setEffects l w) = credentialIn key workspaceFolder w.
Proof.
  intros H. unfold credentialIn, getCredential, bind, gets, ret.
  rewrite (loadEnvConfig_setEffects _ _ _ H).
  pose proof (warm_of_loaded _ _ H) as Hw. unfold warm in Hw.
  destruct (loadEnvConfig workspaceFolder w) as [[e|envConfig] w'];
    cbn [fst snd] in *; subst w'; reflexivity.
Qed.

Lemma secretsPresent_setEffects workspaceFolder l w :
  loaded workspaceFolder w ->
  secretsPresent workspaceFolder (setEffects l w) = secretsPresent workspaceFolder w.
Proof.
  intros H. unfold secretsPresent, secretKeys. cbn [forallb].
  now rewrite !(credentialIn_setEffects _ _ _ _ H).
Qed.

Lemma requestOf_setEffects url method payload workspaceFolder l w urlParsed :
  loaded workspaceFolder w ->
  requestOf url method payload workspaceFolder (setEffects l w) urlParsed
  = requestOf url method payload workspaceFolder w urlParsed.
Proof.
  intros H. unfold requestOf.
  cbn [nonces clock signature numberSettings setEffects].
  now rewrite !(credentialIn_setEffects _ _ _ _ H).
Qed.

Lemma signs_setEffects url method workspaceFolder l w :
  loaded workspaceFolder w ->
  signingFault (setEffects l w) (signingInput url method workspaceFolder (setEffects l w))
  = signingFault w (signingInput url method workspaceFolder w).
Proof.
  intros H. unfold signingInput.
  cbn [nonces clock signingFault setEffects].
  now rewrite !(credentialIn_setEffects _ _ _ _ H).
Qed.

(** The payload [uploadFile] builds from the content it read. *)
Lemma uploadFile_try_sends url ws info name w fileContent urlParsed :
  loaded (Some ws) w ->
  fileSystem w !! uploadPath info = Some (RegularFile fileContent) ->
  secretsPresent (Some ws) w = true ->
  signs url "POST" (Some ws) w ->
  parseUrl w url = Some urlParsed ->
  requestsSent (snd (uploadFile_try url ws info name w))
  = (requestsSent w
     ++ [requestOf url "POST"
           (Some {| payload_path := netSuitePath info;
                    payload_content := fileContent;
                    payload_encoding := "utf8";
                    payload_description :=
                      "Uploaded via Auto-Upload from " ++ relativePath info |})
           (Some ws) w urlParsed])%list.
Proof.
  intros Hloaded Hfile Hsecrets Hsigns Hurl.
  unfold uploadFile_try. unfold bind at 1.
  unfold readFileSync, bind, effect, modify, gets, ret. cbn [fst snd].
  cbn [fileSystem setEffects]. rewrite Hfile.
  rewrite makeAuthenticatedRequest_value. cbv zeta.
  rewrite (secretsPresent_setEffects _ _ _ Hloaded), Hsecrets.
  rewrite (signs_setEffects _ _ _ _ _ Hloaded), Hsigns.
  cbn [parseUrl remote nonces setEffects]. rewrite Hurl.
  rewrite !(requestOf_setEffects _ _ _ _ _ _ _ Hloaded).
  set (request := requestOf url "POST" _ (Some ws) w urlParsed).
  rewrite (warm_of_loaded (Some ws)
             (setEffects (effects w ++ [FsRead (uploadPath info)]) w) Hloaded).
  set (sent := setEffects _ (setNonces _ _)).
  assert (Hsent : requestsSent sent = (requestsSent w ++ [request])%list).
  { unfold sent, requestsSent. cbn [effects setEffects setNonces].
    rewrite !requestsOf_app. cbn [requestsOf flat_map app].
    now rewrite app_nil_r. }
  pose proof (settle_requests (req_timeout request) (remote w request) sent) as Hsettle.
  destruct (settle (req_timeout request) (remote w request) sent)
    as [[e|response] w3]; cbn [snd] in Hsettle; cbv beta iota;
    [cbn [snd]; now rewrite Hsettle|].
  unfold log, effect, modify, throw, ret.
  destruct (success response); cbv beta iota; cbn [fst snd].
  - cbn [showNotifications setEffects setUploadHistory effects].
    destruct (showNotifications w3); cbv beta iota; cbn [fst snd];
      unfold requestsSent in *; cbn [effects setEffects setUploadHistory];
      rewrite !requestsOf_app; cbn [requestsOf flat_map app];
      rewrite ?app_nil_r; now rewrite Hsettle.
  - now rewrite Hsettle.
Qed.

Lemma frame_of_loaded_effects workspaceFolder l w :
  secretsPresent workspaceFolder (setEffects l (warm workspaceFolder w))
  = secretsPresent workspaceFolder w.
Proof.
  rewrite (secretsPresent_setEffects _ _ _ (warm_loaded workspaceFolder w)).
  unfold secretsPresent, secretKeys. cbn [forallb].
  now rewrite !credentialIn_warm.
Qed.

Lemma signs_of_loaded_effects url method workspaceFolder l w :
  signs url method workspaceFolder w ->
  signs url method workspaceFolder (setEffects l (warm workspaceFolder w)).
Proof.
  unfold signs. intros Hsigns.
  rewrite (signs_setEffects _ _ _ _ _ (warm_loaded workspaceFolder w)).
  destruct (warm_frame workspaceFolder w) as (_ & _ & _ & Hnonces & Hclock & _).
  rewrite warm_signingFault. unfold signingInput.
  now rewrite !credentialIn_warm, Hnonces, Hclock.
Qed.

(** The [try] block of [uploadFile] with its [catch] block. *)
Lemma uploadFile_guarded_sends url ws info name (h : Exn -> M unit) w
    fileContent urlParsed :
  (forall e w', requestsSent (snd (h e w')) = requestsSent w') ->
  loaded (Some ws) w ->
  fileSystem w !! uploadPath info = Some (RegularFile fileContent) ->
  secretsPresent (Some ws) w = true ->
  signs url "POST" (Some ws) w ->
  parseUrl w url = Some urlParsed ->
  exists request p,
    requestsSent (snd (tryCatch (uploadFile_try url ws info name) h w))
    = (requestsSent w ++ [request])%list
    /\ req_body request = Some p
    /\ payload_content p = fileContent
    /\ payload_path p = netSuitePath info.
Proof.
  intros Hh Hloaded Hfile Hsecrets Hsigns Hparse.
  pose proof (uploadFile_try_sends url ws info name w fileContent urlParsed
                Hloaded Hfile Hsecrets Hsigns Hparse) as Htry.
  eexists _, _. split; [|split; [|split]].
  - unfold tryCatch.
    destruct (uploadFile_try url ws info name w) as [[e|[]] w4]; cbn [snd] in *.
    + rewrite Hh. exact Htry.
    + exact Htry.
  - reflexivity.
  - reflexivity.
  - reflexivity.
Qed.

(** [uploadFile] sends the content of the file it resolved, whatever
    that content is. *)
Lemma uploadFile_sends document ws w url fileContent urlParsed :
  doc_workspaceFolder document = Some ws ->
  credentialIn "restletUrl" (Some ws) w = Some url ->
  truthy url = true ->
  fileSystem w
    !! uploadPath (resolve (doc_fileName document) (fsPath ws) (watchFolderIn ws w)
                     (uploadFolderIn ws w) (rootPathIn ws w))
  = Some (RegularFile fileContent) ->
  secretsPresent (Some ws) w = true ->
  signs url "POST" (Some ws) w ->
  parseUrl w url = Some urlParsed ->
  exists request p,
    requestsSent (snd (uploadFile document w)) = (requestsSent w ++ [request])%list
    /\ req_body request = Some p
    /\ payload_content p = fileContent
    /\ payload_path p
       = netSuitePath (resolve (doc_fileName document) (fsPath ws) (watchFolderIn ws w)
                         (uploadFolderIn ws w) (rootPathIn ws w)).
Proof.
  intros Hws Hurl Htruthy Hfile Hsecrets Hsigns Hparse.
  destruct (warm_frame (Some ws) w)
    as (_ & _ & Hfs & _ & _ & Hparse' & _ & _ & Hsent).
  unfold uploadFile. rewrite Hws, bind_getCredential, Hurl.
  cbn [present]. rewrite Htruthy. cbn [negb].
  unfold bind at 1. rewrite resolveUploadFile_value.
  unfold watchFolderIn, uploadFolderIn, rootPathIn.
  rewrite !credentialIn_warm, warm_twice.
  fold (watchFolderIn ws w) (uploadFolderIn ws w) (rootPathIn ws w).
  set (info := resolve _ _ _ _ _) in *.
  set (w1 := warm (Some ws) w) in *.
  assert (Hloaded : loaded (Some ws) w1) by apply warm_loaded.
  assert (Hfound : exists l,
    (if isMapped info then existsSync (uploadPath info) else ret true) w1
    = (inr true, setEffects (effects w1 ++ l) w1) /\ requestsOf l = []).
  { destruct (isMapped info).
    - exists [FsExists (uploadPath info)]. split; [|reflexivity].
      unfold existsSync, bind, effect, modify, gets. cbn [fst snd fileSystem setEffects].
      now rewrite Hfs, Hfile.
    - exists []. split; [|reflexivity]. unfold ret. rewrite app_nil_r.
      now destruct w1. }
  destruct Hfound as (l & Hfound & Hl).
  unfold bind at 1. rewrite Hfound. cbn [negb default].
  unfold bind at 1. unfold effect at 1. unfold modify at 1. cbv beta iota.
  unfold bind at 1. unfold log at 1. unfold effect at 1. unfold modify at 1.
  cbv beta iota. cbn [effects setEffects]. rewrite !setEffects_twice.
  set (w3 := setEffects _ w1).
  destruct (uploadFile_guarded_sends url ws info (path_basename (uploadPath info))
              (fun e =>
                 effect (StatusBar "error" (exn_message e)) ;;
                 log ("Upload failed: " ++ path_basename (uploadPath info)) ;;
                 effect (ErrorMessage ("NetSuite Upload Failed: " ++ exn_message e)))
              w3 fileContent urlParsed)
    as (request & p & Hreq & Hbody & Hcontent & Hpath).
  - intros e w'. unfold bind, log, effect, modify, requestsSent.
    cbn [fst snd effects setEffects]. rewrite !requestsOf_app.
    cbn [requestsOf flat_map app]. now rewrite !app_nil_r.
  - exact Hloaded.
  - unfold w3. cbn [fileSystem setEffects]. now rewrite Hfs.
  - unfold w3. apply (eq_trans (frame_of_loaded_effects (Some ws) _ w)), Hsecrets.
  - unfold w3. now apply signs_of_loaded_effects.
  - unfold w3. cbn [parseUrl setEffects]. now rewrite Hparse'.
  - exists request, p. split; [|repeat split; assumption].
    transitivity (requestsSent w3 ++ [request])%list; [exact Hreq|]. f_equal.
    unfold w3, requestsSent. cbn [effects setEffects].
    rewrite !requestsOf_app, Hl. cbn [requestsOf flat_map app].
    rewrite !app_nil_r. exact Hsent.
Qed.

End ExtensionFacts.

(** ** The size limit, end to end *)

Module UploadFacts.

Import Js Eff.

Lemma len_append a b : len (a ++ b) = (len a + len b)%Z.
Proof. unfold len. rewrite ExtensionFacts.length_append. lia. Qed.

Lemma len_doubled n s : len (Examples.doubled n s) = (2 ^ Z.of_nat n * len s)%Z.
Proof.
  revert s. induction n as [|n IH]; intros s.
  - cbn [Examples.doubled]. change (Z.of_nat 0) with 0%Z. lia.
  - cbn [Examples.doubled]. rewrite IH, len_append, Nat2Z.inj_succ, Z.pow_succ_r by lia.
    lia.
Qed.

Lemma len_atLimit : len Examples.atLimit = Restlet.maxFileSize Restlet.CONFIG.
Proof. unfold Examples.atLimit. rewrite len_doubled. reflexivity. Qed.

Lemma len_overLimit :
  len Examples.overLimit = (Restlet.maxFileSize Restlet.CONFIG + 1)%Z.
Proof.
  unfold Examples.overLimit. rewrite len_append, len_atLimit. reflexivity.
Qed.

(** For a content of the ASCII range the number of code units is the
    number of bytes. *)
Lemma sizeInBytes_ascii s : Restlet.isAscii s = true -> Restlet.sizeInBytes s = len s.
Proof.
  unfold Restlet.isAscii, len. induction s as [|c s IH]; [reflexivity|].
  cbn [Restlet.allChars Restlet.sizeInBytes String.length].
  intros H. apply andb_true_iff in H as [Hc Hs]. rewrite Hc, (IH Hs). lia.
Qed.

Lemma isAscii_append a b :
  Restlet.isAscii a = true -> Restlet.isAscii b = true ->
  Restlet.isAscii (a ++ b) = true.
Proof.
  unfold Restlet.isAscii. intros Ha Hb. induction a as [|c a IH]; [exact Hb|].
  cbn [Restlet.allChars] in Ha. apply andb_true_iff in Ha as [Hc Ha].
  change (String c a ++ b) with (String c (a ++ b)).
  cbn [Restlet.allChars]. now rewrite Hc, (IH Ha).
Qed.

Lemma isAscii_doubled n s :
  Restlet.isAscii s = true -> Restlet.isAscii (Examples.doubled n s) = true.
Proof.
  revert s. induction n as [|n IH]; intros s Hs; [exact Hs|].
  cbn [Examples.doubled]. now apply IH, isAscii_append.
Qed.

Lemma isAscii_atLimit : Restlet.isAscii Examples.atLimit = true.
Proof. now apply isAscii_doubled. Qed.

Lemma isAscii_overLimit : Restlet.isAscii Examples.overLimit = true.
Proof. apply (isAscii_append "x"); [reflexivity|exact isAscii_atLimit]. Qed.

(** The size check of [validateRequest]. *)
Lemma validateRequest_within context p c :
  Restlet.path context = Some p -> isEmpty p = false -> includes p ".." = false ->
  Restlet.content context = Some c ->
  (len c <= Restlet.maxFileSize Restlet.CONFIG)%Z ->
  Restlet.validateRequest context = Restlet.Valid.
Proof.
  intros Hp Hne Hdots Hc Hlen. unfold Restlet.validateRequest.
  rewrite Hp, Hne, Hc, Hdots.
  replace (len c >? Restlet.maxFileSize Restlet.CONFIG)%Z with false;
    [reflexivity|].
  symmetry. rewrite Z.gtb_ltb. apply Z.ltb_ge. exact Hlen.
Qed.

Lemma validateRequest_beyond context p c :
  Restlet.path context = Some p -> isEmpty p = false ->
  Restlet.content context = Some c ->
  (len c > Restlet.maxFileSize Restlet.CONFIG)%Z ->
  exists message,
    Restlet.validateRequest context = Restlet.Invalid "FILE_TOO_LARGE" message.
Proof.
  intros Hp Hne Hc Hlen. unfold Restlet.validateRequest. rewrite Hp, Hne, Hc.
  replace (len c >? Restlet.maxFileSize Restlet.CONFIG)%Z with true
    by (symmetry; apply Z.gtb_lt; lia).
  now eexists.
Qed.

(** In the sample world the saved file is sent as it is, whatever its
    content. *)
Lemma sourceWorld_sends fileContent :
  exists request p,
    Extension.requestsSent
      (snd (Extension.uploadFile Examples.savedDocument
              (Examples.sourceWorld fileContent))) = [request]
    /\ Extension.req_body request = Some p
    /\ Extension.payload_content p = fileContent
    /\ Extension.payload_path p = "/SuiteScripts/a/b.js".
Proof.
  destruct (ExtensionFacts.uploadFile_sends Examples.savedDocument Examples.workspace
              (Examples.sourceWorld fileContent) Examples.restletUrl fileContent
              Examples.restletUrlParsed)
    as (request & p & Hsent & Hbody & Hcontent & Hpath);
    try reflexivity.
  exists request, p. repeat split; assumption.
Qed.

Lemma post_rejects context error message w :
  Restlet.validateRequest context = Restlet.Invalid error message ->
  Restlet.post context w = (Restlet.Failure error message, w).
Proof. intros H. unfold Restlet.post. now rewrite H. Qed.

(** C6 as stated fails: a saved file of [maxFileSize + 1] characters is
    handed to the network by [uploadFile]; the rejection with
    [FILE_TOO_LARGE] is what the RESTlet answers to that request. *)
Lemma oversized_upload_reaches_the_network :
  exists request p message,
    Extension.requestsSent
      (snd (Extension.uploadFile Examples.savedDocument
              (Examples.sourceWorld Examples.overLimit))) = [request]
    /\ Extension.req_body request = Some p
    /\ len (Extension.payload_content p)
       = (Restlet.maxFileSize Restlet.CONFIG + 1)%Z
    /\ Restlet.post (Wire.contextOf p) Examples.cabinet
       = (Restlet.Failure "FILE_TOO_LARGE" message, Examples.cabinet).
Proof.
  destruct (sourceWorld_sends Examples.overLimit)
    as (request & p & Hsent & Hbody & Hcontent & Hpath).
  assert (Hlen : len (Extension.payload_content p)
                 = (Restlet.maxFileSize Restlet.CONFIG + 1)%Z)
    by (rewrite Hcontent; exact len_overLimit).
  destruct (validateRequest_beyond (Wire.contextOf p) (Extension.payload_path p)
              (Extension.payload_content p) eq_refl) as (message & Hinvalid).
  - now rewrite Hpath.
  - reflexivity.
  - rewrite Hlen. lia.
  - exists request, p, message. repeat split; try assumption.
    now apply post_rejects.
Qed.

(** C6, amended. The size limit is a check of the RESTlet, stated for
    content of the ASCII range, whose number of code units is its number
    of bytes: such a content of exactly [maxFileSize] bytes passes
    [validateRequest] (for a path that is there and holds no [..]); one of
    [maxFileSize + 1] bytes is rejected by [post] with [FILE_TOO_LARGE]
    before any call to the File Cabinet (the world of the RESTlet is left
    as it was).  The extension has no size check: once the request data
    are signed and the URL is parsed, [uploadFile] hands to the network
    the content it read, whatever its length. *)
Theorem size_limit_is_enforced_by_the_restlet :
  (forall context p c,
      Restlet.path context = Some p -> isEmpty p = false ->
      includes p ".." = false ->
      Restlet.content context = Some c ->
      Restlet.isAscii c = true ->
      Restlet.sizeInBytes c = Restlet.maxFileSize Restlet.CONFIG ->
      Restlet.validateRequest context = Restlet.Valid)
  /\ (forall context p c w,
        Restlet.path context = Some p -> isEmpty p = false ->
        Restlet.content context = Some c ->
        Restlet.isAscii c = true ->
        Restlet.sizeInBytes c = (Restlet.maxFileSize Restlet.CONFIG + 1)%Z ->
        exists message,
          Restlet.post context w = (Restlet.Failure "FILE_TOO_LARGE" message, w))
  /\ (forall document ws w url fileContent urlParsed,
        Extension.doc_workspaceFolder document = Some ws ->
        Extension.credentialIn "restletUrl" (Some ws) w = Some url ->
        truthy url = true ->
        Extension.fileSystem w
          !! Extension.uploadPath
               (Extension.resolve (Extension.doc_fileName document)
                  (Extension.fsPath ws) (Extension.watchFolderIn ws w)
                  (Extension.uploadFolderIn ws w) (Extension.rootPathIn ws w))
        = Some (Extension.RegularFile fileContent) ->
        Extension.secretsPresent (Some ws) w = true ->
        Extension.signs url "POST" (Some ws) w ->
        Extension.parseUrl w url = Some urlParsed ->
        exists request p,
          Extension.requestsSent (snd (Extension.uploadFile document w))
          = (Extension.requestsSent w ++ [request])%list
          /\ Extension.req_body request = Some p
          /\ Extension.payload_content p = fileContent).
Proof.
  split; [|split].
  - intros context p c Hp Hne Hdots Hc Hascii Hsize.
    rewrite (sizeInBytes_ascii c Hascii) in Hsize.
    apply (validateRequest_within context p c); try assumption. lia.
  - intros context p c w Hp Hne Hc Hascii Hsize.
    rewrite (sizeInBytes_ascii c Hascii) in Hsize.
    destruct (validateRequest_beyond context p c) as (message & H);
      try assumption; [lia|].
    exists message. now apply post_rejects.
  - intros document ws w url fileContent urlParsed Hws Hurl Htruthy Hfile Hsecrets
      Hsigns Hparse.
    destruct (ExtensionFacts.uploadFile_sends document ws w url fileContent urlParsed)
      as (request & p & Hsent & Hbody & Hcontent & _); try assumption.
    now exists request, p.
Qed.

Lemma size_limit_is_enforced_by_the_restlet_witness :
  Restlet.validateRequest
    {| Restlet.path := Some "/SuiteScripts/a/b.js";
       Restlet.content := Some Examples.atLimit;
       Restlet.encoding := None; Restlet.folder := None;
       Restlet.description := None |} = Restlet.Valid
  /\ (exists message,
        Restlet.post
          {| Restlet.path := Some "/SuiteScripts/a/b.js";
             Restlet.content := Some Examples.overLimit;
             Restlet.encoding := None; Restlet.folder := None;
             Restlet.description := None |} Examples.cabinet
        = (Restlet.Failure "FILE_TOO_LARGE" message, Examples.cabinet))
  /\ (exists request p,
        Extension.requestsSent
          (snd (Extension.uploadFile Examples.savedDocument
                  (Examples.sourceWorld "new")))
        = (Extension.requestsSent (Examples.sourceWorld "new") ++ [request])%list
        /\ Extension.req_body request = Some p
        /\ Extension.payload_content p = "new").
Proof.
  destruct size_limit_is_enforced_by_the_restlet as (Hwithin & Hbeyond & Hsends).
  split; [|split].
  - apply (Hwithin _ "/SuiteScripts/a/b.js" Examples.atLimit);
      [reflexivity | reflexivity | reflexivity | reflexivity | exact isAscii_atLimit |].
    rewrite (sizeInBytes_ascii _ isAscii_atLimit). exact len_atLimit.
  - apply (Hbeyond _ "/SuiteScripts/a/b.js" Examples.overLimit);
      [reflexivity | reflexivity | reflexivity | exact isAscii_overLimit |].
    rewrite (sizeInBytes_ascii _ isAscii_overLimit). exact len_overLimit.
  - apply (Hsends Examples.savedDocument Examples.workspace
             (Examples.sourceWorld "new") Examples.restletUrl "new"
             Examples.restletUrlParsed); reflexivity.
Defined.

End UploadFacts.

(** ** The debounce timers *)

Module DispatcherFacts.
Import Dispatcher.

Section Lists.
Context {A : Type}.

Lemma filter_swap (P Q : A -> bool) (l : list A) :
  List.filter P (List.filter Q l) = List.filter Q (List.filter P l).
Proof.
  induction l as [|a l IH]; [reflexivity|]. simpl.
  destruct (Q a) eqn:HQ, (P a) eqn:HP; simpl; rewrite ?HQ, ?HP, IH; reflexivity.
Qed.

Lemma filter_none (P : A -> bool) (l : list A) :
  (forall a, In a l -> P a = false) -> List.filter P l = [].
Proof.
  induction l as [|a l IH]; intros H; [reflexivity|]. simpl.
  rewrite (H a) by now left. apply IH. intros b Hb. apply H. now right.
Qed.

Lemma filter_nil_In (P : A -> bool) (l : list A) (a : A) :
  List.filter P l = [] -> In a l -> P a = false.
Proof.
  intros Hnil Hin. destruct (P a) eqn:HP; [|reflexivity].
  assert (In a (List.filter P l)) as Hf by (apply filter_In; auto).
  rewrite Hnil in Hf. destruct Hf.
Qed.

End Lists.

Section Focus.
Variable env : Env.
Variable filePath : string.

Lemma delayOf_positive : 0 < delayOf env.
Proof. unfold delayOf. destruct (debounceDelay env) as [[|d]|]; lia. Qed.

(** *** One timer *)

Lemma pendingOf_fire s t :
  pendingOf filePath (fire env s t)
  = clearTimeout (timer_id t) (pendingOf filePath s).
Proof. unfold pendingOf, fire, clearTimeout. simpl. apply filter_swap. Qed.

Lemma uploadsOf_fire s t :
  uploadsOf filePath (fire env s t)
  = (uploadsOf filePath s ++
     if String.eqb (timer_file t) filePath
     then [uploadAt env (timer_file t) (Nat.max (now s) (timer_due t))]
     else [])%list.
Proof.
  unfold uploadsOf, fire. simpl. rewrite List.filter_app. simpl.
  destruct (String.eqb (timer_file t) filePath); reflexivity.
Qed.

Lemma bounded_fire s t : bounded s -> bounded (fire env s t).
Proof.
  intros [Hmap Hpending]. split; simpl.
  - intros g h Hg. apply lookup_delete_Some in Hg as [_ Hg]. eauto.
  - intros u Hu. apply filter_In in Hu as [Hu _]. auto.
Qed.

Lemma tracked_fire s t0 t :
  tracked filePath t0 s -> timer_file t <> filePath ->
  timer_id t <> timer_id t0 -> tracked filePath t0 (fire env s t).
Proof.
  intros (Hfile & Hpending & Hmap & Hinj & Hids) Hother Hid.
  repeat split.
  - exact Hfile.
  - rewrite pendingOf_fire, Hpending. unfold clearTimeout. simpl.
    destruct (Nat.eqb_spec (timer_id t0) (timer_id t)) as [E|_]; [|reflexivity].
    now elim Hid.
  - simpl. rewrite lookup_delete_ne by exact Hother. exact Hmap.
  - simpl. intros g Hg. apply lookup_delete_Some in Hg as [_ Hg]. auto.
  - simpl. intros u Hu. apply filter_In in Hu as [Hu _]. auto.
Qed.

(** *** The timers due *)

Lemma insertByDue_In t u l : In u (insertByDue t l) <-> u = t \/ In u l.
Proof.
  induction l as [|a l IH]; simpl; [intuition|].
  destruct (timer_due t <? timer_due a)%nat; simpl; [intuition|].
  rewrite IH. intuition.
Qed.

Lemma sortByDue_In u l : In u (sortByDue l) <-> In u l.
Proof.
  induction l as [|a l IH]; simpl; [reflexivity|].
  rewrite insertByDue_In, IH. intuition.
Qed.

Lemma insertByDue_sorted t l :
  StronglySorted byDue l -> StronglySorted byDue (insertByDue t l).
Proof.
  induction 1 as [|a l Hsorted IH Hall]; simpl.
  - constructor; constructor.
  - destruct (Nat.ltb_spec (timer_due t) (timer_due a)) as [Hlt|Hge].
    + constructor; [now constructor|]. constructor; [unfold byDue; lia|].
      rewrite List.Forall_forall in Hall |- *. intros u Hu.
      specialize (Hall u Hu). unfold byDue in *. lia.
    + constructor; [exact IH|]. apply List.Forall_forall. intros u Hu.
      apply insertByDue_In in Hu as [->|Hu]; [exact Hge|].
      rewrite List.Forall_forall in Hall. auto.
Qed.

Lemma sortByDue_sorted l : StronglySorted byDue (sortByDue l).
Proof.
  induction l as [|a l IH]; simpl; [constructor|].
  now apply insertByDue_sorted.
Qed.

Lemma dueBy_In time l u :
  In u (dueBy time l) <-> In u l /\ timer_due u <= time.
Proof.
  unfold dueBy. rewrite sortByDue_In, filter_In.
  now rewrite Nat.leb_le.
Qed.

(** Firing timers of other files leaves the file's timer and uploads
    as they are. *)
Lemma fold_fire_others l : forall s t0,
  tracked filePath t0 s ->
  (forall t, In t l -> timer_file t <> filePath /\ timer_id t <> timer_id t0) ->
  tracked filePath t0 (fold_left (fire env) l s)
  /\ uploadsOf filePath (fold_left (fire env) l s) = uploadsOf filePath s.
Proof.
  induction l as [|a l IH]; intros s t0 Htracked Hothers; [now split|].
  simpl. destruct (Hothers a (or_introl eq_refl)) as [Hfile Hid].
  destruct (IH (fire env s a) t0) as [Htracked' Huploads].
  - now apply tracked_fire.
  - intros t Ht. apply Hothers. now right.
  - split; [exact Htracked'|]. rewrite Huploads, uploadsOf_fire.
    apply String.eqb_neq in Hfile. rewrite Hfile. apply app_nil_r.
Qed.

Lemma fold_fire_bounded l : forall s,
  bounded s -> bounded (fold_left (fire env) l s).
Proof.
  induction l as [|a l IH]; intros s Hs; [exact Hs|].
  simpl. apply IH. now apply bounded_fire.
Qed.

Lemma fold_fire_now time l : forall s,
  (forall t, In t l -> timer_due t <= time) ->
  now s <= now (fold_left (fire env) l s) <= Nat.max (now s) time.
Proof.
  induction l as [|a l IH]; intros s Hdue; simpl; [lia|].
  specialize (IH (fire env s a) (fun t Ht => Hdue t (or_intror Ht))).
  specialize (Hdue a (or_introl eq_refl)). simpl in IH. lia.
Qed.

(** Once the file has no armed timer, firing others starts no upload
    of it. *)
Lemma fold_fire_idle l : forall s,
  pendingOf filePath s = [] ->
  pendingOf filePath (fold_left (fire env) l s) = [].
Proof.
  induction l as [|a l IH]; intros s Hidle; [exact Hidle|].
  simpl. apply IH. rewrite pendingOf_fire, Hidle. reflexivity.
Qed.

Lemma fold_fire_strangers l : forall s,
  (forall t, In t l -> timer_file t <> filePath) ->
  uploadsOf filePath (fold_left (fire env) l s) = uploadsOf filePath s.
Proof.
  induction l as [|a l IH]; intros s Hothers; [reflexivity|].
  simpl. rewrite IH by (intros t Ht; apply Hothers; now right).
  rewrite uploadsOf_fire.
  destruct (String.eqb_spec (timer_file a) filePath) as [E|_];
    [|apply app_nil_r].
  now elim (Hothers a (or_introl eq_refl)).
Qed.

Lemma filter_insertByDue_other (P : Timer -> bool) t l :
  P t = false -> List.filter P (insertByDue t l) = List.filter P l.
Proof.
  intros HP. induction l as [|a l IH]; simpl; [now rewrite HP|].
  destruct (timer_due t <? timer_due a)%nat; simpl; [now rewrite HP|].
  now rewrite IH.
Qed.

Lemma filter_insertByDue_only (P : Timer -> bool) t l :
  P t = true -> List.filter P l = [] -> List.filter P (insertByDue t l) = [t].
Proof.
  intros HP. induction l as [|a l IH]; simpl; [now rewrite HP|].
  destruct (P a) eqn:Ha; [discriminate|]. intros Hnil.
  destruct (timer_due t <? timer_due a)%nat; simpl; rewrite ?HP, Ha.
  - now rewrite Hnil.
  - now apply IH.
Qed.

Lemma filter_sortByDue_none (P : Timer -> bool) l :
  List.filter P l = [] -> List.filter P (sortByDue l) = [].
Proof.
  intros Hnil. apply filter_none. intros a Ha.
  apply (filter_nil_In P l a Hnil). now apply sortByDue_In.
Qed.

Lemma filter_sortByDue_single (P : Timer -> bool) t l :
  List.filter P l = [t] -> List.filter P (sortByDue l) = [t].
Proof.
  induction l as [|a l IH]; simpl; [discriminate|].
  destruct (P a) eqn:Ha; intros Hl.
  - injection Hl as -> Hl. apply filter_insertByDue_only; [exact Ha|].
    now apply filter_sortByDue_none.
  - rewrite filter_insertByDue_other by exact Ha. now apply IH.
Qed.

(** The file's timer, when among the timers due, starts the one upload
    of the file, at its due time. *)
Lemma fold_fire_fires t0 l :
  StronglySorted byDue l -> forall s,
  List.filter (fun t => String.eqb (timer_file t) filePath) l = [t0] ->
  now s <= timer_due t0 ->
  uploadsOf filePath (fold_left (fire env) l s)
  = (uploadsOf filePath s ++ [uploadAt env filePath (timer_due t0)])%list.
Proof.
  induction 1 as [|a l Hsorted IH Hall]; intros s Hfilter Hnow;
    [discriminate|].
  simpl in Hfilter |- *.
  destruct (String.eqb_spec (timer_file a) filePath) as [Hfile|Hfile].
  - injection Hfilter as -> Hnil.
    rewrite fold_fire_strangers.
    + rewrite uploadsOf_fire, Hfile, String.eqb_refl.
      now rewrite Nat.max_r by exact Hnow.
    + intros t Ht. apply (filter_nil_In _ _ t Hnil) in Ht.
      now apply String.eqb_neq.
  - rewrite IH; [| exact Hfilter |].
    + rewrite uploadsOf_fire. apply String.eqb_neq in Hfile.
      now rewrite Hfile, app_nil_r.
    + assert (In t0 l) as Hin.
      { assert (In t0 (List.filter
                  (fun t => String.eqb (timer_file t) filePath) l)) as Hin
          by (rewrite Hfilter; now left).
        now apply filter_In in Hin. }
      rewrite List.Forall_forall in Hall. specialize (Hall t0 Hin).
      unfold byDue in Hall. simpl. lia.
Qed.

Lemma fold_fire_clears t0 l : forall s,
  pendingOf filePath s = [] \/ (pendingOf filePath s = [t0] /\ In t0 l) ->
  pendingOf filePath (fold_left (fire env) l s) = [].
Proof.
  induction l as [|a l IH]; intros s [Hidle|[Hone Hin]];
    try (now apply fold_fire_idle); try (now destruct Hin).
  simpl. apply IH. rewrite pendingOf_fire, Hone. unfold clearTimeout. simpl.
  destruct (Nat.eqb_spec (timer_id t0) (timer_id a)) as [_|Hid]; simpl;
    [now left|right].
  split; [reflexivity|]. destruct Hin as [->|Hin]; [now elim Hid|exact Hin].
Qed.

(** *** Time passing *)

Lemma tracked_In t0 s : tracked filePath t0 s -> In t0 (pending s).
Proof.
  intros (_ & Hpending & _).
  assert (In t0 (pendingOf filePath s)) as Hin by (rewrite Hpending; now left).
  unfold pendingOf in Hin. now apply filter_In in Hin.
Qed.

Lemma tracked_only t0 s t :
  tracked filePath t0 s -> In t (pending s) -> timer_file t = filePath -> t = t0.
Proof.
  intros (_ & Hpending & _) Hin Hfile.
  assert (In t (pendingOf filePath s)) as Hof.
  { unfold pendingOf. apply filter_In. split; [exact Hin|].
    now apply String.eqb_eq. }
  rewrite Hpending in Hof. destruct Hof as [->|[]]. reflexivity.
Qed.

Lemma advanceTo_bounded time s : bounded s -> bounded (advanceTo env time s).
Proof. intros Hs. exact (fold_fire_bounded _ s Hs). Qed.

Lemma advanceTo_now time s :
  now s <= time -> now (advanceTo env time s) = time.
Proof.
  intros Hnow. unfold advanceTo. simpl.
  pose proof (fold_fire_now time (dueBy time (pending s)) s) as H.
  specialize (H (fun t Ht => proj2 (proj1 (dueBy_In time _ t) Ht))). lia.
Qed.

Lemma advanceTo_idle time s :
  pendingOf filePath s = [] ->
  pendingOf filePath (advanceTo env time s) = []
  /\ uploadsOf filePath (advanceTo env time s) = uploadsOf filePath s.
Proof.
  intros Hidle. split.
  - exact (fold_fire_idle _ s Hidle).
  - apply (fold_fire_strangers (dueBy time (pending s)) s).
    intros t Ht. apply dueBy_In in Ht as [Ht _].
    apply (filter_nil_In _ _ t Hidle) in Ht. now apply String.eqb_neq.
Qed.

(** Before its timer runs out, the file is left alone. *)
Lemma advanceTo_waits time t0 s :
  tracked filePath t0 s -> time < timer_due t0 ->
  tracked filePath t0 (advanceTo env time s)
  /\ uploadsOf filePath (advanceTo env time s) = uploadsOf filePath s.
Proof.
  intros Htracked Hdue.
  apply (fold_fire_others (dueBy time (pending s)) s t0 Htracked).
  intros t Ht. apply dueBy_In in Ht as [Hin Ht].
  assert (timer_file t <> filePath) as Hfile.
  { intros Hfile. rewrite (tracked_only t0 s t Htracked Hin Hfile) in Ht. lia. }
  split; [exact Hfile|]. intros Hid. apply Hfile.
  destruct Htracked as (_ & _ & _ & _ & Hids). now apply Hids.
Qed.

(** When it has run out, the timer starts the upload and is gone. *)
Lemma advanceTo_fires time t0 s :
  tracked filePath t0 s -> now s <= timer_due t0 -> timer_due t0 <= time ->
  uploadsOf filePath (advanceTo env time s)
  = (uploadsOf filePath s ++ [uploadAt env filePath (timer_due t0)])%list
  /\ pendingOf filePath (advanceTo env time s) = [].
Proof.
  intros Htracked Hnow Hdue.
  pose proof Htracked as (_ & Hpending & _). split.
  - apply (fold_fire_fires t0 (dueBy time (pending s)));
      [apply sortByDue_sorted| |exact Hnow].
    unfold dueBy. apply filter_sortByDue_single. rewrite filter_swap.
    fold (pendingOf filePath s). rewrite Hpending. simpl.
    now rewrite (proj2 (Nat.leb_le _ _) Hdue).
  - apply (fold_fire_clears t0 (dueBy time (pending s)) s). right.
    split; [exact Hpending|]. apply dueBy_In.
    split; [now apply tracked_In|exact Hdue].
Qed.

(** *** A save *)

Lemma clearTimeout_In handle l t :
  In t (clearTimeout handle l) -> In t l.
Proof. intros Ht. now apply filter_In in Ht. Qed.

Lemma armed_In s g t :
  In t match debounceTimers s !! g with
       | Some handle => clearTimeout handle (pending s)
       | None => pending s
       end ->
  In t (pending s).
Proof.
  destruct (debounceTimers s !! g); [apply clearTimeout_In|trivial].
Qed.

Lemma bounded_debounceUpload g s :
  bounded s -> bounded (debounceUpload env g s).
Proof.
  intros [Hmap Hpending]. split; simpl.
  - intros g' h Hg'. apply lookup_insert_Some in Hg' as [[_ <-]|[_ Hg']];
      [lia|]. apply Hmap in Hg'. lia.
  - intros t Ht. apply in_app_or in Ht as [Ht|[<-|[]]]; [|simpl; lia].
    apply armed_In, Hpending in Ht. lia.
Qed.

Lemma uploadsOf_debounceUpload g s :
  uploadsOf filePath (debounceUpload env g s) = uploadsOf filePath s.
Proof. reflexivity. Qed.

(** A save of the file cancels the timer armed for it and arms a new
    one, which is then its only timer. *)
Lemma debounceUpload_restarts s :
  bounded s ->
  pendingOf filePath s = [] \/ (exists t0, tracked filePath t0 s) ->
  tracked filePath
    {| timer_id := nextTimerId s; timer_file := filePath;
       timer_due := now s + delayOf env |}
    (debounceUpload env filePath s).
Proof.
  intros [Hmap Hbound] Hbefore. repeat split; simpl.
  - unfold pendingOf. simpl. rewrite List.filter_app. simpl.
    rewrite String.eqb_refl.
    replace (List.filter _ _) with (@nil Timer); [reflexivity|].
    symmetry. destruct Hbefore as [Hidle|(t0 & _ & Hone & Hhandle & _)].
    + apply filter_none. intros t Ht. apply armed_In in Ht.
      exact (filter_nil_In _ _ t Hidle Ht).
    + rewrite Hhandle. unfold clearTimeout. rewrite filter_swap.
      fold (pendingOf filePath s). rewrite Hone. simpl.
      now rewrite Nat.eqb_refl.
  - apply lookup_insert_eq.
  - intros g Hg. apply lookup_insert_Some in Hg as [[-> _]|[_ Hg]];
      [reflexivity|]. apply Hmap in Hg. lia.
  - intros t Ht Hid. apply in_app_or in Ht as [Ht|[<-|[]]]; [|reflexivity].
    apply armed_In, Hbound in Ht. lia.
Qed.

(** A save of another file leaves the timer of this one armed. *)
Lemma debounceUpload_other g t0 s :
  bounded s -> tracked filePath t0 s -> g <> filePath ->
  tracked filePath t0 (debounceUpload env g s).
Proof.
  intros [Hmap Hbound] (Hfile & Hone & Hhandle & Hinj & Hids) Hother.
  assert (timer_id t0 < nextTimerId s) as Hfresh by (now apply (Hmap filePath)).
  repeat split; simpl.
  - exact Hfile.
  - unfold pendingOf. simpl. rewrite List.filter_app. simpl.
    apply String.eqb_neq in Hother. rewrite Hother, app_nil_r.
    destruct (debounceTimers s !! g) as [h|] eqn:Hg; [|exact Hone].
    unfold clearTimeout. rewrite filter_swap.
    fold (pendingOf filePath s). rewrite Hone. simpl.
    destruct (Nat.eqb_spec (timer_id t0) h) as [<-|_]; [|reflexivity].
    apply Hinj in Hg. apply String.eqb_neq in Hother. now elim Hother.
  - rewrite lookup_insert_ne by exact Hother. exact Hhandle.
  - intros g' Hg'. apply lookup_insert_Some in Hg' as [[_ Hid]|[_ Hg']];
      [lia|auto].
  - intros t Ht Hid. apply in_app_or in Ht as [Ht|[<-|[]]].
    + apply armed_In in Ht. auto.
    + simpl in Hid. lia.
Qed.

Lemma step_within t0 s e :
  bounded s -> tracked filePath t0 s ->
  now s <= save_time e -> save_time e < timer_due t0 ->
  bounded (step env s e)
  /\ now (step env s e) = save_time e
  /\ uploadsOf filePath (step env s e) = uploadsOf filePath s
  /\ exists t1,
       tracked filePath t1 (step env s e)
       /\ timer_due t1 = if String.eqb (save_file e) filePath
                         then save_time e + delayOf env else timer_due t0.
Proof.
  intros Hbounded Htracked Hnow Hdue. unfold step.
  destruct (advanceTo_waits (save_time e) t0 s Htracked Hdue)
    as [Hwaits Huploads].
  pose proof (advanceTo_bounded (save_time e) s Hbounded) as Hbounded'.
  pose proof (advanceTo_now (save_time e) s Hnow) as Htime.
  split; [now apply bounded_debounceUpload|].
  split; [exact Htime|]. split; [exact Huploads|].
  destruct (String.eqb_spec (save_file e) filePath) as [->|Hother].
  - eexists. split.
    + apply debounceUpload_restarts; [exact Hbounded'|]. right. now exists t0.
    + cbn [timer_due]. now rewrite Htime.
  - exists t0. split; [|reflexivity]. now apply debounceUpload_other.
Qed.

(** Through a burst the file keeps one armed timer, due one delay after
    its last save, and no upload of it starts. *)
Lemma run_within events : forall s t0 lastSave,
  bounded s -> tracked filePath t0 s ->
  timer_due t0 = lastSave + delayOf env -> now s < timer_due t0 ->
  withinWindow env filePath (now s) lastSave events ->
  bounded (run env events s)
  /\ uploadsOf filePath (run env events s) = uploadsOf filePath s
  /\ exists t1,
       tracked filePath t1 (run env events s)
       /\ timer_due t1 = lastSaveOf filePath lastSave events + delayOf env
       /\ now (run env events s) < timer_due t1.
Proof.
  induction events as [|e events IH]; intros s t0 lastSave Hbounded Htracked
    Hdue Hnow Hwindow.
  - split; [exact Hbounded|]. split; [reflexivity|]. now exists t0.
  - destruct Hwindow as (Hlater & Hbefore & Hrest).
    rewrite <- Hdue in Hbefore.
    destruct (step_within t0 s e Hbounded Htracked Hlater Hbefore)
      as (Hbounded' & Htime & Huploads & t1 & Htracked' & Hdue').
    pose proof delayOf_positive as Hpositive.
    simpl.
    destruct (IH (step env s e) t1
                 (if String.eqb (save_file e) filePath
                  then save_time e else lastSave)
                 Hbounded' Htracked') as (Hb & Hu & t2 & Ht2).
    + rewrite Hdue'. now destruct (String.eqb (save_file e) filePath).
    + rewrite Hdue', Htime.
      destruct (String.eqb (save_file e) filePath); lia.
    + rewrite Htime. exact Hrest.
    + split; [exact Hb|]. split; [now rewrite Hu|]. now exists t2.
Qed.

End Focus.

Lemma bounded_initial : bounded initial.
Proof.
  split; simpl.
  - intros g h Hg. now rewrite lookup_empty in Hg.
  - intros t [].
Qed.

Lemma run_bounded env events : forall s,
  bounded s -> bounded (run env events s).
Proof.
  induction events as [|e events IH]; intros s Hs; [exact Hs|].
  simpl. apply IH. unfold step.
  now apply bounded_debounceUpload, advanceTo_bounded.
Qed.

(** C2 as stated fails: with the default delay and a network that takes
    three seconds, a save 1500 ms after the first one comes when the timer
    of the first has fired and left the map; the new timer cancels nothing,
    and its upload starts while the first is in flight. *)
Lemma uploads_of_one_file_overlap :
  exists u1 u2,
    uploadsOf "/w/src/a.js"
      (advanceTo Examples.slowNetwork 4000
         (run Examples.slowNetwork Examples.twoSaves initial))
    = [u1; u2]
    /\ upload_file u1 = upload_file u2
    /\ overlap u1 u2.
Proof.
  eexists _, _. split; [vm_compute; reflexivity|].
  split; [reflexivity|]. unfold overlap. simpl. lia.
Qed.

(** C2, amended. In a state the extension can reach where the file has no
    armed timer, a save of the file followed by a burst of saves, each
    before the timer last armed for the file runs out, starts no upload of
    the file and leaves it exactly one armed timer, due one delay after the
    last save of the file; once that time has come exactly one upload of
    the file has been started, at that time, and no timer of it is left.
    Nothing is promised about an upload still in flight when a later save
    arms a new timer. *)
Theorem burst_of_saves_uploads_once env filePath history first events :
  pendingOf filePath (run env history initial) = [] ->
  now (run env history initial) <= first ->
  withinWindow env filePath first first events ->
  uploadsOf filePath
    (run env events
       (step env (run env history initial)
          {| save_time := first; save_file := filePath |}))
  = uploadsOf filePath (run env history initial)
  /\ (exists handle,
        pendingOf filePath
          (run env events
             (step env (run env history initial)
                {| save_time := first; save_file := filePath |}))
        = [{| timer_id := handle; timer_file := filePath;
              timer_due := lastSaveOf filePath first events + delayOf env |}])
  /\ (forall time,
        lastSaveOf filePath first events + delayOf env <= time ->
        uploadsOf filePath
          (advanceTo env time
             (run env events
                (step env (run env history initial)
                   {| save_time := first; save_file := filePath |})))
        = (uploadsOf filePath (run env history initial) ++
           [uploadAt env filePath
              (lastSaveOf filePath first events + delayOf env)])%list
        /\ pendingOf filePath
             (advanceTo env time
                (run env events
                   (step env (run env history initial)
                      {| save_time := first; save_file := filePath |})))
           = []).
Proof.
  set (s0 := run env history initial). intros Hidle Hnow Hwindow.
  assert (bounded s0) as Hbounded by apply run_bounded, bounded_initial.
  set (s1 := step env s0 {| save_time := first; save_file := filePath |}).
  destruct (advanceTo_idle env filePath first s0 Hidle) as [Hidle' Huploads].
  pose proof (advanceTo_bounded env first s0 Hbounded) as Hbounded'.
  pose proof (advanceTo_now env first s0 Hnow) as Htime.
  pose proof (delayOf_positive env) as Hpositive.
  pose proof (debounceUpload_restarts env filePath _ Hbounded' (or_introl Hidle'))
    as Htracked.
  change (debounceUpload env filePath (advanceTo env first s0)) with s1
    in Htracked.
  assert (now s1 = first) as Htime1 by exact Htime.
  assert (bounded s1) as Hbounded1 by now apply bounded_debounceUpload.
  destruct (run_within env filePath events s1 _ first Hbounded1 Htracked)
    as (_ & Hquiet & t1 & Htracked1 & Hdue & Hbefore).
  - cbn [timer_due]. now rewrite Htime.
  - cbn [timer_due]. rewrite Htime1, Htime. lia.
  - now rewrite Htime1.
  - split; [rewrite Hquiet; exact Huploads|]. split.
    + exists (timer_id t1). destruct Htracked1 as (Hfile & Hone & _).
      rewrite Hone. destruct t1. simpl in *. now subst.
    + intros time Hlate. rewrite <- Hdue in Hlate |- *.
      destruct (advanceTo_fires env filePath time t1 _ Htracked1) as [Hfires Hgone];
        [lia|exact Hlate|].
      rewrite Hfires, Hquiet. split; [|exact Hgone].
      f_equal. exact Huploads.
Qed.

Lemma burst_of_saves_uploads_once_witness :
  uploadsOf "/w/src/a.js"
    (advanceTo Examples.slowNetwork 2500
       (run Examples.slowNetwork Examples.burst
          (step Examples.slowNetwork (run Examples.slowNetwork [] initial)
             {| save_time := 100; save_file := "/w/src/a.js" |})))
  = [uploadAt Examples.slowNetwork "/w/src/a.js" 1900].
Proof.
  destruct (burst_of_saves_uploads_once Examples.slowNetwork "/w/src/a.js"
              [] 100 Examples.burst) as (_ & _ & Hfires).
  - reflexivity.
  - simpl. lia.
  - vm_compute. lia.
  - destruct (Hfires 2500) as [Hupload _]; [vm_compute; lia|]. exact Hupload.
Defined.

End DispatcherFacts.

(** ** The paths of the RESTlet *)

Module PathFacts.
Import Js Restlet.

(** *** Characters *)

Lemma isSpace_not_slash c : isSpace c = true -> isSlash c = false.
Proof.
  unfold isSpace, isSlash. intros H.
  destruct (Ascii.eqb_spec c "/"%char) as [->|_]; [|reflexivity].
  vm_compute in H. discriminate.
Qed.

Lemma isSpace_not_backslash c : isSpace c = true -> isBackslash c = false.
Proof.
  unfold isSpace, isBackslash. intros H.
  destruct (Ascii.eqb_spec c "\"%char) as [->|_]; [|reflexivity].
  vm_compute in H. discriminate.
Qed.

(** *** [trim] *)

Lemma trimEnd_cons c s :
  trimEnd (String c s)
  = if isSpace c && isEmpty (trimEnd s) then "" else String c (trimEnd s).
Proof. reflexivity. Qed.

Lemma trimEnd_fixed_cons c s :
  trimEnd (String c s) = String c s <->
  trimEnd s = s /\ (isSpace c = false \/ isEmpty s = false).
Proof.
  rewrite trimEnd_cons. split.
  - destruct (isSpace c) eqn:Hc; cbn [andb].
    + destruct (isEmpty (trimEnd s)) eqn:He; [discriminate|].
      intros [= H]. split; [exact H|]. right. now rewrite <- H.
    + intros [= H]. split; [exact H|now left].
  - intros [Hs Hor]. rewrite Hs.
    destruct Hor as [-> | ->]; [reflexivity|now rewrite andb_false_r].
Qed.

Lemma trimEnd_idempotent s : trimEnd (trimEnd s) = trimEnd s.
Proof.
  induction s as [|c s IH]; [reflexivity|]. rewrite trimEnd_cons.
  destruct (isSpace c && isEmpty (trimEnd s)) eqn:E; [reflexivity|].
  apply trimEnd_fixed_cons. split; [exact IH|].
  apply andb_false_iff in E. exact E.
Qed.

Lemma trimStart_trimmed s :
  trimStart s = "" \/ exists c r, trimStart s = String c r /\ isSpace c = false.
Proof.
  induction s as [|c s IH]; [now left|]. cbn [trimStart].
  destruct (isSpace c) eqn:Hc; [exact IH|]. right. now exists c, s.
Qed.

Lemma trimEnd_head c r :
  isSpace c = false -> exists r', trimEnd (String c r) = String c r'.
Proof. intros Hc. rewrite trimEnd_cons, Hc. now eexists. Qed.

(** A trimmed string is empty, or starts and ends outside white space. *)
Lemma trim_shape s :
  trimEnd (trim s) = trim s
  /\ (trim s = "" \/ exists c r, trim s = String c r /\ isSpace c = false).
Proof.
  unfold trim. split; [apply trimEnd_idempotent|].
  destruct (trimStart_trimmed s) as [->|(c & r & -> & Hc)]; [now left|].
  right. destruct (trimEnd_head c r Hc) as [r' ->]. now exists c, r'.
Qed.

Lemma trim_fixed s c r :
  s = String c r -> isSpace c = false -> trimEnd s = s -> trim s = s.
Proof. intros -> Hc He. unfold trim. cbn [trimStart]. now rewrite Hc. Qed.

(** *** Replacing characters *)

Lemma mapChars_isEmpty f s : isEmpty (mapChars f s) = isEmpty s.
Proof. now destruct s. Qed.

Lemma trimEnd_mapChars f s :
  (forall c, isSpace (f c) = isSpace c) ->
  trimEnd (mapChars f s) = mapChars f (trimEnd s).
Proof.
  intros Hf. induction s as [|c s IH]; [reflexivity|].
  cbn [mapChars]. rewrite !trimEnd_cons, IH, Hf, mapChars_isEmpty.
  now destruct (isSpace c && isEmpty (trimEnd s)).
Qed.

Lemma toSlash_isSpace c :
  isSpace (if isBackslash c then "/"%char else c) = isSpace c.
Proof.
  destruct (isBackslash c) eqn:Hb; [|reflexivity].
  destruct (isSpace c) eqn:Hs; [|reflexivity].
  apply isSpace_not_backslash in Hs. congruence.
Qed.

Lemma backslashesToSlashes_idempotent s :
  backslashesToSlashes (backslashesToSlashes s) = backslashesToSlashes s.
Proof.
  unfold backslashesToSlashes. induction s as [|c s IH]; [reflexivity|].
  cbn [mapChars]. rewrite IH. f_equal.
  destruct (isBackslash c) eqn:Hc; [reflexivity|now rewrite Hc].
Qed.

Lemma backslashesToSlashes_cons c s :
  backslashesToSlashes (String c s)
  = String (if isBackslash c then "/"%char else c) (backslashesToSlashes s).
Proof. reflexivity. Qed.

Lemma backslashesToSlashes_fixed_cons c s :
  backslashesToSlashes (String c s) = String c s <->
  isBackslash c = false /\ backslashesToSlashes s = s.
Proof.
  rewrite backslashesToSlashes_cons. split.
  - intros [= Hc Hs]. split; [|exact Hs].
    destruct (isBackslash c) eqn:E; [|reflexivity]. subst c. discriminate.
  - intros [-> ->]. reflexivity.
Qed.

(** *** [collapseSlashes] *)

Lemma collapseSlashes_isEmpty s : isEmpty (collapseSlashes s) = isEmpty s.
Proof.
  induction s as [|c s IH]; [reflexivity|]. cbn [collapseSlashes isEmpty].
  destruct (isSlash c); [|reflexivity].
  destruct s as [|c' s']; [reflexivity|].
  destruct (isSlash c'); [exact IH|reflexivity].
Qed.

Lemma collapseSlashes_unfold c s :
  collapseSlashes (String c s)
  = if isSlash c && startsWith s "/" then collapseSlashes s
    else String c (collapseSlashes s).
Proof.
  cbn [collapseSlashes]. destruct (isSlash c); [|reflexivity].
  destruct s as [|c' s']; [reflexivity|].
  rewrite JsFacts.startsWith_slash_cons. cbn [andb].
  now destruct (isSlash c').
Qed.

Lemma collapseSlashes_fixed s : slashFree s -> collapseSlashes s = s.
Proof.
  induction s as [|c s IH]; [reflexivity|]. intros Hs.
  rewrite collapseSlashes_unfold. destruct s as [|c' s']; [now rewrite andb_false_r|].
  cbn [slashFree] in Hs. destruct Hs as [Hcc Hs].
  rewrite JsFacts.startsWith_slash_cons, Hcc, IH by exact Hs. reflexivity.
Qed.

Lemma collapseSlashes_idempotent s :
  collapseSlashes (collapseSlashes s) = collapseSlashes s.
Proof. apply collapseSlashes_fixed, JsFacts.collapseSlashes_slashFree. Qed.

Lemma trimEnd_collapseSlashes s :
  trimEnd s = s -> trimEnd (collapseSlashes s) = collapseSlashes s.
Proof.
  induction s as [|c s IH]; [reflexivity|]. intros H.
  apply trimEnd_fixed_cons in H as [Hs Hor]. specialize (IH Hs).
  rewrite collapseSlashes_unfold.
  destruct (isSlash c && startsWith s "/") eqn:E; [exact IH|].
  apply trimEnd_fixed_cons. split; [exact IH|].
  rewrite collapseSlashes_isEmpty. exact Hor.
Qed.

Lemma backslashesToSlashes_collapseSlashes s :
  backslashesToSlashes s = s ->
  backslashesToSlashes (collapseSlashes s) = collapseSlashes s.
Proof.
  induction s as [|c s IH]; [reflexivity|]. intros H.
  apply backslashesToSlashes_fixed_cons in H as [Hc Hs]. specialize (IH Hs).
  rewrite collapseSlashes_unfold.
  destruct (isSlash c && startsWith s "/"); [exact IH|].
  apply backslashesToSlashes_fixed_cons. now split.
Qed.

Lemma slashFree_cons_slash s :
  slashFree s -> startsWith s "/" = false -> slashFree (String "/"%char s).
Proof.
  intros Hs Hstart. destruct s as [|c s']; [exact I|].
  cbn [slashFree]. rewrite JsFacts.startsWith_slash_cons in Hstart.
  split; [|exact Hs]. now rewrite Hstart, andb_false_r.
Qed.

Lemma slashFree_second r :
  slashFree (String "/"%char r) -> startsWith r "/" = false.
Proof.
  destruct r as [|c r]; [reflexivity|]. cbn [slashFree]. intros [H _].
  rewrite JsFacts.startsWith_slash_cons. exact H.
Qed.

(** *** Backslashes *)

Lemma includes_backslash_cons c s :
  includes (String c s) "\" = isBackslash c || includes s "\".
Proof.
  unfold includes. cbn [indexOf startsWith]. unfold isBackslash.
  rewrite (Ascii.eqb_sym "\"%char c), andb_true_r.
  destruct (Ascii.eqb c "\"%char); [reflexivity|]. cbn [orb].
  now destruct (indexOf s "\").
Qed.

Lemma includes_backslash_fixed s :
  backslashesToSlashes s = s -> includes s "\" = false.
Proof.
  induction s as [|c s IH]; [reflexivity|]. intros H.
  apply backslashesToSlashes_fixed_cons in H as [Hc Hs].
  now rewrite includes_backslash_cons, Hc, IH.
Qed.

(** *** [sanitizePath] *)


Lemma sanitizePath_is_canonical p : canonical (sanitizePath p).
Proof.
  unfold sanitizePath.
  set (t := trim p).
  set (c := collapseSlashes (backslashesToSlashes t)).
  assert (slashFree c) as Hfree by apply JsFacts.collapseSlashes_slashFree.
  assert (backslashesToSlashes c = c) as Hforward
    by apply backslashesToSlashes_collapseSlashes, backslashesToSlashes_idempotent.
  assert (trimEnd c = c) as Hend.
  { apply trimEnd_collapseSlashes. unfold backslashesToSlashes.
    rewrite trimEnd_mapChars by apply toSlash_isSpace.
    f_equal. apply trim_shape. }
  destruct (startsWith c "/") eqn:Hstart; [now split|].
  split.
  - now apply slashFree_cons_slash.
  - change ("/" ++ c) with (String "/"%char c).
    apply backslashesToSlashes_fixed_cons. now split.
  - change ("/" ++ c) with (String "/"%char c).
    apply trimEnd_fixed_cons. split; [exact Hend|now left].
  - reflexivity.
Qed.

Lemma sanitizePath_fixed s : canonical s -> sanitizePath s = s.
Proof.
  intros [Hfree Hforward Hend Hroot]. unfold sanitizePath.
  destruct (JsFacts.startsWith_slash s Hroot) as [r Hr].
  rewrite (trim_fixed s "/"%char r Hr eq_refl Hend), Hforward.
  rewrite collapseSlashes_fixed by exact Hfree. now rewrite Hroot.
Qed.

(** X1. Whatever it is given, [sanitizePath] answers a path of one
    shape: it starts with exactly one slash, holds no backslash and no
    doubled slash, and has no white space at either end. *)
Theorem sanitizePath_canonical_form (filePath : string) :
  exists rest,
    sanitizePath filePath = String "/"%char rest
    /\ startsWith rest "/" = false
    /\ includes (sanitizePath filePath) "\" = false
    /\ (forall a b, sanitizePath filePath <> a ++ "//" ++ b)
    /\ trim (sanitizePath filePath) = sanitizePath filePath.
Proof.
  destruct (sanitizePath_is_canonical filePath) as [Hfree Hforward Hend Hroot].
  destruct (JsFacts.startsWith_slash _ Hroot) as [rest Hrest].
  exists rest. split; [exact Hrest|]. split.
  - rewrite Hrest in Hfree. now apply slashFree_second.
  - split; [now apply includes_backslash_fixed|]. split.
    + now apply JsFacts.slashFree_no_double.
    + now apply (trim_fixed _ "/"%char rest).
Qed.

(** X2. [sanitizePath] is idempotent: a sanitised path is sanitised
    to itself. *)
Theorem sanitizePath_idempotent (filePath : string) :
  sanitizePath (sanitizePath filePath) = sanitizePath filePath.
Proof. apply sanitizePath_fixed, sanitizePath_is_canonical. Qed.

(** *** [split] and [join] *)

Lemma split_cons sep c s :
  split sep (String c s)
  = if Ascii.eqb c sep then "" :: split sep s
    else match split sep s with
         | [] => [String c ""]
         | h :: t => String c h :: t
         end.
Proof. reflexivity. Qed.

Lemma split_not_nil sep s : split sep s <> [].
Proof.
  induction s as [|c s IH]; [discriminate|]. rewrite split_cons.
  destruct (Ascii.eqb c sep); [discriminate|].
  now destruct (split sep s).
Qed.

Lemma join_cons sep p q rest :
  join sep (p :: q :: rest) = p ++ sep ++ join sep (q :: rest).
Proof. reflexivity. Qed.

(** [s.split(sep).join(sep)] gives [s] back. *)
Lemma join_split sep s : join (String sep "") (split sep s) = s.
Proof.
  induction s as [|c s IH]; [reflexivity|]. rewrite split_cons.
  destruct (Ascii.eqb_spec c sep) as [->|Hc].
  - pose proof (split_not_nil sep s) as Hne.
    destruct (split sep s) as [|h t] eqn:E; [contradiction|].
    rewrite join_cons, IH. reflexivity.
  - pose proof (split_not_nil sep s) as Hne.
    destruct (split sep s) as [|h t] eqn:E; [contradiction|].
    destruct t as [|q t].
    + cbn [join] in IH |- *. now rewrite IH.
    + rewrite join_cons in IH |- *.
      change (String c h ++ String sep "" ++ join (String sep "") (q :: t))
        with (String c (h ++ String sep "" ++ join (String sep "") (q :: t))).
      now rewrite IH.
Qed.

Lemma includes_char_cons sep c s :
  includes (String c s) (String sep "") = Ascii.eqb sep c || includes s (String sep "").
Proof.
  unfold includes. cbn [indexOf startsWith]. rewrite andb_true_r.
  destruct (Ascii.eqb sep c); [reflexivity|]. cbn [orb].
  now destruct (indexOf s (String sep "")).
Qed.

(** No part of a split holds the separator. *)
Lemma split_parts sep s p :
  In p (split sep s) -> includes p (String sep "") = false.
Proof.
  revert p. induction s as [|c s IH]; intros p.
  - intros [<-|[]]. reflexivity.
  - rewrite split_cons. destruct (Ascii.eqb_spec c sep) as [->|Hc].
    + intros [<-|Hp]; [reflexivity|now apply IH].
    + pose proof (split_not_nil sep s) as Hne.
      destruct (split sep s) as [|h t] eqn:E; [contradiction|].
      intros [<-|Hp].
      * rewrite includes_char_cons, IH by now left.
        destruct (Ascii.eqb_spec sep c) as [->|_]; [now elim Hc|reflexivity].
      * apply IH. now right.
Qed.

Lemma join_snoc sep init x :
  init <> [] -> join sep (init ++ [x]) = join sep init ++ sep ++ x.
Proof.
  induction init as [|p init IH]; [contradiction|]. intros _.
  destruct init as [|q init]; [reflexivity|].
  change ((p :: q :: init) ++ [x])%list with (p :: (q :: init) ++ [x])%list.
  change ((q :: init) ++ [x])%list with (q :: init ++ [x])%list.
  rewrite !join_cons.
  change (q :: init ++ [x])%list with ((q :: init) ++ [x])%list.
  rewrite IH by discriminate.
  now rewrite !JsFacts.append_assoc.
Qed.

Lemma stripLeadingSlashes_start s : startsWith (stripLeadingSlashes s) "/" = false.
Proof.
  induction s as [|c s IH]; [reflexivity|]. cbn [stripLeadingSlashes].
  destruct (isSlash c) eqn:Hc; [exact IH|].
  now rewrite JsFacts.startsWith_slash_cons.
Qed.

Lemma stripLeadingSlashes_rooted r :
  startsWith r "/" = false -> stripLeadingSlashes (String "/"%char r) = r.
Proof.
  intros Hr. cbn [stripLeadingSlashes]. change (isSlash "/") with true. cbn.
  destruct r as [|c r]; [reflexivity|].
  rewrite JsFacts.startsWith_slash_cons in Hr. cbn [stripLeadingSlashes].
  now rewrite Hr.
Qed.

Lemma isEmpty_true s : isEmpty s = true -> s = "".
Proof. now destruct s. Qed.

(** The parts of [parseFilePath] put the path together again. *)
Lemma parts_rejoin cleanPath :
  startsWith cleanPath "/" = false ->
  cleanPath
  = (if isEmpty (join "/" (removelast (split "/" cleanPath)))
     then pop (split "/" cleanPath)
     else join "/" (removelast (split "/" cleanPath)) ++ "/"
          ++ pop (split "/" cleanPath)).
Proof.
  intros Hstart. pose proof (join_split "/" cleanPath) as Hjoin.
  pose proof (split_not_nil "/" cleanPath) as Hne.
  rewrite (app_removelast_last "" Hne) in Hjoin. unfold pop.
  destruct (removelast (split "/" cleanPath)) as [|p init] eqn:E.
  - cbn [join isEmpty]. exact (eq_sym Hjoin).
  - rewrite join_snoc in Hjoin by discriminate.
    destruct (isEmpty (join "/" (p :: init))) eqn:He; [|exact (eq_sym Hjoin)].
    apply isEmpty_true in He. rewrite He in Hjoin.
    rewrite <- Hjoin in Hstart. discriminate.
Qed.

(** X3. The parts [parseFilePath] cuts a path into go together
    again: the full path is the folder path, a slash and the file name
    (the file name alone when the folder path is empty); the file name
    holds no slash; and a sanitised path is a slash followed by the full
    path of its parts. *)
Theorem parseFilePath_rejoins (filePath : string) :
  fullPath (parseFilePath filePath)
  = (if isEmpty (folderPath (parseFilePath filePath))
     then fileName (parseFilePath filePath)
     else folderPath (parseFilePath filePath) ++ "/"
          ++ fileName (parseFilePath filePath))
  /\ includes (fileName (parseFilePath filePath)) "/" = false
  /\ sanitizePath filePath
     = "/" ++ fullPath (parseFilePath (sanitizePath filePath)).
Proof.
  split; [|split].
  - apply parts_rejoin, stripLeadingSlashes_start.
  - apply (split_parts "/"%char (stripLeadingSlashes filePath)).
    unfold parseFilePath, fileName, pop.
    pose proof (split_not_nil "/" (stripLeadingSlashes filePath)) as Hne.
    rewrite (app_removelast_last "" Hne) at 2.
    apply in_or_app. right. now left.
  - destruct (sanitizePath_is_canonical filePath) as [Hfree _ _ Hroot].
    destruct (JsFacts.startsWith_slash _ Hroot) as [rest Hrest].
    rewrite Hrest in *. cbn [parseFilePath fullPath].
    rewrite stripLeadingSlashes_rooted by now apply slashFree_second.
    reflexivity.
Qed.

End PathFacts.

(** ** What the RESTlet reads and what it writes *)

Module FrameFacts.
Import Js Eff Restlet.

Section Frames.
Variable R : World -> World -> Prop.
Variable allowed : Call -> Prop.
Hypothesis F : ReadFrame R allowed.

Local Abbreviation steps m := (forall w, R w (snd (m w))).

Lemma ret_steps {A} (a : A) : steps (ret (W := World) a).
Proof. intros w. apply (frame_refl _ _ F). Qed.

Lemma bind_steps {A B} (m : M A) (k : A -> M B) :
  steps m -> (forall a, steps (k a)) -> steps (bind m k).
Proof.
  intros Hm Hk w. unfold bind. specialize (Hm w).
  destruct (m w) as [[e|a] w']; cbn [snd] in *; [exact Hm|].
  eapply (frame_trans _ _ F); [exact Hm|apply Hk].
Qed.

Lemma tryCatch_steps {A} (m : M A) (h : Exn -> M A) :
  steps m -> (forall e, steps (h e)) -> steps (tryCatch m h).
Proof.
  intros Hm Hh w. unfold tryCatch. specialize (Hm w).
  destruct (m w) as [[e|a] w']; cbn [snd] in *; [|exact Hm].
  eapply (frame_trans _ _ F); [exact Hm|apply Hh].
Qed.

Lemma invoke_steps {A} c (op : World -> (Exn + A) * World) :
  allowed c -> (forall w, R w (snd (op w))) -> steps (invoke c op).
Proof.
  intros Hc Hop w. unfold invoke.
  destruct (hd false (faults w)).
  - cbn [snd]. apply (frame_call _ _ F) with (l := tl (faults w)); [exact Hc|apply (frame_refl _ _ F)].
  - specialize (Hop (setFaults (tl (faults w)) w)).
    destruct (op (setFaults (tl (faults w)) w)) as [[e|a] w2]; cbn [snd] in *;
      now apply (frame_call _ _ F) with (l := tl (faults w)).
Qed.

Lemma query_steps {A} sql params (eval : World -> Exn + A) :
  steps (invoke (RunSuiteQL sql params) (fun w => (eval w, w))).
Proof. apply invoke_steps; [apply (frame_query _ _ F)|]. intros w. apply (frame_refl _ _ F). Qed.

Lemma findFolderByPath_steps folderPath : steps (findFolderByPath folderPath).
Proof.
  unfold findFolderByPath. destruct (isEmpty folderPath); [apply ret_steps|].
  apply tryCatch_steps; [|intros; apply ret_steps].
  unfold queryFolderChain.
  destruct (skipSuiteScripts (pathSegments folderPath)) as [|first rest];
    [apply ret_steps|].
  apply bind_steps; [apply query_steps|].
  intros [|id ids]; [apply ret_steps|].
  destruct (truthyId id); apply ret_steps.
Qed.

Lemma findFileByFullPath_steps filePath folderPath name :
  steps (findFileByFullPath filePath folderPath name).
Proof.
  unfold findFileByFullPath.
  apply tryCatch_steps; [|intros; apply ret_steps].
  apply bind_steps; [apply findFolderByPath_steps|].
  intros [folderId|]; [|apply ret_steps].
  destruct (negb (truthyId folderId)); [apply ret_steps|].
  apply bind_steps; [apply query_steps|].
  intros [|row rows]; apply ret_steps.
Qed.

Section Writes.
Variable target : string.
Hypothesis G : WriteFrame R allowed target.

Lemma folderSave_steps name parent : steps (folderSave name parent).
Proof.
  apply invoke_steps; [apply (frame_folderSave _ _ _ G)|]. intros w.
  apply (frame_folder _ _ _ G).
Qed.

Lemma traverse_steps parts : forall index current,
  steps (traverse parts index current).
Proof.
  induction parts as [|folderName rest IH]; intros index current;
    [apply ret_steps|].
  cbn [traverse]. destruct (knownChild index current folderName); [apply IH|].
  apply bind_steps; [apply folderSave_steps|]. intros id. apply IH.
Qed.

Lemma findOrCreateFolderPath_steps folderPath :
  steps (findOrCreateFolderPath folderPath).
Proof.
  unfold findOrCreateFolderPath. destruct (isEmpty folderPath); [apply ret_steps|].
  apply tryCatch_steps; [|intros; apply ret_steps].
  unfold findOrCreateFolderPath_try.
  destruct (skipSuiteScripts (pathSegments folderPath)) as [|first rest];
    [apply ret_steps|].
  apply bind_steps; [apply findFolderByPath_steps|].
  intros [id|]; [apply ret_steps|].
  apply bind_steps; [apply query_steps|].
  intros allFolders. apply traverse_steps.
Qed.


Lemma fileSave_steps o : opt_name o = target -> steps (fileSave o).
Proof.
  intros Ho. apply invoke_steps; [apply (frame_fileSave _ _ _ G)|].
  intros w. now apply (frame_file _ _ _ G).
Qed.

Lemma post_steps context :
  fileName (parseFilePath (sanitizePath (default "" (path context)))) = target ->
  forall w, R w (snd (post context w)).
Proof.
  intros Htarget w. unfold post.
  destruct (validateRequest context); [|apply (frame_refl _ _ F)].
  assert (steps (post_try context)) as Hsteps.
  { unfold post_try. cbv zeta.
    destruct (_ && _); [apply ret_steps|].
    apply bind_steps; [apply findFileByFullPath_steps|].
    intros [existing|].
    - apply bind_steps; [now apply fileSave_steps|]. intros; apply ret_steps.
    - apply bind_steps.
      + destruct (folder context) as [f|]; [|apply findOrCreateFolderPath_steps].
        destruct (truthyId f); [apply ret_steps|apply findOrCreateFolderPath_steps].
      + intros folderId. apply bind_steps; [now apply fileSave_steps|].
        intros; apply ret_steps. }
  specialize (Hsteps w).
  now destruct (post_try context w) as [[e|r] w'].
Qed.

End Writes.

End Frames.

(** *** The lookups only read *)

Lemma onlyReads_refl w : onlyReads w w.
Proof.
  split; [now split|]. exists []. split; [now rewrite app_nil_r|].
  intros c b [].
Qed.

Lemma onlyReads_trans w1 w2 w3 :
  onlyReads w1 w2 -> onlyReads w2 w3 -> onlyReads w1 w3.
Proof.
  intros [[Hf1 Hg1] (d1 & Hj1 & Hd1)] [[Hf2 Hg2] (d2 & Hj2 & Hd2)].
  split; [split; congruence|].
  exists (d1 ++ d2)%list. split; [now rewrite Hj2, Hj1, app_assoc|].
  intros c b Hin. apply in_app_or in Hin as [Hin|Hin]; eauto.
Qed.

Lemma onlyReads_call c b l w w2 :
  isQuery c -> onlyReads (setFaults l w) w2 -> onlyReads w (logCall c b w2).
Proof.
  intros Hc [[Hf Hg] (d & Hj & Hd)]. split; [now split|].
  exists (d ++ [(c, b)])%list. cbn [journal logCall]. rewrite Hj.
  split; [now rewrite app_assoc|].
  intros c' b' Hin. apply in_app_or in Hin as [Hin|[[= <- <-]|[]]]; eauto.
Qed.

Lemma onlyReads_frame : ReadFrame onlyReads isQuery.
Proof.
  split; [exact onlyReads_refl|exact onlyReads_trans|exact onlyReads_call|].
  now intros.
Qed.

(** X4. The two lookups never throw and never write: whatever the
    platform calls do, [findFolderByPath] and [findFileByFullPath] return
    a value, leave the folders and the files of the cabinet as they were,
    and make no platform call but queries. *)
Theorem lookups_only_read (filePath folderPath name : string) (w : World) :
  (exists folderId, fst (findFolderByPath folderPath w) = inr folderId)
  /\ onlyReads w (snd (findFolderByPath folderPath w))
  /\ (exists existing,
        fst (findFileByFullPath filePath folderPath name w) = inr existing)
  /\ onlyReads w (snd (findFileByFullPath filePath folderPath name w)).
Proof.
  split; [apply RestletFacts.findFolderByPath_returns|]. split.
  { apply (findFolderByPath_steps onlyReads isQuery onlyReads_frame). }
  split.
  - unfold findFileByFullPath, tryCatch.
    destruct (bind _ _ w) as [[e|r] w']; now eexists.
  - apply (findFileByFullPath_steps onlyReads isQuery onlyReads_frame).
Qed.

(** *** [post] loses nothing *)

Section Keeps.
Variable target : string.

Lemma keepsCabinet_refl w : keepsCabinet target w w.
Proof.
  split; [exists []; now rewrite app_nil_r|].
  split; [exists []; now rewrite app_nil_r|auto].
Qed.

Lemma keepsCabinet_trans w1 w2 w3 :
  keepsCabinet target w1 w2 -> keepsCabinet target w2 w3 ->
  keepsCabinet target w1 w3.
Proof.
  intros ((c1 & Hc1) & (a1 & Ha1) & Hk1) ((c2 & Hc2) & (a2 & Ha2) & Hk2).
  split; [exists (c1 ++ c2)%list; now rewrite Hc2, Hc1, app_assoc|].
  split; [exists (a1 ++ a2)%list; now rewrite Ha2, Ha1, app_assoc|auto].
Qed.

Lemma keepsCabinet_call (c : Call) (b : bool) l w w2 :
  True -> keepsCabinet target (setFaults l w) w2 ->
  keepsCabinet target w (logCall c b w2).
Proof. intros _ H. exact H. Qed.

Lemma keepsCabinet_folder name parent w :
  keepsCabinet target w
    (setFolders (folders w ++
       [{| folder_id := freshId w; folder_name := name;
           folder_parent := Some parent |}]) w).
Proof.
  split; [now eexists|].
  split; [exists []; now rewrite app_nil_r|auto].
Qed.

Lemma overwrite_keeps o : forall l id l',
  overwrite o l = Some (id, l') ->
  map file_id l' = map file_id l
  /\ forall f, In f l -> file_name f <> opt_name o -> In f l'.
Proof.
  induction l as [|g l IH]; intros id l'; [discriminate|].
  cbn [overwrite]. destruct (sameNameAndFolder o g) eqn:Hsame.
  - intros [= <- <-]. split; [reflexivity|].
    intros f [<-|Hf] Hname; [|now right].
    unfold sameNameAndFolder in Hsame. apply andb_true_iff in Hsame as [Hn _].
    apply String.eqb_eq in Hn. now elim Hname.
  - destruct (overwrite o l) as [[id0 rest]|]; [|discriminate].
    intros [= <- <-]. destruct (IH _ _ eq_refl) as [Hids Hkeep].
    split; [cbn [map]; now rewrite Hids|].
    intros f [<-|Hf] Hname; [now left|right; auto].
Qed.

Lemma keepsCabinet_file o w :
  opt_name o = target ->
  keepsCabinet target w
    (snd (match opt_conflictResolution o, overwrite o (files w) with
          | Some OVERWRITE, Some (id, files') => (inr id, setFiles files' w)
          | _, _ =>
              (@inr Exn Z (freshId w),
               setFiles (files w ++ [rowOf (freshId w) o]) w)
          end)).
Proof.
  intros Ho.
  assert (keepsCabinet target w (setFiles (files w ++ [rowOf (freshId w) o]) w))
    as Happend.
  { split; [exists []; now rewrite app_nil_r|]. split.
    - eexists. cbn [files setFiles]. now rewrite map_app.
    - intros f Hf _. cbn [files setFiles]. apply in_or_app. now left. }
  destruct (opt_conflictResolution o) as [[]|]; [|exact Happend].
  destruct (overwrite o (files w)) as [[id files']|] eqn:E; [|exact Happend].
  destruct (overwrite_keeps o _ _ _ E) as [Hids Hkeep]. cbn [snd].
  split; [exists []; now rewrite app_nil_r|]. split.
  - exists []. cbn [files setFiles]. now rewrite Hids, app_nil_r.
  - intros f Hf Hname. apply Hkeep; [exact Hf|now rewrite Ho].
Qed.

Lemma keepsCabinet_reads : ReadFrame (keepsCabinet target) (fun _ => True).
Proof.
  split; [exact keepsCabinet_refl|exact keepsCabinet_trans|
          exact keepsCabinet_call|now intros].
Qed.

Lemma keepsCabinet_writes :
  WriteFrame (keepsCabinet target) (fun _ => True) target.
Proof.
  split; [now intros|exact keepsCabinet_folder|now intros|exact keepsCabinet_file].
Qed.

End Keeps.

(** X5. An upload loses nothing: after [post], whatever its outcome,
    the folders of the cabinet are those there before, followed by the
    new ones; the files there before keep their ids and their order; and
    every file whose name is not the file name of the uploaded path is as
    it was. *)
Theorem post_keeps_cabinet (context : Context) (w : World) :
  keepsCabinet
    (fileName (parseFilePath (sanitizePath (default "" (path context)))))
    w (snd (post context w)).
Proof.
  apply (post_steps (keepsCabinet _) (fun _ => True)
           (keepsCabinet_reads _) _ (keepsCabinet_writes _)).
  reflexivity.
Qed.

End FrameFacts.

(** ** The segments of a folder path *)

Module SegmentFacts.
Import Js Eff Restlet PathFacts.

Local Abbreviation plain := (fun c => negb (isSlash c) && negb (isBackslash c)).
Local Abbreviation forward := (fun c => negb (isBackslash c)).

Lemma allChars_weaken (P Q : ascii -> bool) s :
  (forall c, P c = true -> Q c = true) -> allChars P s = true -> allChars Q s = true.
Proof.
  intros HPQ. induction s as [|c s IH]; [reflexivity|]. cbn [allChars].
  intros H. apply andb_true_iff in H as [Hc Hs].
  now rewrite (HPQ c Hc), IH.
Qed.

Lemma allChars_app P a b :
  allChars P (a ++ b) = allChars P a && allChars P b.
Proof.
  induction a as [|c a IH]; [reflexivity|].
  change (String c a ++ b) with (String c (a ++ b)). cbn [allChars].
  now rewrite IH, andb_assoc.
Qed.

Lemma backslashesToSlashes_forward s :
  allChars forward (backslashesToSlashes s) = true.
Proof.
  induction s as [|c s IH]; [reflexivity|].
  rewrite backslashesToSlashes_cons. cbn [allChars]. rewrite IH, andb_true_r.
  destruct (isBackslash c) eqn:E; [reflexivity|now rewrite E].
Qed.

Lemma forward_fixed s :
  allChars forward s = true -> backslashesToSlashes s = s.
Proof.
  induction s as [|c s IH]; [reflexivity|]. cbn [allChars]. intros H.
  apply andb_true_iff in H as [Hc Hs]. apply negb_true_iff in Hc.
  apply backslashesToSlashes_fixed_cons. auto.
Qed.

Lemma collapseSlashes_allChars P s :
  allChars P s = true -> allChars P (collapseSlashes s) = true.
Proof.
  induction s as [|c s IH]; [reflexivity|]. cbn [allChars]. intros H.
  apply andb_true_iff in H as [Hc Hs]. rewrite collapseSlashes_unfold.
  destruct (isSlash c && startsWith s "/"); [auto|].
  cbn [allChars]. now rewrite Hc, IH.
Qed.

Lemma stripLeadingSlashes_allChars P s :
  allChars P s = true -> allChars P (stripLeadingSlashes s) = true.
Proof.
  induction s as [|c s IH]; [reflexivity|]. cbn [allChars stripLeadingSlashes].
  intros H. destruct (isSlash c); [|exact H].
  apply andb_true_iff in H as [_ Hs]. auto.
Qed.

Lemma stripTrailingSlashes_allChars P s :
  allChars P s = true -> allChars P (stripTrailingSlashes s) = true.
Proof.
  induction s as [|c s IH]; [reflexivity|]. cbn [allChars stripTrailingSlashes].
  intros H. apply andb_true_iff in H as [Hc Hs].
  destruct (isSlash c && isEmpty (stripTrailingSlashes s)); [reflexivity|].
  cbn [allChars]. now rewrite Hc, IH.
Qed.

Lemma split_allChars P sep s p :
  allChars P s = true -> In p (split sep s) -> allChars P p = true.
Proof.
  revert p. induction s as [|c s IH]; intros p H.
  - intros [<-|[]]. reflexivity.
  - cbn [allChars] in H. apply andb_true_iff in H as [Hc Hs].
    rewrite split_cons. destruct (Ascii.eqb c sep).
    + intros [<-|Hp]; [reflexivity|auto].
    + pose proof (split_not_nil sep s) as Hne.
      destruct (split sep s) as [|h t] eqn:E; [contradiction|].
      intros [<-|Hp]; [|apply IH; [exact Hs|now right]].
      cbn [allChars]. rewrite Hc. apply IH; [exact Hs|now left].
Qed.

Lemma includes_slash_allChars p :
  includes p "/" = false -> allChars (fun c => negb (isSlash c)) p = true.
Proof.
  induction p as [|c p IH]; [reflexivity|].
  rewrite (includes_char_cons "/"%char). intros H.
  apply orb_false_iff in H as [Hc Hp]. cbn [allChars].
  unfold isSlash. rewrite Ascii.eqb_sym, Hc. now apply IH.
Qed.

Lemma allChars_and P Q s :
  allChars P s = true -> allChars Q s = true ->
  allChars (fun c => P c && Q c) s = true.
Proof.
  induction s as [|c s IH]; [reflexivity|]. cbn [allChars]. intros HP HQ.
  apply andb_true_iff in HP as [-> HP]. apply andb_true_iff in HQ as [-> HQ].
  now rewrite IH.
Qed.

(** What [pathSegments] yields are segments. *)
Lemma pathSegments_segments folderPath p :
  In p (pathSegments folderPath) -> isSegment p = true.
Proof.
  unfold pathSegments. intros Hp. apply filter_In in Hp as [Hp Hok].
  unfold isSegment. rewrite Hok. cbn [andb].
  apply allChars_and.
  - apply includes_slash_allChars. now apply (split_parts "/"%char _ p) in Hp.
  - refine (split_allChars forward "/"%char _ p _ Hp).
    unfold stripSlashes.
    apply stripTrailingSlashes_allChars, stripLeadingSlashes_allChars,
      collapseSlashes_allChars, backslashesToSlashes_forward.
Qed.

Lemma skipSuiteScripts_In parts p :
  In p (skipSuiteScripts parts) -> In p parts.
Proof.
  destruct parts as [|first rest]; [trivial|]. cbn [skipSuiteScripts].
  destruct (String.eqb _ _); [now right|trivial].
Qed.

(** *** Joining segments and splitting them again *)

Lemma plain_head p :
  allChars plain p = true -> startsWith p "/" = false.
Proof.
  destruct p as [|c p]; [reflexivity|]. cbn [allChars]. intros H.
  apply andb_true_iff in H as [Hc _]. apply andb_true_iff in Hc as [Hc _].
  rewrite JsFacts.startsWith_slash_cons. now apply negb_true_iff.
Qed.

Lemma split_plain p :
  allChars plain p = true -> split "/" p = [p].
Proof.
  induction p as [|c p IH]; [reflexivity|]. cbn [allChars]. intros H.
  apply andb_true_iff in H as [Hc Hp]. apply andb_true_iff in Hc as [Hc _].
  rewrite split_cons, IH by exact Hp. apply negb_true_iff in Hc.
  unfold isSlash in Hc. now rewrite Hc.
Qed.

Lemma split_plain_app p r :
  allChars plain p = true -> split "/" (p ++ "/" ++ r) = p :: split "/" r.
Proof.
  induction p as [|c p IH]; [reflexivity|]. cbn [allChars]. intros H.
  apply andb_true_iff in H as [Hc Hp]. apply andb_true_iff in Hc as [Hc _].
  change (String c p ++ "/" ++ r) with (String c (p ++ "/" ++ r)).
  rewrite split_cons, IH by exact Hp. apply negb_true_iff in Hc.
  unfold isSlash in Hc. now rewrite Hc.
Qed.

Lemma slashFree_plain_app p r :
  allChars plain p = true -> isEmpty p = false ->
  slashFree r -> startsWith r "/" = false -> slashFree (p ++ "/" ++ r).
Proof.
  intros Hp Hne Hr Hstart. induction p as [|c p IH]; [discriminate|].
  cbn [allChars] in Hp. apply andb_true_iff in Hp as [Hc Hp].
  apply andb_true_iff in Hc as [Hc _]. apply negb_true_iff in Hc.
  change (String c p ++ "/" ++ r) with (String c (p ++ "/" ++ r)).
  destruct p as [|c' p'].
  - change ("" ++ "/" ++ r) with (String "/"%char r). cbn [slashFree].
    rewrite Hc. split; [reflexivity|]. now apply slashFree_cons_slash.
  - change (String c' p' ++ "/" ++ r) with (String c' (p' ++ "/" ++ r)) in *.
    cbn [slashFree]. rewrite Hc. split; [reflexivity|]. now apply IH.
Qed.

Lemma slashFree_plain p : allChars plain p = true -> slashFree p.
Proof.
  induction p as [|c p IH]; [intros; exact I|]. cbn [allChars]. intros H.
  apply andb_true_iff in H as [Hc Hp]. apply andb_true_iff in Hc as [Hc _].
  apply negb_true_iff in Hc. destruct p as [|c' p']; [exact I|].
  split; [now rewrite Hc|exact (IH Hp)].
Qed.

Lemma stripTrailingSlashes_plain p :
  allChars plain p = true -> stripTrailingSlashes p = p.
Proof.
  induction p as [|c p IH]; [reflexivity|]. cbn [allChars]. intros H.
  apply andb_true_iff in H as [Hc Hp]. apply andb_true_iff in Hc as [Hc _].
  apply negb_true_iff in Hc. cbn [stripTrailingSlashes].
  now rewrite Hc, IH.
Qed.

Lemma stripTrailingSlashes_app a b :
  isEmpty (stripTrailingSlashes b) = false ->
  stripTrailingSlashes (a ++ b) = a ++ stripTrailingSlashes b.
Proof.
  intros Hb. induction a as [|c a IH]; [reflexivity|].
  change (String c a ++ b) with (String c (a ++ b)).
  cbn [stripTrailingSlashes]. rewrite IH.
  replace (isEmpty (a ++ stripTrailingSlashes b)) with false;
    [now rewrite andb_false_r|].
  destruct a as [|c' a']; [|reflexivity].
  change ("" ++ stripTrailingSlashes b) with (stripTrailingSlashes b).
  now rewrite Hb.
Qed.

Lemma stripLeadingSlashes_fixed s :
  startsWith s "/" = false -> stripLeadingSlashes s = s.
Proof.
  destruct s as [|c s]; [reflexivity|].
  rewrite JsFacts.startsWith_slash_cons. cbn [stripLeadingSlashes].
  now intros ->.
Qed.

Lemma isSegment_plain p : isSegment p = true -> allChars plain p = true.
Proof. unfold isSegment. intros H. now apply andb_true_iff in H as [_ H]. Qed.

Lemma isSegment_nonempty p : isSegment p = true -> isEmpty p = false.
Proof.
  unfold isSegment, truthy. intros H. apply andb_true_iff in H as [H _].
  apply andb_true_iff in H as [H _]. now apply negb_true_iff.
Qed.

Lemma startsWith_app_nonempty p r :
  isEmpty p = false -> startsWith (p ++ r) "/" = startsWith p "/".
Proof. destruct p as [|c p]; [discriminate|]. reflexivity. Qed.

(** The joined segments are in normal form, and split into themselves. *)
Lemma join_segments parts :
  parts <> [] -> Forall (fun p => isSegment p = true) parts ->
  allChars forward (join "/" parts) = true
  /\ slashFree (join "/" parts)
  /\ startsWith (join "/" parts) "/" = false
  /\ stripTrailingSlashes (join "/" parts) = join "/" parts
  /\ isEmpty (join "/" parts) = false
  /\ split "/" (join "/" parts) = parts.
Proof.
  induction parts as [|p parts IH]; [contradiction|]. intros _ Hall.
  apply Forall_cons_iff in Hall as [Hp Hall].
  pose proof (isSegment_plain p Hp) as Hplain.
  pose proof (isSegment_nonempty p Hp) as Hne.
  assert (allChars forward p = true) as Hforward.
  { eapply allChars_weaken; [|exact Hplain].
    intros c Hc. now apply andb_true_iff in Hc as [_ Hc]. }
  destruct parts as [|q parts].
  - cbn [join]. repeat split; auto using slashFree_plain, plain_head,
      stripTrailingSlashes_plain, split_plain.
  - destruct (IH ltac:(discriminate) Hall) as (Hf & Hs & Hh & Ht & He & Hsp).
    rewrite join_cons. repeat split.
    + rewrite !allChars_app, Hforward, Hf. reflexivity.
    + now apply slashFree_plain_app.
    + rewrite startsWith_app_nonempty by exact Hne. now apply plain_head.
    + rewrite <- JsFacts.append_assoc, stripTrailingSlashes_app, Ht;
        [reflexivity|now rewrite Ht].
    + now destruct p.
    + rewrite split_plain_app, Hsp by exact Hplain. reflexivity.
Qed.

Lemma filter_segments parts :
  Forall (fun p => isSegment p = true) parts ->
  List.filter (fun p => truthy p && negb (String.eqb (trim p) "")) parts = parts.
Proof.
  induction 1 as [|p parts Hp _ IH]; [reflexivity|]. cbn [List.filter].
  unfold isSegment in Hp. apply andb_true_iff in Hp as [Hp _].
  now rewrite Hp, IH.
Qed.

(** [parts.join('/')] is read back as [parts]. *)
Lemma pathSegments_join parts :
  Forall (fun p => isSegment p = true) parts ->
  pathSegments (join "/" parts) = parts.
Proof.
  intros Hall. destruct parts as [|p parts]; [reflexivity|].
  destruct (join_segments (p :: parts) ltac:(discriminate) Hall)
    as (Hf & Hs & Hh & Ht & He & Hsp).
  unfold pathSegments, stripSlashes.
  rewrite (forward_fixed _ Hf), (collapseSlashes_fixed _ Hs),
    (stripLeadingSlashes_fixed _ Hh), Ht, Hsp.
  now apply filter_segments.
Qed.

End SegmentFacts.

(** ** The RESTlet on a day without faults *)

Module QuietFacts.
Import Js Eff Restlet PathFacts SegmentFacts FrameFacts.

Lemma quiet_head w : faults w = [] -> hd false (faults w) = false.
Proof. now intros ->. Qed.

Lemma findFolderByPath_quiet folderPath w :
  faults w = [] ->
  exists w',
    findFolderByPath folderPath w
    = (inr (resolveFolder (folders w) folderPath), w')
    /\ quietly w w'.
Proof.
  intros Hquiet. unfold findFolderByPath, resolveFolder.
  destruct (isEmpty folderPath); [exists w; now repeat split|].
  destruct (skipSuiteScripts (pathSegments folderPath)) as [|first rest];
    [exists w; now repeat split|].
  unfold tryCatch, queryFolderChain, bind, runFolderChainQuery.
  rewrite RestletFacts.invoke_answers by now apply quiet_head.
  rewrite RestletFacts.evalFolderChain_built.
  change (folders (setFaults (tl (faults w)) w)) with (folders w).
  destruct (walk (folders w) (defaultRootFolder CONFIG) (first :: rest))
    as [|id ids]; cbn [firstId].
  - eexists. split; [reflexivity|]. unfold quietly. cbn. now rewrite Hquiet.
  - destruct (truthyId id); eexists; (split; [reflexivity|]);
      unfold quietly; cbn; now rewrite Hquiet.
Qed.

Lemma findFileByFullPath_quiet filePath folderPath name w folderId :
  faults w = [] ->
  resolveFolder (folders w) folderPath = Some folderId ->
  truthyId folderId = true ->
  exists w',
    findFileByFullPath filePath folderPath name w
    = (inr match filesNamed name folderId (files w) with
           | row :: _ => Some {| existing_id := file_id row;
                                 existing_name := file_name row;
                                 existing_folderId := folderId |}
           | [] => None
           end, w')
    /\ quietly w w'.
Proof.
  intros Hquiet Hfolder Htruthy. unfold findFileByFullPath, tryCatch, bind.
  destruct (findFolderByPath_quiet folderPath w Hquiet) as (w1 & -> & Hq1 & Hf1 & Hg1).
  rewrite Hfolder, Htruthy. cbn [negb]. unfold runFileQuery.
  rewrite RestletFacts.invoke_answers by now apply quiet_head.
  cbn [evalFileQuery].
  change (files (setFaults (tl (faults w1)) w1)) with (files w1).
  rewrite Hg1. fold (filesNamed name folderId (files w)).
  destruct (filesNamed name folderId (files w)) as [|row rows];
    eexists; (split; [reflexivity|]); unfold quietly; cbn; now rewrite Hq1.
Qed.

(** With the folder there [findOrCreateFolderPath] answers it and
    creates nothing. *)
Lemma findOrCreateFolderPath_quiet folderPath w folderId :
  faults w = [] ->
  resolveFolder (folders w) folderPath = Some folderId ->
  skipSuiteScripts (skipSuiteScripts (pathSegments folderPath))
  = skipSuiteScripts (pathSegments folderPath) ->
  exists w',
    findOrCreateFolderPath folderPath w = (inr folderId, w') /\ quietly w w'.
Proof.
  intros Hquiet Hfolder Hskip. unfold findOrCreateFolderPath.
  unfold resolveFolder in Hfolder.
  destruct (isEmpty folderPath).
  { injection Hfolder as <-. exists w; now repeat split. }
  unfold tryCatch, findOrCreateFolderPath_try.
  destruct (skipSuiteScripts (pathSegments folderPath)) as [|first rest] eqn:Hparts.
  { injection Hfolder as <-. exists w; now repeat split. }
  assert (Forall (fun p => isSegment p = true) (first :: rest)) as Hsegments.
  { apply List.Forall_forall. intros p Hp. rewrite <- Hparts in Hp.
    apply skipSuiteScripts_In in Hp. now apply pathSegments_segments in Hp. }
  destruct (findFolderByPath_quiet (join "/" (first :: rest)) w Hquiet)
    as (w1 & Hfind & Hq1).
  unfold bind. rewrite Hfind.
  unfold resolveFolder.
  destruct (join_segments (first :: rest) ltac:(discriminate) Hsegments)
    as (_ & _ & _ & _ & -> & _).
  rewrite (pathSegments_join _ Hsegments), Hskip, Hfolder.
  now exists w1.
Qed.

Lemma fileSave_appends o w :
  faults w = [] -> opt_conflictResolution o = None ->
  exists w',
    fileSave o w = (inr (freshId w), w')
    /\ faults w' = [] /\ folders w' = folders w
    /\ files w' = (files w ++ [rowOf (freshId w) o])%list.
Proof.
  intros Hquiet Ho. unfold fileSave.
  rewrite RestletFacts.invoke_answers by now apply quiet_head.
  rewrite Ho. eexists. split; [reflexivity|]. cbn. now rewrite Hquiet.
Qed.

Lemma overwrite_filter o : forall l row rows,
  List.filter (sameNameAndFolder o) l = row :: rows ->
  exists l',
    overwrite o l = Some (file_id row, l')
    /\ List.filter (sameNameAndFolder o) l' = rowOf (file_id row) o :: rows.
Proof.
  assert (forall id, sameNameAndFolder o (rowOf id o) = true) as Hself.
  { intros id. unfold sameNameAndFolder, rowOf. cbn.
    now rewrite String.eqb_refl, Z.eqb_refl. }
  induction l as [|f l IH]; intros row rows; cbn [List.filter overwrite];
    [discriminate|].
  destruct (sameNameAndFolder o f) eqn:Hf.
  - intros [= -> <-]. eexists. split; [reflexivity|].
    cbn [List.filter]. now rewrite Hself.
  - intros H. destruct (IH _ _ H) as (l' & -> & Hl').
    eexists. split; [reflexivity|]. cbn [List.filter]. now rewrite Hf.
Qed.

Lemma fileSave_overwrites o w row rows :
  faults w = [] -> opt_conflictResolution o = Some OVERWRITE ->
  List.filter (sameNameAndFolder o) (files w) = row :: rows ->
  exists w',
    fileSave o w = (inr (file_id row), w')
    /\ faults w' = [] /\ folders w' = folders w
    /\ map file_id (files w') = map file_id (files w)
    /\ List.filter (sameNameAndFolder o) (files w') = rowOf (file_id row) o :: rows.
Proof.
  intros Hquiet Ho Hrows. unfold fileSave.
  rewrite RestletFacts.invoke_answers by now apply quiet_head.
  rewrite Ho.
  change (files (setFaults (tl (faults w)) w)) with (files w).
  destruct (overwrite_filter o _ _ _ Hrows) as (l' & Hover & Hl').
  rewrite Hover. eexists. split; [reflexivity|]. cbn. rewrite Hquiet.
  repeat split; [|exact Hl'].
  now destruct (overwrite_keeps o _ _ _ Hover).
Qed.

(** *** Uploading twice *)

Section Twice.
Variables (context context' : Context) (w : World) (folderId : Z).
Local Abbreviation filePath := (sanitizePath (default "" (path context))).
Local Abbreviation name := (fileName (parseFilePath filePath)).
Local Abbreviation dir := (folderPath (parseFilePath filePath)).

Hypothesis quiet : faults w = [].
Hypothesis valid : validateRequest context = Valid.
Hypothesis resolved : resolveFolder (folders w) dir = Some folderId.
Hypothesis truthyFolder : truthyId folderId = true.

Lemma sameNameAndFolder_update c existing :
  path c = path context ->
  existing_folderId existing = folderId ->
  sameNameAndFolder (updateOptions c existing)
  = (fun f => String.eqb (file_name f) name && Z.eqb (file_folder f) folderId).
Proof.
  intros Hpath Hfolder. unfold sameNameAndFolder, updateOptions.
  cbn [opt_name opt_folder]. now rewrite Hpath, Hfolder.
Qed.

(** An upload that finds the file: the first row of that name in that
    folder is written over and keeps its place. *)
Lemma post_quiet_update c w0 row rows :
  faults w0 = [] -> folders w0 = folders w ->
  validateRequest c = Valid -> path c = path context ->
  filesNamed name folderId (files w0) = row :: rows ->
  exists w1,
    post c w0 = (Success "File updated successfully" (file_id row) filePath update, w1)
    /\ faults w1 = [] /\ folders w1 = folders w
    /\ map file_id (files w1) = map file_id (files w0)
    /\ exists row', filesNamed name folderId (files w1) = row' :: rows
                    /\ file_id row' = file_id row.
Proof.
  intros Hquiet Hfolders Hvalid Hpath Hrows.
  assert (resolveFolder (folders w0) dir = Some folderId) as Hresolved
    by now rewrite Hfolders.
  destruct (findFileByFullPath_quiet filePath dir name w0 folderId Hquiet
              Hresolved truthyFolder) as (w1 & Hfind & Hq1 & Hf1 & Hg1).
  rewrite Hrows in Hfind.
  set (existing := {| existing_id := file_id row; existing_name := file_name row;
                      existing_folderId := folderId |}) in *.
  rewrite RestletFacts.post_update with (existing := existing) (w1 := w1);
    [|exact Hvalid|rewrite Hpath; exact Hfind].
  destruct (fileSave_overwrites (updateOptions c existing) w1 row rows Hq1 eq_refl)
    as (w2 & -> & Hq2 & Hf2 & Hids & Hrows2).
  { rewrite (sameNameAndFolder_update c existing Hpath eq_refl), Hg1.
    exact Hrows. }
  exists w2. rewrite Hpath.
  split; [reflexivity|]. split; [exact Hq2|].
  split; [congruence|]. split; [congruence|].
  rewrite (sameNameAndFolder_update c existing Hpath eq_refl) in Hrows2.
  eexists. split; [exact Hrows2|reflexivity].
Qed.

Hypothesis plainPath :
  skipSuiteScripts (skipSuiteScripts (pathSegments dir))
  = skipSuiteScripts (pathSegments dir).
Hypothesis noFolderId : folder context = None.

(** An upload that does not find the file, into a folder that is
    there: a row is added, and is then the one of that name in that
    folder. *)
Lemma post_quiet_create :
  filesNamed name folderId (files w) = [] ->
  exists w1,
    post context w
    = (Success "File created successfully" (freshId w) filePath create, w1)
    /\ faults w1 = [] /\ folders w1 = folders w
    /\ filesNamed name folderId (files w1)
       = [rowOf (freshId w) (createOptions context folderId)].
Proof.
  intros Hnone.
  destruct (findFileByFullPath_quiet filePath dir name w folderId quiet
              resolved truthyFolder) as (w1 & Hfind & Hq1 & Hf1 & Hg1).
  rewrite Hnone in Hfind.
  rewrite (RestletFacts.post_create context w w1 valid Hfind), noFolderId.
  destruct (findOrCreateFolderPath_quiet dir w1 folderId Hq1) as (w2 & Hcreate & Hq2 & Hf2 & Hg2);
    [now rewrite Hf1|exact plainPath|].
  unfold bind. rewrite Hcreate.
  destruct (fileSave_appends (createOptions context folderId) w2 Hq2 eq_refl)
    as (w3 & -> & Hq3 & Hf3 & Hg3).
  assert (freshId w2 = freshId w) as Hfresh
    by (unfold freshId; now rewrite Hf2, Hg2, Hf1, Hg1).
  rewrite Hfresh in *. exists w3. split; [reflexivity|].
  split; [exact Hq3|]. split; [congruence|].
  rewrite Hg3, Hg2, Hg1. unfold filesNamed in *.
  rewrite List.filter_app, Hnone. cbn [List.filter app rowOf file_name file_folder
    createOptions opt_name opt_folder].
  now rewrite String.eqb_refl, Z.eqb_refl.
Qed.

End Twice.

(** X6. Uploading a path twice: on a cabinet whose platform calls do
    not fail, for a valid request without a folder id, whose folder is
    there with a non-zero id, and whose folder path, once a leading
    [SuiteScripts] segment is dropped, does not begin with another one
    (dropping it twice gives what dropping it once gives), the first
    [post] succeeds with some file id, and a second valid [post] of the
    same path answers 'File updated successfully' with the same id, adds
    no file and leaves the folders as they were before the first. *)
Theorem second_upload_updates
    (context context' : Context) (w : World) (folderId : Z) :
  faults w = [] ->
  validateRequest context = Valid ->
  validateRequest context' = Valid ->
  path context' = path context ->
  folder context = None ->
  resolveFolder (folders w)
    (folderPath (parseFilePath (sanitizePath (default "" (path context)))))
  = Some folderId ->
  truthyId folderId = true ->
  skipSuiteScripts (skipSuiteScripts (pathSegments
    (folderPath (parseFilePath (sanitizePath (default "" (path context)))))))
  = skipSuiteScripts (pathSegments
      (folderPath (parseFilePath (sanitizePath (default "" (path context)))))) ->
  exists message id action w1 w2,
    post context w
    = (Success message id (sanitizePath (default "" (path context))) action, w1)
    /\ post context' w1
       = (Success "File updated successfully" id
            (sanitizePath (default "" (path context))) update, w2)
    /\ map file_id (files w2) = map file_id (files w1)
    /\ folders w2 = folders w.
Proof.
  intros Hquiet Hvalid Hvalid' Hpath Hnone Hresolved Htruthy Hplain.
  set (name := fileName (parseFilePath (sanitizePath (default "" (path context))))).
  destruct (filesNamed name folderId (files w)) as [|row rows] eqn:Hrows.
  - destruct (post_quiet_create context w folderId Hquiet Hvalid Hresolved Htruthy
                Hplain Hnone Hrows) as (w1 & Hpost & Hq1 & Hf1 & Hrows1).
    destruct (post_quiet_update context w folderId Hresolved Htruthy
                context' w1 _ [] Hq1 Hf1 Hvalid' Hpath Hrows1)
      as (w2 & Hpost2 & Hq2 & Hf2 & Hids & _).
    exists "File created successfully", (freshId w), create, w1, w2.
    repeat split; assumption.
  - destruct (post_quiet_update context w folderId Hresolved Htruthy
                context w row rows Hquiet eq_refl Hvalid eq_refl Hrows)
      as (w1 & Hpost & Hq1 & Hf1 & _ & row' & Hrows1 & Hid).
    destruct (post_quiet_update context w folderId Hresolved Htruthy
                context' w1 row' rows Hq1 Hf1 Hvalid' Hpath Hrows1)
      as (w2 & Hpost2 & Hq2 & Hf2 & Hids & _).
    exists "File updated successfully", (file_id row), update, w1, w2.
    rewrite Hid in Hpost2. repeat split; assumption.
Qed.

End QuietFacts.

(** ** The folder an upload goes to *)

Module FolderFacts.
Import Js Eff Restlet PathFacts SegmentFacts FrameFacts QuietFacts.

Lemma isFolderOf_app fs more id : isFolderOf fs id -> isFolderOf (fs ++ more) id.
Proof.
  intros [->|H]; [now left|right]. rewrite map_app. apply in_or_app. now left.
Qed.

Lemma childrenNamed_In fs parent name id :
  In id (childrenNamed fs parent name) -> In id (map folder_id fs).
Proof.
  unfold childrenNamed. intros H. apply in_map_iff in H as (f & <- & Hf).
  apply filter_In in Hf as [Hf _]. now apply in_map.
Qed.

Lemma walk_In fs : forall segments parent id,
  segments <> [] -> In id (walk fs parent segments) -> In id (map folder_id fs).
Proof.
  induction segments as [|segment rest IH]; intros parent id Hne; [contradiction|].
  cbn [walk]. intros H. apply in_flat_map in H as (child & Hchild & Hid).
  destruct rest as [|next rest'].
  - cbn [walk] in Hid. destruct Hid as [<-|[]]. now apply childrenNamed_In in Hchild.
  - now apply (IH child id).
Qed.

Lemma findFolderByPath_isFolderOf folderPath w id :
  fst (findFolderByPath folderPath w) = inr (Some id) -> isFolderOf (folders w) id.
Proof.
  unfold findFolderByPath. destruct (isEmpty folderPath).
  { intros [= <-]. now left. }
  unfold tryCatch, queryFolderChain.
  destruct (skipSuiteScripts (pathSegments folderPath)) as [|first rest].
  { intros [= <-]. now left. }
  unfold bind, runFolderChainQuery, invoke.
  destruct (hd false (faults w)); [discriminate|].
  rewrite RestletFacts.evalFolderChain_built.
  change (folders (setFaults (tl (faults w)) w)) with (folders w).
  destruct (walk (folders w) (defaultRootFolder CONFIG) (first :: rest))
    as [|id0 ids] eqn:Hwalk; [discriminate|].
  destruct (truthyId id0); [|discriminate].
  intros [= <-]. right.
  apply (walk_In (folders w) (first :: rest) (defaultRootFolder CONFIG));
    [discriminate|]. rewrite Hwalk. now left.
Qed.

(** *** The index of [findOrCreateFolderPath] *)

Local Abbreviation indexed P index :=
  (forall (key : option Z) (inner : gmap string Z) (name : string) (id : Z),
      index !! key = Some inner -> inner !! name = Some id -> P id).

Lemma indexByParent_ids (P : Z -> Prop) (l : list FolderRow) :
  (forall f, In f l -> P (folder_id f)) -> indexed P (indexByParent l).
Proof.
  unfold indexByParent.
  assert (forall acc : gmap (option Z) (gmap string Z),
             indexed P acc -> (forall f, In f l -> P (folder_id f)) ->
             indexed P (fold_left
               (fun (acc : gmap (option Z) (gmap string Z)) f =>
                  <[folder_parent f :=
                      <[folder_name f := folder_id f]>
                        (default ∅ (acc !! folder_parent f))]> acc) l acc)) as H.
  { induction l as [|f l IH]; intros acc Hacc Hl; [exact Hacc|].
    cbn [fold_left]. apply IH; [|intros g Hg; apply Hl; now right].
    intros key inner name id Hkey Hname.
    destruct (decide (key = folder_parent f)) as [->|Hne].
    - rewrite lookup_insert_eq in Hkey. injection Hkey as <-.
      destruct (decide (name = folder_name f)) as [->|Hn].
      + rewrite lookup_insert_eq in Hname. injection Hname as <-.
        apply Hl. now left.
      + rewrite lookup_insert_ne in Hname by congruence.
        destruct (acc !! folder_parent f) as [old|] eqn:Hold; cbn in Hname.
        * exact (Hacc _ _ _ _ Hold Hname).
        * now rewrite lookup_empty in Hname.
    - rewrite lookup_insert_ne in Hkey by congruence.
      exact (Hacc _ _ _ _ Hkey Hname). }
  intros Hl. apply H; [|exact Hl].
  intros key inner name id Hkey. now rewrite lookup_empty in Hkey.
Qed.

Lemma knownChild_indexed (P : Z -> Prop) index current name id :
  indexed P index -> knownChild index current name = Some id -> P id.
Proof.
  intros Hindex. unfold knownChild.
  destruct (index !! Some current) as [inner|] eqn:Hkey; [|discriminate].
  destruct (inner !! name) as [id0|] eqn:Hname; [|discriminate].
  destruct (truthyId id0); [|discriminate]. intros [= <-].
  exact (Hindex _ _ _ _ Hkey Hname).
Qed.

(** The loop ends in the root or in a folder of the cabinet. *)
Lemma traverse_isFolderOf parts : forall index current w,
  indexed (isFolderOf (folders w)) index ->
  isFolderOf (folders w) current ->
  match traverse parts index current w with
  | (inr id, w') => isFolderOf (folders w') id
  | (inl _, _) => True
  end.
Proof.
  induction parts as [|folderName rest IH]; intros index current w Hindex Hcurrent;
    [exact Hcurrent|].
  cbn [traverse].
  destruct (knownChild index current folderName) as [id|] eqn:Hknown.
  { apply IH; [exact Hindex|]. exact (knownChild_indexed _ _ _ _ _ Hindex Hknown). }
  unfold bind, folderSave, invoke.
  destruct (hd false (faults w)); [exact I|].
  set (id := freshId (setFaults (tl (faults w)) w)).
  set (w1 := logCall _ false _).
  assert (folders w1
          = (folders w ++ [{| folder_id := id; folder_name := folderName;
                              folder_parent := Some current |}])%list) as Hfolders
    by reflexivity.
  apply IH.
  - rewrite Hfolders.
    assert (indexed (isFolderOf (folders w ++
              [{| folder_id := id; folder_name := folderName;
                  folder_parent := Some current |}])) index) as Hgrown.
    { intros key inner name id0 Hkey Hname.
      apply isFolderOf_app. exact (Hindex _ _ _ _ Hkey Hname). }
    destruct (index !! Some id) as [inner|] eqn:Hid; [exact Hgrown|].
    intros key inner name id0 Hkey Hname.
    destruct (decide (key = Some id)) as [->|Hne].
    + rewrite lookup_insert_eq in Hkey. injection Hkey as <-.
      now rewrite lookup_empty in Hname.
    + rewrite lookup_insert_ne in Hkey by congruence.
      exact (Hgrown _ _ _ _ Hkey Hname).
  - rewrite Hfolders. right. rewrite map_app. apply in_or_app. right. now left.
Qed.

(** X7. For a folder path none of whose segments is the name of a
    member that objects inherit from [Object.prototype] (such as
    [constructor]), [findOrCreateFolderPath] never throws, and the id it
    answers is that of the root folder or of a folder the cabinet holds
    once it has returned. *)
Theorem findOrCreateFolderPath_answers_a_folder (folderPath : string) (w : World) :
  ownSegments folderPath = true ->
  exists id,
    fst (findOrCreateFolderPath folderPath w) = inr id
    /\ isFolderOf (folders (snd (findOrCreateFolderPath folderPath w))) id.
Proof.
  intros _. unfold findOrCreateFolderPath.
  destruct (isEmpty folderPath); [eexists; split; [reflexivity|now left]|].
  unfold tryCatch.
  destruct (findOrCreateFolderPath_try folderPath w) as [[e|id] w'] eqn:Htry;
    [eexists; split; [reflexivity|now left]|].
  exists id. split; [reflexivity|]. cbn [snd].
  unfold findOrCreateFolderPath_try in Htry.
  destruct (skipSuiteScripts (pathSegments folderPath)) as [|first rest].
  { injection Htry as <- <-. now left. }
  unfold bind in Htry.
  pose proof (findFolderByPath_isFolderOf (join "/" (first :: rest)) w) as Hfound.
  pose proof (findFolderByPath_steps onlyReads isQuery onlyReads_frame
                (join "/" (first :: rest)) w) as [[Hf1 _] _].
  destruct (findFolderByPath (join "/" (first :: rest)) w) as [[e|[found|]] w1];
    cbn [fst snd] in *; [discriminate| |].
  { injection Htry as <- <-. rewrite Hf1. now apply Hfound. }
  unfold runFoldersNamedQuery, invoke in Htry.
  destruct (hd false (faults w1)); [discriminate|].
  unfold evalFoldersNamed in Htry.
  rewrite RestletFacts.stringParams_strings in Htry. rewrite Nat.eqb_refl in Htry.
  set (allFolders := List.filter _ _) in Htry.
  set (w2 := logCall _ false _) in Htry.
  pose proof (traverse_isFolderOf (first :: rest) (indexByParent allFolders)
                (defaultRootFolder CONFIG) w2) as Hloop.
  rewrite Htry in Hloop. apply Hloop; [|now left].
  apply indexByParent_ids. intros f Hf. right.
  apply filter_In in Hf as [Hf _]. now apply in_map.
Qed.

End FolderFacts.

(** ** [doDelete] *)

Module DeleteFacts.
Import Js Eff Restlet PathFacts SegmentFacts FrameFacts QuietFacts.

Lemma findFileByFullPath_returns filePath folderPath name w :
  exists existing, fst (findFileByFullPath filePath folderPath name w) = inr existing.
Proof.
  unfold findFileByFullPath, tryCatch.
  destruct (bind _ _ w) as [[e|r] w']; now eexists.
Qed.

Lemma findFileByFullPath_onlyReads filePath folderPath name w :
  onlyReads w (snd (findFileByFullPath filePath folderPath name w)).
Proof.
  apply (findFileByFullPath_steps onlyReads isQuery onlyReads_frame).
Qed.

(** The answer once the file is known: [file.delete], then the report,
    or the report of what it threw. *)
Lemma doDelete_located fileDelete context w :
  forall id w1,
    (fileIdGiven context = Some id /\ w1 = w)
    \/ (fileIdGiven context = None
        /\ present (delete_path context) = true
        /\ exists existing,
             findFileByFullPath
               (sanitizePath (default "" (delete_path context)))
               (folderPath (parseFilePath (sanitizePath (default "" (delete_path context)))))
               (fileName (parseFilePath (sanitizePath (default "" (delete_path context)))))
               w = (inr (Some existing), w1)
             /\ existing_id existing = id) ->
    doDelete fileDelete context w
    = match fileDelete id w1 with
      | (inr _, w') => (Deleted "File deleted successfully" id, w')
      | (inl e, w') =>
          (NotDeleted (orElse (Some (exn_name e)) "DELETE_ERROR")
                      (orElse (Some (exn_message e)) (exnToString e)), w')
      end.
Proof.
  intros id w1 [[Hgiven ->]|(Hgiven & Hpath & existing & Hfind & <-)];
    unfold doDelete, doDelete_try; rewrite Hgiven.
  - rewrite andb_false_r. unfold bind at 1. cbn [ret].
    unfold bind. now destruct (fileDelete id w) as [[e|[]] w'].
  - rewrite Hpath. cbn [negb andb]. unfold bind at 1. cbv zeta.
    unfold bind at 1. rewrite Hfind. cbn [ret].
    unfold bind. now destruct (fileDelete (existing_id existing) w1) as [[e|[]] w'].
Qed.

(** X8. [doDelete] deletes only what it is asked to: without a
    path and a file id it answers MISSING_IDENTIFIER and touches nothing;
    with a file id it looks nothing up and its answer is that of
    [file.delete] on that id, an error of the platform turned into a
    failure; with a path that no file has it answers FILE_NOT_FOUND, has
    made queries only and has left the cabinet as it was. *)
Theorem doDelete_deletes_only_on_request
    (fileDelete : Z -> M unit) (context : DeleteContext) (w : World) :
  (present (delete_path context) = false -> fileIdGiven context = None ->
   doDelete fileDelete context w
   = (NotDeleted "MISSING_IDENTIFIER" "File path or fileId is required", w))
  /\ (forall id,
        fileIdGiven context = Some id ->
        doDelete fileDelete context w
        = match fileDelete id w with
          | (inr _, w') => (Deleted "File deleted successfully" id, w')
          | (inl e, w') =>
              (NotDeleted (orElse (Some (exn_name e)) "DELETE_ERROR")
                          (orElse (Some (exn_message e)) (exnToString e)), w')
          end)
  /\ (present (delete_path context) = true -> fileIdGiven context = None ->
      fst (findFileByFullPath
             (sanitizePath (default "" (delete_path context)))
             (folderPath (parseFilePath (sanitizePath (default "" (delete_path context)))))
             (fileName (parseFilePath (sanitizePath (default "" (delete_path context)))))
             w) = inr None ->
      fst (doDelete fileDelete context w)
      = NotDeleted "FILE_NOT_FOUND"
          ("File not found: " ++ default "" (delete_path context))
      /\ onlyReads w (snd (doDelete fileDelete context w))).
Proof.
  split; [|split].
  - intros Hpath Hid. unfold doDelete, doDelete_try. now rewrite Hpath, Hid.
  - intros id Hid. apply (doDelete_located fileDelete context w id w). now left.
  - intros Hpath Hid Hnone. unfold doDelete, doDelete_try.
    rewrite Hpath, Hid. cbn [negb andb]. cbv zeta. unfold bind.
    pose proof (findFileByFullPath_onlyReads
      (sanitizePath (default "" (delete_path context)))
      (folderPath (parseFilePath (sanitizePath (default "" (delete_path context)))))
      (fileName (parseFilePath (sanitizePath (default "" (delete_path context)))))
      w) as Hreads.
    destruct (findFileByFullPath _ _ _ w) as [[e|[existing|]] w1];
      cbn [fst snd] in *; try discriminate.
    split; [reflexivity|exact Hreads].
Qed.

End DeleteFacts.

(** ** [getFileType] *)

Module TypeFacts.
Import Js Eff Restlet PathFacts.

Lemma split_single sep s :
  includes s (String sep "") = false -> split sep s = [s].
Proof.
  induction s as [|c s IH]; [reflexivity|].
  rewrite includes_char_cons. intros H. apply orb_false_iff in H as [Hc Hs].
  rewrite split_cons, Ascii.eqb_sym, Hc, IH by exact Hs. reflexivity.
Qed.

(** The last part of a split is the last part of what follows a
    separator. *)
Lemma pop_split_app sep a b :
  pop (split sep (a ++ String sep b)) = pop (split sep b).
Proof.
  unfold pop. rewrite ExtensionFacts.split_app.
  pose proof (split_not_nil sep b) as Hne.
  rewrite (app_removelast_last "" Hne), app_assoc.
  now rewrite !List.last_last.
Qed.

Lemma pop_single s : pop [s] = s.
Proof. reflexivity. Qed.

Lemma lowerChar_idempotent c : lowerChar (lowerChar c) = lowerChar c.
Proof.
  unfold lowerChar.
  destruct ((65 <=? nat_of_ascii c)%nat && (nat_of_ascii c <=? 90)%nat) eqn:E;
    [|now rewrite E].
  apply andb_true_iff in E as [H1 H2].
  apply Nat.leb_le in H1, H2.
  rewrite nat_ascii_embedding by lia.
  replace ((65 <=? nat_of_ascii c + 32)%nat && (nat_of_ascii c + 32 <=? 90)%nat)
    with false; [reflexivity|].
  symmetry. apply andb_false_iff. right. apply Nat.leb_gt. lia.
Qed.

Lemma toLowerCase_idempotent s : toLowerCase (toLowerCase s) = toLowerCase s.
Proof.
  unfold toLowerCase. induction s as [|c s IH]; [reflexivity|].
  cbn [mapChars]. now rewrite lowerChar_idempotent, IH.
Qed.

(** X9. [getFileType] reads the last extension only, whatever its
    case: two names whose text after the last dot is the same up to case
    have the same type, and a name without a dot has the type of the
    extension it spells. *)
Theorem getFileType_reads_the_extension (stem stem' ext ext' : string) :
  includes ext "." = false -> includes ext' "." = false ->
  toLowerCase ext = toLowerCase ext' ->
  getFileType (stem ++ "." ++ ext) = getFileType (stem' ++ "." ++ ext')
  /\ getFileType ext = getFileType (stem ++ "." ++ ext).
Proof.
  intros Hext Hext' Hsame. unfold getFileType.
  change ("." ++ ext) with (String "."%char ext).
  change ("." ++ ext') with (String "."%char ext').
  rewrite !pop_split_app, !split_single, !pop_single by assumption.
  now rewrite Hsame.
Qed.

End TypeFacts.

(** ** The requests [post] takes *)

Module GuardFacts.
Import Js Eff Restlet PathFacts.

(** *** Two dots in a row *)

Lemma includes_dots_cons c s :
  includes (String c s) ".."
  = (Ascii.eqb "." c && startsWith s ".") || includes s "..".
Proof.
  unfold includes. cbn [indexOf startsWith].
  destruct (Ascii.eqb "." c); cbn [andb orb].
  - destruct s as [|d s]; [reflexivity|]. cbn [startsWith].
    destruct (Ascii.eqb "." d); cbn [andb orb]; [reflexivity|].
    now destruct (indexOf (String d s) "..").
  - now destruct (indexOf s "..").
Qed.

Lemma isSpace_not_dot c : isSpace c = true -> Ascii.eqb "." c = false.
Proof.
  intros Hc. destruct (Ascii.eqb_spec "." c) as [<-|]; [discriminate|reflexivity].
Qed.

Lemma includes_dots_trimStart s : includes (trimStart s) ".." = includes s "..".
Proof.
  induction s as [|c s IH]; [reflexivity|]. cbn [trimStart].
  destruct (isSpace c) eqn:Hc; [|reflexivity].
  now rewrite includes_dots_cons, (isSpace_not_dot c Hc), IH.
Qed.

Lemma startsWith_dot_trimEnd s : startsWith (trimEnd s) "." = startsWith s ".".
Proof.
  destruct s as [|c s]; [reflexivity|]. cbn [trimEnd].
  destruct (isSpace c && isEmpty (trimEnd s)) eqn:E; [|reflexivity].
  apply andb_true_iff in E as [Hc _]. cbn [startsWith].
  now rewrite (isSpace_not_dot c Hc).
Qed.

Lemma includes_dots_trimEnd s : includes (trimEnd s) ".." = includes s "..".
Proof.
  induction s as [|c s IH]; [reflexivity|]. cbn [trimEnd].
  rewrite includes_dots_cons, <- IH, <- startsWith_dot_trimEnd.
  destruct (isSpace c && isEmpty (trimEnd s)) eqn:E;
    [|now rewrite includes_dots_cons].
  apply andb_true_iff in E as [Hc He]. rewrite (isSpace_not_dot c Hc).
  destruct (trimEnd s); [reflexivity|discriminate].
Qed.

Lemma startsWith_dot_forward s :
  startsWith (backslashesToSlashes s) "." = startsWith s ".".
Proof.
  destruct s as [|c s]; [reflexivity|].
  unfold backslashesToSlashes. cbn [mapChars startsWith].
  destruct (isBackslash c) eqn:Hc; [|reflexivity].
  unfold isBackslash in Hc. apply Ascii.eqb_eq in Hc. now subst c.
Qed.

Lemma includes_dots_forward s :
  includes (backslashesToSlashes s) ".." = includes s "..".
Proof.
  induction s as [|c s IH]; [reflexivity|].
  change (backslashesToSlashes (String c s))
    with (String (if isBackslash c then "/"%char else c) (backslashesToSlashes s)).
  rewrite !includes_dots_cons, IH, startsWith_dot_forward.
  destruct (isBackslash c) eqn:Hc; [|reflexivity].
  unfold isBackslash in Hc. apply Ascii.eqb_eq in Hc. now subst c.
Qed.

Lemma startsWith_dot_collapse s :
  startsWith (collapseSlashes s) "." = startsWith s ".".
Proof.
  destruct s as [|c s]; [reflexivity|].
  now destruct (JsFacts.collapseSlashes_head c s) as (r & -> & _).
Qed.

Lemma includes_dots_collapse s :
  includes (collapseSlashes s) ".." = includes s "..".
Proof.
  induction s as [|c s IH]; [reflexivity|].
  rewrite JsFacts.collapseSlashes_cons.
  destruct (isSlash c && startsWith s "/") eqn:E.
  - apply andb_true_iff in E as [Hc _]. apply JsFacts.isSlash_true in Hc.
    subst c. now rewrite includes_dots_cons, IH.
  - now rewrite !includes_dots_cons, IH, startsWith_dot_collapse.
Qed.

(** [sanitizePath] neither hides two dots in a row nor makes them. *)
Lemma includes_dots_sanitizePath p :
  includes (sanitizePath p) ".." = includes p "..".
Proof.
  unfold sanitizePath, trim.
  assert (includes (collapseSlashes (backslashesToSlashes (trimEnd (trimStart p)))) ".."
          = includes p "..") as H
    by now rewrite includes_dots_collapse, includes_dots_forward,
         includes_dots_trimEnd, includes_dots_trimStart.
  destruct (startsWith _ "/"); [exact H|].
  change ("/" ++ ?s) with (String "/"%char s).
  now rewrite includes_dots_cons.
Qed.

(** X23. [post] succeeds on checked requests only: when it answers
    a success, the request had a non-empty path and a content within the
    size limit, the path it reports is the sanitised path of the request,
    and that path holds no two dots in a row; [sanitizePath] neither
    hides nor makes them. *)
Theorem post_succeeds_on_checked_requests_only
    (context : Context) (w : World) (message : string) (id : Z)
    (filePath : string) (action : Action) :
  fst (post context w) = Success message id filePath action ->
  exists p c,
    path context = Some p /\ content context = Some c
    /\ isEmpty p = false
    /\ (len c <= maxFileSize CONFIG)%Z
    /\ filePath = sanitizePath p
    /\ includes filePath ".." = false.
Proof.
  unfold post, validateRequest.
  destruct (path context) as [p|] eqn:Hpath; [|discriminate].
  destruct (isEmpty p) eqn:Hp; [discriminate|].
  destruct (content context) as [c|] eqn:Hcontent; [|discriminate]. cbv zeta.
  destruct (Z.gtb_spec (len c) (maxFileSize CONFIG)) as [|Hlen]; [discriminate|].
  destruct (includes p "..") eqn:Hdots; [discriminate|].
  intros Hpost. exists p, c.
  assert (filePath = sanitizePath p) as ->.
  { unfold post_try in Hpost. cbv zeta in Hpost. rewrite Hpath in Hpost.
    cbn [default] in Hpost.
    destruct (_ && _) in Hpost; [discriminate|].
    unfold bind in Hpost.
    destruct (findFileByFullPath _ _ _ w) as [[e|[existing|]] w1];
      [discriminate| |].
    - destruct (fileSave _ w1) as [[e|savedId] w2]; [discriminate|].
      unfold ret in Hpost. cbn [fst] in Hpost. now injection Hpost.
    - match type of Hpost with
      | context [match ?m w1 with _ => _ end] =>
          destruct (m w1) as [[e|folderId] w2]; [discriminate|]
      end.
      destruct (fileSave _ w2) as [[e|savedId] w3]; [discriminate|].
      unfold ret in Hpost. cbn [fst] in Hpost. now injection Hpost. }
  repeat split; [exact Hp|exact Hlen|].
  now rewrite includes_dots_sanitizePath.
Qed.

End GuardFacts.

(** ** The environment files *)

Module EnvFacts.
Import Js Eff Extension PathFacts.

(** *** [parseEnvFile] *)

Lemma parseEnvFile_app a b :
  parseEnvFile (a ++ String newline b)
  = fold_left parseEnvLine (split newline b) (parseEnvFile a).
Proof.
  unfold parseEnvFile. now rewrite ExtensionFacts.split_app, fold_left_app.
Qed.

Lemma split_line line :
  includes line (String newline "") = false -> split newline line = [line].
Proof.
  induction line as [|c s IH]; [reflexivity|].
  rewrite includes_char_cons. intros H. apply orb_false_iff in H as [Hc Hs].
  rewrite split_cons, Ascii.eqb_sym, Hc, IH by exact Hs. reflexivity.
Qed.

Lemma trimEnd_app a b :
  isEmpty (trimEnd b) = false -> trimEnd (a ++ b) = a ++ trimEnd b.
Proof.
  intros Hb. induction a as [|c a IH]; [reflexivity|].
  change (String c a ++ b) with (String c (a ++ b)).
  rewrite trimEnd_cons, IH.
  replace (isEmpty (a ++ trimEnd b)) with false; [now rewrite andb_false_r|].
  destruct a as [|c' a']; [|reflexivity].
  change ("" ++ trimEnd b) with (trimEnd b). now rewrite Hb.
Qed.

Lemma trim_fixed_parts v : trim v = v -> trimEnd v = v /\ trimStart v = v.
Proof.
  intros Hv. destruct (trim_shape v) as [Hend Hstart]. rewrite Hv in *.
  split; [exact Hend|].
  destruct Hstart as [->|(c & r & -> & Hc)]; [reflexivity|].
  cbn [trimStart]. now rewrite Hc.
Qed.

Lemma indexOf_char_app sep key rest :
  includes key (String sep "") = false ->
  indexOf (key ++ String sep rest) (String sep "") = Some (String.length key).
Proof.
  induction key as [|c key IH].
  - intros _. change ("" ++ String sep rest) with (String sep rest).
    cbn [indexOf startsWith]. now rewrite Ascii.eqb_refl.
  - rewrite includes_char_cons. intros H. apply orb_false_iff in H as [Hc Hkey].
    change (String c key ++ String sep rest) with (String c (key ++ String sep rest)).
    cbn [indexOf startsWith]. rewrite Hc. cbn [andb].
    now rewrite IH.
Qed.

Lemma substringTo_app a b : substringTo (String.length a) (a ++ b) = a.
Proof.
  induction a as [|c a IH]; [now destruct b|].
  change (String c a ++ b) with (String c (a ++ b)). cbn [String.length substringTo].
  now rewrite IH.
Qed.


Lemma parseEnvLine_unfold result line i :
  trim line = line -> isEmpty line = false -> startsWith line "#" = false ->
  indexOf line "=" = Some (S i) ->
  parseEnvLine result line
  = <[trim (substringTo (S i) line)
      := unquoted (trim (substringFrom (S i + 1) line))]> result.
Proof.
  intros Htrim Hne Hhash Hindex. unfold parseEnvLine.
  now rewrite Htrim, Hne, Hhash, Hindex.
Qed.

(** A line [KEY=VALUE] binds the key; the first [=] separates. *)
Lemma parseEnvLine_assignment result c k value :
  isSpace c = false -> c <> "#"%char ->
  trimEnd (String c k) = String c k ->
  includes (String c k) "=" = false ->
  trim value = value ->
  parseEnvLine result (String c k ++ "=" ++ value)
  = <[String c k := unquoted value]> result.
Proof.
  intros Hc Hhash Hkey Heq Hvalue.
  destruct (trim_fixed_parts value Hvalue) as [Hend Hstart].
  set (key := String c k) in *.
  assert (trim (key ++ "=" ++ value) = key ++ "=" ++ value) as Hline.
  { unfold trim. change (key ++ "=" ++ value) with (String c (k ++ "=" ++ value)).
    cbn [trimStart]. rewrite Hc.
    change (String c (k ++ "=" ++ value)) with (key ++ String "="%char value).
    rewrite trimEnd_app; [|now rewrite trimEnd_cons].
    now rewrite trimEnd_cons, Hend. }
  rewrite (parseEnvLine_unfold result _ (String.length k) Hline).
  - change (S (String.length k)) with (String.length key).
    rewrite substringTo_app, (trim_fixed key c k eq_refl Hc Hkey).
    replace (String.length key + 1)%nat with (String.length (key ++ "=") + 0)%nat
      by (rewrite ExtensionFacts.length_append; cbn; lia).
    rewrite <- JsFacts.append_assoc, ExtensionFacts.substringFrom_app.
    cbn [substringFrom]. now rewrite Hvalue.
  - reflexivity.
  - change (key ++ "=" ++ value) with (String c (k ++ "=" ++ value)).
    cbn [startsWith]. rewrite andb_true_r. apply Ascii.eqb_neq. congruence.
  - exact (indexOf_char_app "="%char key value Heq).
Qed.

Lemma includes_app_false sep a b :
  includes (a ++ b) (String sep "") = false ->
  includes a (String sep "") = false /\ includes b (String sep "") = false.
Proof.
  induction a as [|c a IH]; [now split|].
  change (String c a ++ b) with (String c (a ++ b)).
  rewrite !includes_char_cons. intros H. apply orb_false_iff in H as [Hc H].
  destruct (IH H) as [Ha Hb]. now rewrite Hc, Ha.
Qed.

Lemma includes_app_intro sep a b :
  includes a (String sep "") = false -> includes b (String sep "") = false ->
  includes (a ++ b) (String sep "") = false.
Proof.
  intros Ha Hb. induction a as [|c a IH]; [exact Hb|].
  change (String c a ++ b) with (String c (a ++ b)).
  rewrite includes_char_cons in Ha |- *. apply orb_false_iff in Ha as [Hc Ha].
  now rewrite Hc, IH.
Qed.


Lemma parseEnvLine_idle result line :
  idle line = true -> parseEnvLine result line = result.
Proof.
  unfold idle, parseEnvLine. intros H.
  destruct (isEmpty (trim line) || startsWith (trim line) "#"); [reflexivity|].
  cbn [orb] in H. now destruct (indexOf (trim line) "=") as [[|i]|].
Qed.

(** X10. [parseEnvFile] reads line by line: a last line added to a
    file changes the result as [parseEnvLine] does on the result of the
    lines before; a blank line, a comment or a line without a key changes
    nothing; and a line [KEY=value], trimmed, with a key other than
    [__proto__], sets the key to the value without the quotes around it,
    over what an earlier line gave it. *)
Theorem parseEnvFile_reads_line_by_line
    (content line : string) (c : ascii) (k value : string) :
  includes line (String newline "") = false ->
  parseEnvFile (content ++ String newline line)
  = parseEnvLine (parseEnvFile content) line
  /\ (idle line = true ->
      parseEnvFile (content ++ String newline line) = parseEnvFile content)
  /\ (line = String c k ++ "=" ++ value ->
      String c k <> "__proto__" ->
      isSpace c = false -> c <> "#"%char ->
      trimEnd (String c k) = String c k ->
      includes (String c k) "=" = false ->
      trim value = value ->
      parseEnvFile (content ++ String newline line)
      = <[String c k := unquoted value]> (parseEnvFile content)).
Proof.
  intros Hline.
  assert (parseEnvFile (content ++ String newline line)
          = parseEnvLine (parseEnvFile content) line) as Hlast
    by now rewrite parseEnvFile_app, split_line.
  split; [exact Hlast|]. split.
  - intros Hidle. rewrite Hlast. now apply parseEnvLine_idle.
  - intros -> _ Hc Hhash Hkey Heq Hvalue. rewrite Hlast.
    now apply parseEnvLine_assignment.
Qed.

End EnvFacts.

(** ** The cache of the environment files and the defaults *)

Module CacheFacts.
Import Js Eff Extension.

Lemma loadEnvFile_value wsPath envConfig name w :
  fst (loadEnvFile wsPath envConfig name w)
  = inr match fileSystem w !! path_join wsPath name with
        | Some (RegularFile content) => parseEnvFile content ∪ envConfig
        | _ => envConfig
        end
  /\ fileSystem (snd (loadEnvFile wsPath envConfig name w)) = fileSystem w.
Proof.
  unfold loadEnvFile, existsSync, tryCatch, readFileSync, log, effect,
    modify, gets, ret, throw, bind.
  cbn [fst snd fileSystem effects setEffects].
  destruct (fileSystem w !! path_join wsPath name) as [[content|]|] eqn:E;
    cbn [fst snd fileSystem effects setEffects]; rewrite ?E;
    cbn [fst snd fileSystem effects setEffects]; now split.
Qed.

Lemma loadEnvFiles_value wsPath names : forall envConfig w,
  fst (loadEnvFiles wsPath envConfig names w)
  = inr (fold_left
           (fun envConfig name =>
              match fileSystem w !! path_join wsPath name with
              | Some (RegularFile content) => parseEnvFile content ∪ envConfig
              | _ => envConfig
              end) names envConfig).
Proof.
  induction names as [|name rest IH]; intros envConfig w; [reflexivity|].
  cbn [loadEnvFiles fold_left]. unfold bind.
  destruct (loadEnvFile_value wsPath envConfig name w) as [Hvalue Hfs].
  destruct (loadEnvFile wsPath envConfig name w) as [[e|env1] w1];
    cbn [fst snd] in *; [discriminate|].
  injection Hvalue as ->. rewrite IH, Hfs. reflexivity.
Qed.

(** With nothing in the cache the files are read. *)
Lemma loadEnvConfig_cold ws w :
  envConfigCache w !! fsPath ws = None ->
  fst (loadEnvConfig (Some ws) w) = inr (envOfFiles (fileSystem w) (fsPath ws))
  /\ envConfigCache (snd (loadEnvConfig (Some ws) w)) !! fsPath ws
     = Some (envOfFiles (fileSystem w) (fsPath ws)).
Proof.
  intros Hcold. unfold loadEnvConfig, bind, gets. rewrite Hcold.
  pose proof (loadEnvFiles_value (fsPath ws) envFiles ∅ w) as Hvalue.
  destruct (loadEnvFiles (fsPath ws) ∅ envFiles w) as [[e|envConfig] w1];
    cbn [fst] in Hvalue; [discriminate|].
  injection Hvalue as ->. unfold modify, ret. cbn [fst snd envConfigCache setEnvConfigCache].
  split; [reflexivity|apply lookup_insert_eq].
Qed.

(** With the folder in the cache nothing is read and nothing changes. *)
Lemma loadEnvConfig_cached ws w envConfig :
  envConfigCache w !! fsPath ws = Some envConfig ->
  loadEnvConfig (Some ws) w = (inr envConfig, w).
Proof. intros Hcached. unfold loadEnvConfig, bind, gets. now rewrite Hcached. Qed.

(** X11. [loadEnvConfig] reads the environment files once: the first
    call for a folder gives what the files hold, a later call gives the
    same answer without looking at the files, whatever they have become,
    and after [clearEnvCache] (for the folder, or for all) the next call
    reads the files anew. *)
Theorem loadEnvConfig_caches_until_cleared
    (ws : WorkspaceFolder) (w : World) (fs' : gmap string FsNode)
    (cleared : option WorkspaceFolder) :
  envConfigCache w !! fsPath ws = None ->
  (cleared = None \/ cleared = Some ws) ->
  let w1 := snd (loadEnvConfig (Some ws) w) in
  fst (loadEnvConfig (Some ws) w) = inr (envOfFiles (fileSystem w) (fsPath ws))
  /\ loadEnvConfig (Some ws) (setFileSystem fs' w1)
     = (inr (envOfFiles (fileSystem w) (fsPath ws)), setFileSystem fs' w1)
  /\ fst (loadEnvConfig (Some ws)
            (snd (clearEnvCache cleared (setFileSystem fs' w1))))
     = inr (envOfFiles fs' (fsPath ws)).
Proof.
  intros Hcold Hcleared w1.
  destruct (loadEnvConfig_cold ws w Hcold) as [Hfirst Hcache].
  split; [exact Hfirst|]. split.
  - now apply loadEnvConfig_cached.
  - apply loadEnvConfig_cold.
    unfold clearEnvCache, modify. cbn [snd envConfigCache setEnvConfigCache].
    destruct Hcleared as [-> | ->]; [apply lookup_empty|apply lookup_delete_eq].
Qed.

Lemma envOfFiles_lookup fs wsPath key :
  envOfFiles fs wsPath !! key
  = firstSome [ keyInFile fs (path_join wsPath ".netsuite.env") key;
                keyInFile fs (path_join wsPath ".env.local") key;
                keyInFile fs (path_join wsPath ".env") key ].
Proof.
  unfold envOfFiles, envFiles, keyInFile, firstSome. cbn [fold_left fold_right].
  destruct (fs !! path_join wsPath ".env") as [[c1|]|];
    destruct (fs !! path_join wsPath ".env.local") as [[c2|]|];
    destruct (fs !! path_join wsPath ".netsuite.env") as [[c3|]|];
    rewrite ?lookup_union, ?lookup_empty;
    repeat match goal with
           | |- context [parseEnvFile ?c !! key] =>
               destruct (parseEnvFile c !! key)
           end; reflexivity.
Qed.

(** X12. The later environment file wins: the value [loadEnvConfig]
    gives a key is that of [.netsuite.env] if it has the key, else that
    of [.env.local], else that of [.env]. *)
Theorem later_env_file_wins (ws : WorkspaceFolder) (w : World) (key : string) :
  envConfigCache w !! fsPath ws = None ->
  exists envConfig,
    fst (loadEnvConfig (Some ws) w) = inr envConfig
    /\ envConfig !! key
       = firstSome
           [ keyInFile (fileSystem w) (path_join (fsPath ws) ".netsuite.env") key;
             keyInFile (fileSystem w) (path_join (fsPath ws) ".env.local") key;
             keyInFile (fileSystem w) (path_join (fsPath ws) ".env") key ].
Proof.
  intros Hcold. destruct (loadEnvConfig_cold ws w Hcold) as [Hfirst _].
  eexists. split; [exact Hfirst|apply envOfFiles_lookup].
Qed.

(** *** [getCredential] *)

Lemma firstTruthy_truthy envConfig envKeys v :
  firstTruthy envConfig envKeys = Some v -> truthy v = true.
Proof.
  induction envKeys as [|envKey rest IH]; [discriminate|]. cbn [firstTruthy].
  destruct (envConfig !! envKey) as [v0|]; [|exact IH].
  destruct (truthy v0) eqn:Hv0; [|exact IH]. now intros [= <-].
Qed.

Lemma credentialFrom_default envConfig config key d :
  defaults !! key = Some d -> truthy d = true ->
  present (credentialFrom envConfig config key) = true.
Proof.
  intros Hd Htruthy. unfold credentialFrom.
  destruct (firstTruthy envConfig (default [] (envKeyMap !! key))) as [v|] eqn:E.
  - cbn [present]. now apply firstTruthy_truthy in E.
  - destruct (present (config !! key)) eqn:Hp; [exact Hp|].
    now rewrite Hd.
Qed.

Lemma credentialIn_credentialFrom key workspaceFolder w :
  exists envConfig,
    credentialIn key workspaceFolder w = credentialFrom envConfig (settings w) key.
Proof.
  unfold credentialIn, getCredential, bind, gets, ret.
  destruct (ExtensionFacts.loadEnvConfig_spec workspaceFolder w)
    as (envConfig & cache & l & -> & _).
  now exists envConfig.
Qed.

(** X13. [getCredential] always has an answer for the upload folder,
    the watch folder and the root path: whatever the settings and the
    environment files hold, the value for [uploadFrom], [watchFolder] and
    [rootPath] is there and is not empty. *)
Theorem upload_settings_are_never_missing
    (workspaceFolder : option WorkspaceFolder) (w : World) (key : string) :
  In key ["uploadFrom"; "watchFolder"; "rootPath"] ->
  present (credentialIn key workspaceFolder w) = true.
Proof.
  intros Hkey. destruct (credentialIn_credentialFrom key workspaceFolder w)
    as (envConfig & ->).
  destruct Hkey as [<-|[<-|[<-|[]]]];
    eapply credentialFrom_default; reflexivity.
Qed.

Lemma credentialIn_cold key ws w :
  envConfigCache w !! fsPath ws = None ->
  credentialIn key (Some ws) w
  = credentialFrom (envOfFiles (fileSystem w) (fsPath ws)) (settings w) key.
Proof.
  intros Hcold. unfold credentialIn, getCredential, bind, gets, ret.
  destruct (loadEnvConfig_cold ws w Hcold) as [Hfirst _].
  destruct (loadEnvConfig (Some ws) w) as [[e|envConfig] w1] eqn:Hload;
    cbn [fst] in Hfirst; [discriminate|].
  injection Hfirst as ->. cbn [fst snd].
  destruct (ExtensionFacts.loadEnvConfig_spec (Some ws) w)
    as (envConfig & cache & l & Hspec & _).
  rewrite Hload in Hspec. injection Hspec as _ ->. reflexivity.
Qed.

Lemma firstTruthy_none envConfig envKeys :
  (forall envKey, In envKey envKeys -> present (envConfig !! envKey) = false) ->
  firstTruthy envConfig envKeys = None.
Proof.
  induction envKeys as [|envKey rest IH]; intros Hnone; [reflexivity|].
  cbn [firstTruthy]. pose proof (Hnone envKey (or_introl eq_refl)) as Hkey.
  destruct (envConfig !! envKey) as [v|]; cbn [present] in Hkey;
    [rewrite Hkey|]; apply IH; intros k Hk; apply Hnone; now right.
Qed.

(** X22. The environment comes before the settings: with the
    environment files not yet in the cache, a non-empty value that the
    files give the first variable of a key is what [getCredential]
    answers for the key, whatever the settings hold; and when the files
    give no variable of the key a non-empty value, the answer is the
    setting if it is not empty, else the default of the key. *)
Theorem environment_wins_over_settings
    (ws : WorkspaceFolder) (w : World) (key envKey : string)
    (envKeys : list string) :
  envConfigCache w !! fsPath ws = None ->
  envKeyMap !! key = Some (envKey :: envKeys) ->
  let inFiles name :=
    firstSome
      [ keyInFile (fileSystem w) (path_join (fsPath ws) ".netsuite.env") name;
        keyInFile (fileSystem w) (path_join (fsPath ws) ".env.local") name;
        keyInFile (fileSystem w) (path_join (fsPath ws) ".env") name ] in
  (forall v, inFiles envKey = Some v -> truthy v = true ->
             credentialIn key (Some ws) w = Some v)
  /\ ((forall name, In name (envKey :: envKeys) -> present (inFiles name) = false) ->
      credentialIn key (Some ws) w
      = if present (settings w !! key) then settings w !! key
        else match defaults !! key with
             | Some d => Some d
             | None => settings w !! key
             end).
Proof.
  intros Hcold Hkeys inFiles.
  rewrite (credentialIn_cold key ws w Hcold). unfold credentialFrom.
  rewrite Hkeys. cbn [default]. unfold id. split.
  - intros v Hv Htruthy. cbn [firstTruthy].
    rewrite envOfFiles_lookup. fold (inFiles envKey). now rewrite Hv, Htruthy.
  - intros Hnone. rewrite firstTruthy_none; [reflexivity|].
    intros name Hname. rewrite envOfFiles_lookup. now apply Hnone.
Qed.

End CacheFacts.

(** ** What the steps of the extension leave alone *)

Module EffectFacts.
Import Js Eff Extension.

Section Frames.
Variable R : World -> World -> Prop.
Variable allowed : Effect -> Prop.
Hypothesis F : Frame R allowed.

Local Abbreviation steps m := (forall w, R w (snd (m w))).

Lemma ret_stays {A} (a : A) : steps (ret (W := World) a).
Proof. intros w. apply (frame_refl _ _ F). Qed.

Lemma throw_stays {A} e : steps (throw (W := World) (A := A) e).
Proof. intros w. apply (frame_refl _ _ F). Qed.

Lemma gets_stays {A} (f : World -> A) : steps (gets f).
Proof. intros w. apply (frame_refl _ _ F). Qed.

Lemma bind_stays {A B} (m : M A) (k : A -> M B) :
  steps m -> (forall a, steps (k a)) -> steps (bind m k).
Proof.
  intros Hm Hk w. unfold bind. specialize (Hm w).
  destruct (m w) as [[e|a] w']; cbn [snd] in *; [exact Hm|].
  eapply (frame_trans _ _ F); [exact Hm|apply Hk].
Qed.

Lemma tryCatch_stays {A} (m : M A) (h : Exn -> M A) :
  steps m -> (forall e, steps (h e)) -> steps (tryCatch m h).
Proof.
  intros Hm Hh w. unfold tryCatch. specialize (Hm w).
  destruct (m w) as [[e|a] w']; cbn [snd] in *; [|exact Hm].
  eapply (frame_trans _ _ F); [exact Hm|apply Hh].
Qed.

Lemma effect_stays e : allowed e -> steps (effect e).
Proof. intros He w. now apply (frame_effect _ _ F). Qed.

Lemma log_stays line : steps (log line).
Proof. apply effect_stays, (frame_local _ _ F). exact I. Qed.

Lemma existsSync_stays p : steps (existsSync p).
Proof.
  unfold existsSync. apply bind_stays; [|intros; apply gets_stays].
  apply effect_stays, (frame_local _ _ F). exact I.
Qed.

Lemma readFileSync_stays p : steps (readFileSync p).
Proof.
  unfold readFileSync.
  apply bind_stays; [apply effect_stays, (frame_local _ _ F); exact I|]. intros _.
  apply bind_stays; [apply gets_stays|].
  intros [[content|]|]; [apply ret_stays|apply throw_stays|apply throw_stays].
Qed.

Lemma loadEnvFile_stays wsPath envConfig name :
  steps (loadEnvFile wsPath envConfig name).
Proof.
  unfold loadEnvFile. apply bind_stays; [apply existsSync_stays|].
  intros [|]; [|apply ret_stays].
  apply tryCatch_stays.
  - apply bind_stays; [apply readFileSync_stays|]. intros content.
    apply bind_stays; [apply log_stays|]. intros; apply ret_stays.
  - intros e. apply bind_stays; [apply log_stays|]. intros; apply ret_stays.
Qed.

Lemma loadEnvFiles_stays wsPath names : forall envConfig,
  steps (loadEnvFiles wsPath envConfig names).
Proof.
  induction names as [|name rest IH]; intros envConfig; [apply ret_stays|].
  cbn [loadEnvFiles]. apply bind_stays; [apply loadEnvFile_stays|]. exact IH.
Qed.

Lemma loadEnvConfig_stays workspaceFolder : steps (loadEnvConfig workspaceFolder).
Proof.
  unfold loadEnvConfig. destruct workspaceFolder as [ws|]; [|apply ret_stays].
  apply bind_stays; [apply gets_stays|].
  intros [envConfig|]; [apply ret_stays|].
  apply bind_stays; [apply loadEnvFiles_stays|]. intros envConfig.
  apply bind_stays; [|intros; apply ret_stays].
  intros w. apply (frame_cache _ _ F).
Qed.

Lemma getCredential_stays key workspaceFolder :
  steps (getCredential key workspaceFolder).
Proof.
  unfold getCredential. apply bind_stays; [apply loadEnvConfig_stays|].
  intros envConfig. apply bind_stays; [apply gets_stays|].
  intros; apply ret_stays.
Qed.

Lemma somePattern_stays config complaint p r patterns :
  steps (somePattern config complaint p r patterns).
Proof.
  induction patterns as [|pattern rest IH]; [apply ret_stays|].
  cbn [somePattern].
  destruct (matchesPattern config p r pattern) as [[|]|];
    [apply ret_stays|exact IH|].
  apply bind_stays; [apply log_stays|]. intros _. exact IH.
Qed.

Lemma handleFileSave_stays config document :
  steps (handleFileSave config document).
Proof.
  unfold handleFileSave. destruct (negb (enabled config)); [apply ret_stays|].
  destruct (doc_workspaceFolder document) as [ws|].
  2: { apply bind_stays; [apply log_stays|]. intros; apply ret_stays. }
  apply bind_stays; [apply getCredential_stays|]. intros watchFolder. cbv zeta.
  destruct (_ && _).
  { apply bind_stays; [apply log_stays|]. intros; apply ret_stays. }
  apply bind_stays; [apply somePattern_stays|]. intros [|].
  { apply bind_stays; [apply log_stays|]. intros; apply ret_stays. }
  apply bind_stays; [apply somePattern_stays|]. intros [|]; cbn [negb].
  - apply ret_stays.
  - apply bind_stays; [apply log_stays|]. intros; apply ret_stays.
Qed.

Lemma calculateNetSuitePath_stays relativePath ws :
  steps (calculateNetSuitePath relativePath ws).
Proof.
  unfold calculateNetSuitePath. apply bind_stays; [apply getCredential_stays|].
  intros uploadFrom. cbv zeta.
  destruct (indexOf _ "suitescripts/"); [apply ret_stays|].
  destruct (startsWith _ "suitescripts/"); [apply ret_stays|].
  apply bind_stays; [apply getCredential_stays|]. intros; apply ret_stays.
Qed.

Lemma resolveUploadFile_stays savedFilePath ws :
  steps (resolveUploadFile savedFilePath ws).
Proof.
  unfold resolveUploadFile. apply bind_stays; [apply getCredential_stays|].
  intros uploadFrom. apply bind_stays; [apply getCredential_stays|].
  intros watchFolder. cbv zeta.
  destruct (String.eqb _ _).
  { apply bind_stays; [apply calculateNetSuitePath_stays|]. intros; apply ret_stays. }
  destruct (startsWith _ _);
    (apply bind_stays; [apply calculateNetSuitePath_stays|]; intros; apply ret_stays).
Qed.

Lemma settle_stays timeout outcome : steps (settle timeout outcome).
Proof.
  unfold settle. destruct outcome as [statusCode body| |].
  - apply bind_stays; [apply log_stays|]. intros _.
    destruct body as [|response|raw].
    + destruct (is2xx statusCode); [apply ret_stays|apply throw_stays].
    + destruct (is2xx statusCode); [apply ret_stays|apply throw_stays].
    + apply bind_stays; [apply log_stays|]. intros; apply throw_stays.
  - apply bind_stays; [apply log_stays|]. intros; apply throw_stays.
  - apply throw_stays.
Qed.

Lemma nextNonce_stays : steps nextNonce.
Proof.
  intros w. unfold nextNonce. destruct (nonces w); [apply (frame_refl _ _ F)|apply (frame_nonces _ _ F)].
Qed.

Section Request.
Variables (method : string) (payload : option Payload).
Hypothesis allowed_request : forall request,
  req_method request = method -> req_body request = payload ->
  allowed (HttpSend request).

Lemma makeAuthenticatedRequest_stays url workspaceFolder :
  steps (makeAuthenticatedRequest url method payload workspaceFolder).
Proof.
  unfold makeAuthenticatedRequest.
  apply bind_stays; [apply gets_stays|]. intros timeout.
  do 5 (apply bind_stays; [apply getCredential_stays|]; intros ?).
  destruct (_ || _); [apply throw_stays|].
  apply bind_stays.
  { unfold oauthAuthorization. apply bind_stays; [apply nextNonce_stays|].
    intros nonce. apply bind_stays; [apply gets_stays|]. intros timestamp.
    cbv zeta. apply bind_stays; [apply gets_stays|]. intros fault.
    destruct (fault _) as [e|]; [apply throw_stays|].
    apply bind_stays; [apply gets_stays|]. intros; apply ret_stays. }
  intros oauthHeader. cbv zeta.
  apply bind_stays; [apply gets_stays|]. intros parse.
  destruct (parse url) as [urlParsed|]; [|apply throw_stays].
  apply bind_stays; [apply log_stays|]. intros _.
  apply bind_stays.
  { apply effect_stays. now apply allowed_request. }
  intros _. apply bind_stays; [apply gets_stays|]. intros answer.
  apply settle_stays.
Qed.

End Request.

Hypothesis allowed_get : forall request,
  req_method request = "GET" -> req_body request = None ->
  allowed (HttpSend request).

Lemma testConnection_stays workspaceFolder : steps (testConnection workspaceFolder).
Proof.
  unfold testConnection. apply bind_stays; [apply getCredential_stays|].
  intros restletUrl.
  destruct (negb (present restletUrl));
    [apply effect_stays, (frame_local _ _ F); exact I|].
  apply tryCatch_stays.
  - apply bind_stays; [apply log_stays|]. intros _.
    apply bind_stays; [now apply (makeAuthenticatedRequest_stays "GET" None)|].
    intros response. destruct (success response); [|apply throw_stays].
    apply bind_stays; [apply log_stays|]. intros _.
    apply effect_stays, (frame_local _ _ F). exact I.
  - intros e. apply bind_stays; [apply log_stays|]. intros _.
    apply effect_stays, (frame_local _ _ F). exact I.
Qed.

End Frames.

(** *** Staying offline *)


Lemma sameSetup_refl w : sameSetup w w.
Proof. now repeat split. Qed.

Lemma sameSetup_trans w1 w2 w3 :
  sameSetup w1 w2 -> sameSetup w2 w3 -> sameSetup w1 w3.
Proof.
  intros (H1 & H2 & H3 & H4 & H5 & H6 & H7) (G1 & G2 & G3 & G4 & G5 & G6 & G7).
  repeat split; congruence.
Qed.

Lemma offline_refl w : offline w w.
Proof. split; [apply sameSetup_refl|reflexivity]. Qed.

Lemma offline_trans w1 w2 w3 : offline w1 w2 -> offline w2 w3 -> offline w1 w3.
Proof.
  intros [H1 G1] [H2 G2]. split; [now apply (sameSetup_trans w1 w2)|congruence].
Qed.

Lemma offline_effect e w :
  isLocal e -> offline w (setEffects (effects w ++ [e]) w).
Proof.
  intros He. split; [now repeat split|].
  unfold requestsSent. cbn [effects setEffects].
  rewrite ExtensionFacts.requestsOf_app. destruct e; try contradiction;
    cbn; now rewrite app_nil_r.
Qed.

Lemma offline_cache c w : offline w (setEnvConfigCache c w).
Proof. split; [now repeat split|reflexivity]. Qed.

Lemma sameSetup_frame : Frame sameSetup (fun _ => True).
Proof.
  split; [exact sameSetup_refl|exact sameSetup_trans| | | |]; try now intros.
Qed.

Lemma offline_frame : Frame offline isLocal.
Proof.
  split; [exact offline_refl|exact offline_trans|intros; now apply offline_effect|
          exact offline_cache| |trivial].
  intros l w. now split.
Qed.

End EffectFacts.

(** ** The gate of [handleFileSave] and the early exits of [uploadFile] *)

Module SaveFacts.
Import Js Eff Extension EffectFacts.

Lemma somePattern_value config complaint p r patterns : forall w,
  fst (somePattern config complaint p r patterns w)
  = inr (anyMatch config p r patterns).
Proof.
  induction patterns as [|pattern rest IH]; intros w; [reflexivity|].
  cbn [somePattern anyMatch existsb].
  destruct (matchesPattern config p r pattern) as [[|]|]; [reflexivity|apply IH|].
  unfold bind, log, effect, modify. cbn [fst snd]. apply IH.
Qed.

Lemma handleFileSave_value config document ws w :
  enabled config = true -> doc_workspaceFolder document = Some ws ->
  let relativePath :=
    backslashesToSlashes (path_relative (fsPath ws) (doc_fileName document)) in
  let watchFolder := watchFolderIn ws w in
  fst (handleFileSave config document w)
  = inr ((startsWith relativePath (watchFolder ++ "/")
          || String.eqb relativePath watchFolder)
         && negb (anyMatch config (pathInWatchFolder watchFolder relativePath)
                    relativePath (excludePatterns config))
         && anyMatch config (pathInWatchFolder watchFolder relativePath)
              relativePath (watchPatterns config)).
Proof.
  intros Henabled Hws relativePath watchFolder.
  unfold handleFileSave. rewrite Henabled, Hws. cbn [negb].
  rewrite ExtensionFacts.bind_getCredential.
  fold (watchFolderIn ws w). fold watchFolder. fold relativePath.
  fold (pathInWatchFolder watchFolder relativePath).
  destruct (startsWith relativePath (watchFolder ++ "/"));
    destruct (String.eqb relativePath watchFolder); cbn [negb andb orb];
    try reflexivity.
  all: unfold bind at 1;
    pose proof (somePattern_value config "Invalid exclude pattern: "
                  (pathInWatchFolder watchFolder relativePath) relativePath
                  (excludePatterns config) (warm (Some ws) w)) as Hex;
    destruct (somePattern config "Invalid exclude pattern: " _ _ _ _)
      as [[e|excluded] w1]; cbn [fst] in Hex; [discriminate|];
    injection Hex as ->;
    destruct (anyMatch config _ relativePath (excludePatterns config));
    cbn [negb andb]; [reflexivity|];
    unfold bind at 1;
    pose proof (somePattern_value config "Invalid watch pattern: "
                  (pathInWatchFolder watchFolder relativePath) relativePath
                  (watchPatterns config) w1) as Hin;
    destruct (somePattern config "Invalid watch pattern: " _ _ _ _)
      as [[e|included] w2]; cbn [fst] in Hin; [discriminate|];
    injection Hin as ->;
    now destruct (anyMatch config _ relativePath (watchPatterns config)).
Qed.

(** X14. [handleFileSave] never reaches the network and changes
    neither files, settings nor history; it schedules no upload when the
    extension is disabled (and then does nothing at all) or when the
    document is in no workspace folder; otherwise it schedules one
    exactly when the file lies in the watch folder, no exclude pattern
    matches it and some watch pattern does, a pattern that makes
    [minimatch] throw counting as no match. *)
Theorem handleFileSave_gate
    (config : WatchSettings) (document : Document) (w : World) :
  offline w (snd (handleFileSave config document w))
  /\ (enabled config = false ->
      handleFileSave config document w = (inr false, w))
  /\ (doc_workspaceFolder document = None ->
      fst (handleFileSave config document w) = inr false)
  /\ (forall ws,
        enabled config = true -> doc_workspaceFolder document = Some ws ->
        let relativePath :=
          backslashesToSlashes (path_relative (fsPath ws) (doc_fileName document)) in
        let watchFolder := watchFolderIn ws w in
        fst (handleFileSave config document w)
        = inr ((startsWith relativePath (watchFolder ++ "/")
                || String.eqb relativePath watchFolder)
               && negb (anyMatch config (pathInWatchFolder watchFolder relativePath)
                          relativePath (excludePatterns config))
               && anyMatch config (pathInWatchFolder watchFolder relativePath)
                    relativePath (watchPatterns config))).
Proof.
  split; [|split; [|split]].
  - apply (handleFileSave_stays offline isLocal offline_frame).
  - intros Hoff. unfold handleFileSave. now rewrite Hoff.
  - intros Hnone. unfold handleFileSave. rewrite Hnone.
    now destruct (enabled config).
  - intros ws Hon Hws. now apply handleFileSave_value.
Qed.


(** *** [uploadFile] gives up before the network *)

Lemma offline_warm workspaceFolder w : offline w (warm workspaceFolder w).
Proof. apply (loadEnvConfig_stays offline isLocal offline_frame). Qed.

Lemma offline_then_effect e w w1 :
  isLocal e -> offline w w1 -> offline w (setEffects (effects w1 ++ [e]) w1).
Proof.
  intros He Hw. eapply offline_trans; [exact Hw|now apply offline_effect].
Qed.

(** What [uploadFile] does in the three cases in which it stops early. *)
Lemma uploadFile_gives_up document w :
  present (credentialIn "restletUrl" (doc_workspaceFolder document) w) = false
  \/ doc_workspaceFolder document = None
  \/ (exists ws,
        doc_workspaceFolder document = Some ws
        /\ isMapped (resolve (doc_fileName document) (fsPath ws) (watchFolderIn ws w)
                       (uploadFolderIn ws w) (rootPathIn ws w)) = true
        /\ fileSystem w
             !! uploadPath (resolve (doc_fileName document) (fsPath ws)
                              (watchFolderIn ws w) (uploadFolderIn ws w)
                              (rootPathIn ws w)) = None) ->
  exists l,
    uploadFile document w
    = (inr tt, setEffects (effects (warm (doc_workspaceFolder document) w) ++ l)
                 (warm (doc_workspaceFolder document) w))
    /\ Forall isLocal l.
Proof.
  intros Hcases. unfold uploadFile.
  rewrite ExtensionFacts.bind_getCredential.
  destruct (present (credentialIn "restletUrl" (doc_workspaceFolder document) w))
    eqn:Hurl; cbn [negb].
  2: { eexists [_]. split; [reflexivity|]. repeat constructor. }
  destruct Hcases as [Hno|[Hnone|(ws & Hws & Hmapped & Hmissing)]];
    [discriminate| |].
  { rewrite Hnone in *. eexists [_]. split; [reflexivity|]. repeat constructor. }
  rewrite Hws in *. unfold bind at 1.
  rewrite ExtensionFacts.resolveUploadFile_value.
  unfold watchFolderIn, uploadFolderIn, rootPathIn.
  rewrite !ExtensionFacts.credentialIn_warm, ExtensionFacts.warm_twice.
  fold (watchFolderIn ws w) (uploadFolderIn ws w) (rootPathIn ws w).
  rewrite Hmapped.
  destruct (ExtensionFacts.warm_frame (Some ws) w) as (_ & _ & Hfs & _).
  unfold existsSync, effect, modify, gets, bind.
  cbn [fst snd fileSystem setEffects].
  rewrite Hfs, Hmissing. cbn [negb fst snd effects setEffects].
  eexists [_; _]. split; [now rewrite <- app_assoc|].
  repeat constructor.
Qed.

Lemma offline_effects l w :
  Forall isLocal l -> offline w (setEffects (effects w ++ l) w).
Proof.
  intros Hl. split; [now repeat split|].
  unfold requestsSent. cbn [effects setEffects].
  rewrite ExtensionFacts.requestsOf_app.
  replace (requestsOf l) with (@nil HttpRequest); [now rewrite app_nil_r|].
  induction Hl as [|e l He _ IH]; [reflexivity|].
  unfold requestsOf in *. cbn [flat_map]. rewrite <- IH. now destruct e.
Qed.

(** X15. [uploadFile] gives up before the network when the RESTlet
    URL is not configured, when the document is in no workspace folder,
    or when the file it is mapped to in the upload folder is missing: it
    returns without throwing, hands no request to the network and leaves
    files, settings and history as they were. *)
Theorem uploadFile_gives_up_offline (document : Document) (w : World) :
  present (credentialIn "restletUrl" (doc_workspaceFolder document) w) = false
  \/ doc_workspaceFolder document = None
  \/ (exists ws,
        doc_workspaceFolder document = Some ws
        /\ isMapped (resolve (doc_fileName document) (fsPath ws) (watchFolderIn ws w)
                       (uploadFolderIn ws w) (rootPathIn ws w)) = true
        /\ fileSystem w
             !! uploadPath (resolve (doc_fileName document) (fsPath ws)
                              (watchFolderIn ws w) (uploadFolderIn ws w)
                              (rootPathIn ws w)) = None) ->
  fst (uploadFile document w) = inr tt
  /\ offline w (snd (uploadFile document w)).
Proof.
  intros Hcases.
  destruct (uploadFile_gives_up document w Hcases) as (l & -> & Hl).
  split; [reflexivity|]. cbn [snd].
  eapply offline_trans; [apply offline_warm|now apply offline_effects].
Qed.

End SaveFacts.

(** ** The upload history and [testConnection] *)

Module HistoryFacts.
Import Js Eff Extension EffectFacts SaveFacts.

Local Abbreviation same := (sameSetup_frame).

Lemma length_remember r h :
  length h <= historyLimit -> length (remember r h) <= historyLimit.
Proof.
  intros Hh. unfold remember. cbv zeta.
  destruct (historyLimit <? length (r :: h))%nat eqn:E; [|now apply Nat.ltb_ge in E].
  assert (Hlast : length (removelast (r :: h)) = length h).
  { clear. revert r. induction h as [|x h IH]; intros r; [reflexivity|].
    change (removelast (r :: x :: h)) with (r :: removelast (x :: h)).
    cbn [length]. now rewrite IH. }
  now rewrite Hlast.
Qed.

Lemma recorded_same w w' : sameSetup w w' -> recordsAtMostOne w w'.
Proof. intros (_ & _ & _ & _ & Hh & _ & Hr). split; [exact Hr|now left]. Qed.

Lemma same_then_recorded w1 w2 w3 :
  sameSetup w1 w2 -> recordsAtMostOne w2 w3 -> recordsAtMostOne w1 w3.
Proof.
  intros (_ & _ & _ & _ & Hh & _ & Hr) [Hr' Hcases]. split; [congruence|].
  rewrite Hh, Hr in Hcases. exact Hcases.
Qed.

Lemma recorded_then_same w1 w2 w3 :
  recordsAtMostOne w1 w2 -> sameSetup w2 w3 -> recordsAtMostOne w1 w3.
Proof.
  intros [Hr' Hcases] (_ & _ & _ & _ & Hh & _ & Hr). split; [congruence|].
  rewrite Hh. exact Hcases.
Qed.

Lemma bind_recorded {A B} (m : M A) (k : A -> M B) :
  (forall w, sameSetup w (snd (m w))) ->
  (forall a w, recordsAtMostOne w (snd (k a w))) ->
  forall w, recordsAtMostOne w (snd (bind m k w)).
Proof.
  intros Hm Hk w. unfold bind. specialize (Hm w).
  destruct (m w) as [[e|a] w']; cbn [snd] in *; [now apply recorded_same|].
  eapply same_then_recorded; [exact Hm|apply Hk].
Qed.

(** An answer that counts as a success comes from the endpoint. *)
Lemma settle_success timeout outcome w response :
  fst (settle timeout outcome w) = inr response -> success response = true ->
  answersSuccess outcome = true.
Proof.
  destruct outcome as [statusCode [|answer|raw]|text|];
    unfold settle, log, effect, modify, throw, ret, bind; cbn [fst snd answersSuccess].
  - destruct (is2xx statusCode); [reflexivity|discriminate].
  - destruct (is2xx statusCode); [|discriminate]. now intros [= ->] ->.
  - discriminate.
  - discriminate.
  - discriminate.
Qed.

Lemma makeAuthenticatedRequest_success url method payload workspaceFolder w response :
  fst (makeAuthenticatedRequest url method payload workspaceFolder w) = inr response ->
  success response = true ->
  exists request, answersSuccess (remote w request) = true.
Proof.
  rewrite ExtensionFacts.makeAuthenticatedRequest_value. cbv zeta.
  destruct (secretsPresent workspaceFolder w); [|discriminate].
  destruct (signingFault w _) as [e|]; [discriminate|].
  destruct (parseUrl w url) as [urlParsed|]; [|discriminate].
  intros Hfst Hsuccess. eexists. exact (settle_success _ _ _ _ Hfst Hsuccess).
Qed.

Lemma uploadFile_try_recorded url ws info w :
  recordsAtMostOne w
    (snd (uploadFile_try url ws info (path_basename (uploadPath info)) w)).
Proof.
  unfold uploadFile_try. revert w.
  apply bind_recorded; [apply (readFileSync_stays _ _ same)|].
  intros content w. cbv zeta.
  set (payload := Some _).
  pose proof (makeAuthenticatedRequest_stays _ _ same "POST" payload
                (fun _ _ _ => I) url (Some ws) w) as Hsame.
  pose proof (makeAuthenticatedRequest_success url "POST" payload (Some ws) w) as Hok.
  unfold bind at 1.
  destruct (makeAuthenticatedRequest url "POST" payload (Some ws) w)
    as [[e|response] w1]; cbn [fst snd] in *; [now apply recorded_same|].
  destruct (success response) eqn:Hsuccess;
    [|unfold throw; cbn [snd]; now apply recorded_same].
  destruct (Hok response eq_refl Hsuccess) as [request Hrequest].
  destruct Hsame as (_ & _ & _ & _ & Hh & _ & Hr).
  unfold bind, log, effect, modify, gets, ret. cbn [fst snd].
  cbn [showNotifications setUploadHistory setEffects effects uploadHistory].
  assert (Hrecord : forall w2,
    remote w2 = remote w1 ->
    uploadHistory w2
    = remember {| h_file := path_basename (uploadPath info);
                  h_localPath := uploadPath info;
                  h_netSuitePath := netSuitePath info;
                  h_action := action response;
                  h_fileId := fileId response |} (uploadHistory w1) ->
    recordsAtMostOne w w2).
  { intros w2 Hr2 Hh2. split; [congruence|]. right.
    eexists _, request. rewrite Hh2, Hh. repeat split. exact Hrequest. }
  destruct (showNotifications w1); cbv beta iota; cbn [fst snd]; now apply Hrecord.
Qed.

Lemma uploadFile_recorded document w :
  recordsAtMostOne w (snd (uploadFile document w)).
Proof.
  unfold uploadFile. cbv zeta. revert w.
  apply bind_recorded; [apply (getCredential_stays _ _ same)|].
  intros restletUrl w.
  destruct (negb (present restletUrl));
    [now apply recorded_same, (effect_stays _ _ same)|].
  destruct (doc_workspaceFolder document) as [ws|];
    [|now apply recorded_same, (log_stays _ _ same)].
  revert w. apply bind_recorded; [apply (resolveUploadFile_stays _ _ same)|].
  intros info. apply bind_recorded.
  { destruct (isMapped info);
      [apply (existsSync_stays _ _ same)|apply (ret_stays _ _ same)]. }
  intros found w. destruct (negb found).
  { apply recorded_same. revert w.
    apply (bind_stays _ _ same); [apply (gets_stays _ _ same)|].
    intros config. now apply (effect_stays _ _ same). }
  revert w. apply bind_recorded; [now apply (effect_stays _ _ same)|]. intros _.
  apply bind_recorded; [apply (log_stays _ _ same)|]. intros _ w.
  unfold tryCatch.
  pose proof (uploadFile_try_recorded (default "" restletUrl) ws info w) as Htry.
  destruct (uploadFile_try _ ws info _ w) as [[e|[]] w1]; cbn [snd] in *;
    [|exact Htry].
  eapply recorded_then_same; [exact Htry|].
  generalize w1. apply (bind_stays _ _ same); [now apply (effect_stays _ _ same)|].
  intros _. apply (bind_stays _ _ same); [apply (log_stays _ _ same)|].
  intros _. now apply (effect_stays _ _ same).
Qed.

(** X16. The upload history records successes only: [uploadFile]
    leaves the history as it was or puts one record in front of it (the
    oldest dropped beyond fifty), whose file name is the base name of its
    local path; a history of at most fifty records stays so; and when the
    endpoint answers no request with a success the history is
    unchanged. *)
Theorem uploadFile_records_successes_only (document : Document) (w : World) :
  let w' := snd (uploadFile document w) in
  (uploadHistory w' = uploadHistory w
   \/ exists r, uploadHistory w' = remember r (uploadHistory w)
                /\ h_file r = path_basename (h_localPath r))
  /\ (length (uploadHistory w) <= historyLimit ->
      length (uploadHistory w') <= historyLimit)
  /\ ((forall request, answersSuccess (remote w request) = false) ->
      uploadHistory w' = uploadHistory w).
Proof.
  cbv zeta. destruct (uploadFile_recorded document w) as [_ Hcases].
  split; [|split].
  - destruct Hcases as [Hsame|(r & request & Hr & Hname & _)];
      [now left|right; now exists r].
  - intros Hlen. destruct Hcases as [->|(r & request & -> & _)];
      [exact Hlen|now apply length_remember].
  - intros Hnever. destruct Hcases as [Hsame|(r & request & _ & _ & Hyes)];
      [exact Hsame|]. rewrite Hnever in Hyes. discriminate.
Qed.

(** *** [testConnection] *)

Lemma sends_refl P w : sends P w w.
Proof. exists []. split; [now rewrite app_nil_r|constructor]. Qed.

Lemma sends_trans P w1 w2 w3 : sends P w1 w2 -> sends P w2 w3 -> sends P w1 w3.
Proof.
  intros (l1 & H1 & G1) (l2 & H2 & G2). exists (l1 ++ l2)%list.
  split; [rewrite H2, H1; now rewrite <- app_assoc|].
  apply List.Forall_app. now split.
Qed.

Lemma sends_frame P : Frame (sends P) (localOr P).
Proof.
  split.
  - apply sends_refl.
  - apply sends_trans.
  - intros e w He. unfold sends, requestsSent. cbn [effects setEffects].
    rewrite ExtensionFacts.requestsOf_app. eexists. split; [reflexivity|].
    destruct e; cbn; try constructor; [exact He|constructor].
  - intros c w. exists []. split; [now rewrite app_nil_r|constructor].
  - intros l w. exists []. split; [now rewrite app_nil_r|constructor].
  - now intros [].
Qed.

Lemma effect_returns e w : fst (effect e w) = inr tt.
Proof. reflexivity. Qed.

(** X17. [testConnection] only probes: it never throws, leaves
    files, settings and the upload history as they were, hands the
    network nothing but [GET] requests without a body, and none at all
    when the RESTlet URL is not configured. *)
Theorem testConnection_only_probes
    (workspaceFolder : option WorkspaceFolder) (w : World) :
  let w' := snd (testConnection workspaceFolder w) in
  fst (testConnection workspaceFolder w) = inr tt
  /\ sameSetup w w'
  /\ sends isProbe w w'
  /\ (present (credentialIn "restletUrl" workspaceFolder w) = false ->
      offline w w').
Proof.
  cbv zeta. split; [|split; [|split]].
  - unfold testConnection. rewrite ExtensionFacts.bind_getCredential.
    destruct (negb (present _)); [reflexivity|].
    unfold tryCatch.
    match goal with
    | |- fst (match ?m with _ => _ end) = _ => destruct m as [[e|[]] w1]
    end; reflexivity.
  - now apply (testConnection_stays _ _ sameSetup_frame).
  - apply (testConnection_stays _ _ (sends_frame isProbe)).
    intros request Hmethod Hbody. now split.
  - intros Hurl. unfold testConnection. rewrite ExtensionFacts.bind_getCredential.
    rewrite Hurl. cbn [negb]. unfold effect, modify. cbn [snd].
    eapply offline_trans; [apply offline_warm|now apply offline_effect].
Qed.

End HistoryFacts.

(** ** What the history says of a successful upload *)

Module AnswerFacts.
Import Js Eff Extension EffectFacts SaveFacts HistoryFacts.

(** The [try] block of [uploadFile] when the endpoint answers the request
    with a success. *)
Lemma uploadFile_try_records url ws info w fileContent urlParsed statusCode response :
  loaded (Some ws) w ->
  fileSystem w !! uploadPath info = Some (RegularFile fileContent) ->
  secretsPresent (Some ws) w = true ->
  signs url "POST" (Some ws) w ->
  parseUrl w url = Some urlParsed ->
  (forall request,
      req_body request = Some (payloadOf info fileContent) ->
      remote w request = Responded statusCode (Json response)) ->
  is2xx statusCode = true -> success response = true ->
  fst (uploadFile_try url ws info (path_basename (uploadPath info)) w) = inr tt
  /\ uploadHistory (snd (uploadFile_try url ws info (path_basename (uploadPath info)) w))
     = remember (recordOf info response) (uploadHistory w).
Proof.
  intros Hloaded Hfile Hsecrets Hsigns Hurl Hremote H2xx Hsuccess.
  unfold uploadFile_try. unfold bind at 1.
  unfold readFileSync, bind, effect, modify, gets, ret. cbn [fst snd].
  cbn [fileSystem setEffects]. rewrite Hfile.
  rewrite ExtensionFacts.makeAuthenticatedRequest_value. cbv zeta.
  rewrite (ExtensionFacts.secretsPresent_setEffects _ _ _ Hloaded), Hsecrets.
  rewrite (ExtensionFacts.signs_setEffects _ _ _ _ _ Hloaded), Hsigns.
  cbn [parseUrl remote nonces setEffects]. rewrite Hurl.
  match goal with
  | |- context [remote w ?r] => rewrite (Hremote r eq_refl)
  end.
  rewrite (ExtensionFacts.warm_of_loaded (Some ws)
             (setEffects (effects w ++ [FsRead (uploadPath info)]) w) Hloaded).
  unfold settle, log, effect, modify, throw, ret, bind. cbn [fst snd].
  rewrite H2xx. cbn [fst snd]. rewrite Hsuccess.
  cbn [fst snd showNotifications setUploadHistory setEffects setNonces
       uploadHistory effects].
  destruct (showNotifications w); cbn [fst snd uploadHistory setEffects setUploadHistory];
    split; reflexivity.
Qed.

(** X24. A successful upload is recorded as the endpoint answered it:
    when the RESTlet URL and the secrets are configured, the file to
    upload is there, the OAuth library signs the request data, the URL
    parses, and the endpoint answers the request that carries the file
    with a status from 200 to 299 and a success, [uploadFile] puts in
    front of the history the record of the file with the action and the
    file id of the answer. *)
Theorem uploadFile_records_the_answer
    (document : Document) (ws : WorkspaceFolder) (w : World) (url fileContent : string)
    (urlParsed : Url) (statusCode : Z) (response : Answer) :
  let info := resolve (doc_fileName document) (fsPath ws) (watchFolderIn ws w)
                (uploadFolderIn ws w) (rootPathIn ws w) in
  doc_workspaceFolder document = Some ws ->
  credentialIn "restletUrl" (Some ws) w = Some url ->
  truthy url = true ->
  fileSystem w !! uploadPath info = Some (RegularFile fileContent) ->
  secretsPresent (Some ws) w = true ->
  signs url "POST" (Some ws) w ->
  parseUrl w url = Some urlParsed ->
  (forall request,
      req_body request = Some (payloadOf info fileContent) ->
      remote w request = Responded statusCode (Json response)) ->
  is2xx statusCode = true -> success response = true ->
  uploadHistory (snd (uploadFile document w))
  = remember (recordOf info response) (uploadHistory w).
Proof.
  intros info Hws Hurl Htruthy Hfile Hsecrets Hsigns Hparse Hremote H2xx Hsuccess.
  destruct (ExtensionFacts.warm_frame (Some ws) w)
    as (Hsettings & _ & Hfs & _ & _ & Hparse' & _ & Hremote' & _).
  assert (Hhistory : uploadHistory (warm (Some ws) w) = uploadHistory w)
    by apply (loadEnvConfig_stays sameSetup (fun _ => True) sameSetup_frame).
  unfold uploadFile. rewrite Hws, ExtensionFacts.bind_getCredential, Hurl.
  cbn [present]. rewrite Htruthy. cbn [negb].
  unfold bind at 1. rewrite ExtensionFacts.resolveUploadFile_value.
  unfold watchFolderIn, uploadFolderIn, rootPathIn.
  rewrite !ExtensionFacts.credentialIn_warm, ExtensionFacts.warm_twice.
  fold (watchFolderIn ws w) (uploadFolderIn ws w) (rootPathIn ws w). fold info.
  set (w1 := warm (Some ws) w) in *.
  assert (Hloaded : loaded (Some ws) w1) by apply ExtensionFacts.warm_loaded.
  assert (Hfound : exists l,
    (if isMapped info then existsSync (uploadPath info) else ret true) w1
    = (inr true, setEffects (effects w1 ++ l) w1)).
  { destruct (isMapped info).
    - exists [FsExists (uploadPath info)].
      unfold existsSync, bind, effect, modify, gets. cbn [fst snd fileSystem setEffects].
      now rewrite Hfs, Hfile.
    - exists []. unfold ret. rewrite app_nil_r. now destruct w1. }
  destruct Hfound as (l & Hfound).
  unfold bind at 1. rewrite Hfound. cbn [negb default]. unfold id.
  unfold bind at 1. unfold effect at 1. unfold modify at 1. cbv beta iota.
  unfold bind at 1. unfold log at 1. unfold effect at 1. unfold modify at 1.
  cbv beta iota. cbn [effects setEffects]. rewrite !ExtensionFacts.setEffects_twice.
  set (w3 := setEffects _ w1).
  destruct (uploadFile_try_records url ws info w3 fileContent urlParsed statusCode
              response) as [Hfst Hsnd]; try assumption.
  - unfold w3. cbn [fileSystem setEffects]. now rewrite Hfs.
  - unfold w3.
    apply (eq_trans (ExtensionFacts.frame_of_loaded_effects (Some ws) _ w)), Hsecrets.
  - unfold w3. now apply ExtensionFacts.signs_of_loaded_effects.
  - unfold w3. cbn [parseUrl setEffects]. now rewrite Hparse'.
  - intros request Hbody. unfold w3. cbn [remote setEffects].
    rewrite Hremote'. now apply Hremote.
  - unfold tryCatch.
    destruct (uploadFile_try url ws info (path_basename (uploadPath info)) w3)
      as [[e|[]] w4]; cbn [fst snd] in *; [discriminate|].
    rewrite Hsnd. unfold w3. cbn [uploadHistory setEffects]. now rewrite Hhistory.
Qed.

End AnswerFacts.

(** ** The timers over a whole run *)

Module TimerFacts.
Import Dispatcher DispatcherFacts.

Lemma NoDup_map_eq {A B} (f : A -> B) (l : list A) a b :
  List.NoDup (map f l) -> In a l -> In b l -> f a = f b -> a = b.
Proof.
  induction l as [|x l IH]; intros Hnd Ha Hb Hf; [destruct Ha|].
  cbn [map] in Hnd. apply List.NoDup_cons_iff in Hnd as [Hx Hnd].
  destruct Ha as [->|Ha], Hb as [->|Hb]; [reflexivity| | |now apply IH].
  - elim Hx. rewrite Hf. now apply in_map.
  - elim Hx. rewrite <- Hf. now apply in_map.
Qed.

Lemma NoDup_map_filter {A B} (f : A -> B) (P : A -> bool) (l : list A) :
  List.NoDup (map f l) -> List.NoDup (map f (List.filter P l)).
Proof.
  induction l as [|x l IH]; intros Hnd; [exact Hnd|].
  cbn [map] in Hnd. apply List.NoDup_cons_iff in Hnd as [Hx Hnd].
  cbn [List.filter]. destruct (P x); [|now apply IH].
  cbn [map]. constructor; [|now apply IH].
  intros Hin. apply Hx. apply in_map_iff in Hin as (y & <- & Hy).
  apply in_map. now apply filter_In in Hy.
Qed.

Lemma NoDup_snoc {A} (l : list A) x :
  List.NoDup l -> ~ In x l -> List.NoDup (l ++ [x]).
Proof.
  induction l as [|a l IH]; intros Hnd Hx; cbn [app].
  - constructor; [now intros []|constructor].
  - apply List.NoDup_cons_iff in Hnd as [Ha Hnd]. constructor.
    + intros Hin. apply in_app_iff in Hin as [Hin|[<-|[]]]; [now apply Ha|].
      apply Hx. now left.
    + apply IH; [exact Hnd|]. intros Hin. apply Hx. now right.
Qed.

Lemma insertByDue_perm t l : Permutation (insertByDue t l) (t :: l).
Proof.
  induction l as [|u l IH]; [reflexivity|]. cbn [insertByDue].
  destruct (timer_due t <? timer_due u)%nat; [reflexivity|].
  rewrite IH. apply perm_swap.
Qed.

Lemma sortByDue_perm l : Permutation (sortByDue l) l.
Proof.
  induction l as [|t l IH]; [reflexivity|]. cbn [sortByDue fold_right].
  fold (sortByDue l). rewrite insertByDue_perm. now constructor.
Qed.

Lemma dueBy_NoDup time l :
  List.NoDup (map timer_id l) -> List.NoDup (map timer_id (dueBy time l)).
Proof.
  intros Hnd. unfold dueBy.
  eapply Permutation_NoDup;
    [apply Permutation_map; symmetry; apply sortByDue_perm|].
  now apply NoDup_map_filter.
Qed.

Lemma clearTimeout_spec handle l t :
  In t (clearTimeout handle l) <-> In t l /\ timer_id t <> handle.
Proof.
  unfold clearTimeout. rewrite filter_In, negb_true_iff, Nat.eqb_neq. reflexivity.
Qed.

Lemma filter_length_le {A} (P : A -> bool) (l : list A) :
  length (List.filter P l) <= length l.
Proof.
  induction l as [|x l IH]; [reflexivity|]. cbn [List.filter].
  destruct (P x); cbn [length]; lia.
Qed.

Lemma filter_length_lt {A} (P : A -> bool) (l : list A) a :
  In a l -> P a = false -> length (List.filter P l) < length l.
Proof.
  induction l as [|x l IH]; intros Hin Ha; [destruct Hin|].
  cbn [List.filter]. destruct Hin as [->|Hin].
  - rewrite Ha. pose proof (filter_length_le P l). cbn [length]. lia.
  - specialize (IH Hin Ha). destruct (P x); cbn [length]; lia.
Qed.

Section Loop.
Variable env : Env.

(** *** A timer fires *)

Lemma inStep_fire s t : inStep s -> In t (pending s) -> inStep (fire env s t).
Proof.
  intros (Hnd & Hheld & Hback) Ht. split; [|split]; cbn [fire pending debounceTimers].
  - now apply NoDup_map_filter.
  - intros u Hu. apply clearTimeout_spec in Hu as [Hu Hid].
    rewrite lookup_delete_ne; [now apply Hheld|].
    intros Hfile. apply Hid.
    pose proof (Hheld t Ht) as H1. pose proof (Hheld u Hu) as H2.
    rewrite Hfile in H1. congruence.
  - intros g h Hg. apply lookup_delete_Some in Hg as [Hne Hg].
    destruct (Hback g h Hg) as (u & Hu & Hfile & Hid).
    exists u. split; [|now split]. apply clearTimeout_spec. split; [exact Hu|].
    intros Hsame. apply Hne. rewrite <- Hfile. f_equal. symmetry.
    now apply (NoDup_map_eq timer_id (pending s)).
Qed.

Lemma accounted_fire seen s t :
  accounted env seen s -> In t (pending s) -> accounted env seen (fire env s t).
Proof.
  intros (Hcount & Htimers & Huploads) Ht. split; [|split].
  - intros g. rewrite pendingOf_fire, uploadsOf_fire, length_app.
    specialize (Hcount g).
    destruct (String.eqb (timer_file t) g) eqn:E; cbn [length].
    + assert (length (clearTimeout (timer_id t) (pendingOf g s))
              < length (pendingOf g s)); [|lia].
      apply (filter_length_lt _ _ t).
      * unfold pendingOf. apply filter_In. now split.
      * now rewrite Nat.eqb_refl.
    + pose proof (filter_length_le
                    (fun u => negb (timer_id u =? timer_id t)%nat) (pendingOf g s)).
      unfold clearTimeout. lia.
  - intros u Hu. cbn [fire pending] in Hu. apply clearTimeout_spec in Hu as [Hu _].
    now apply Htimers.
  - intros u Hu. cbn [fire uploads] in Hu. apply in_app_iff in Hu as [Hu|[<-|[]]].
    + now apply Huploads.
    + destruct (Htimers t Ht) as (e & He & Hfile & Hdue).
      exists e. split; [exact He|]. split; [exact Hfile|].
      cbn [uploadAt upload_start]. lia.
Qed.

(** What every firing of an armed timer keeps, the firing of the timers
    due keeps. *)
Lemma fold_fire_keeps (P : Loop -> Prop) :
  (forall s t, P s -> In t (pending s) -> P (fire env s t)) ->
  forall l s,
    P s -> (forall t, In t l -> In t (pending s)) ->
    List.NoDup (map timer_id l) ->
    P (fold_left (fire env) l s).
Proof.
  intros Hfire l. induction l as [|t l IH]; intros s Hs Hin Hnd; [exact Hs|].
  cbn [fold_left]. cbn [map] in Hnd. apply List.NoDup_cons_iff in Hnd as [Ht Hnd].
  apply IH.
  - apply Hfire; [exact Hs|]. apply Hin. now left.
  - intros u Hu. cbn [fire pending]. apply clearTimeout_spec.
    split; [apply Hin; now right|]. intros Hid. apply Ht. rewrite <- Hid.
    now apply in_map.
  - exact Hnd.
Qed.

Lemma dueBy_pending time s t :
  In t (dueBy time (pending s)) -> In t (pending s).
Proof. intros Ht. now apply dueBy_In in Ht. Qed.

Lemma advanceTo_inStep time s : inStep s -> inStep (advanceTo env time s).
Proof.
  intros Hs.
  apply (fold_fire_keeps inStep inStep_fire (dueBy time (pending s)) s Hs).
  - apply dueBy_pending.
  - apply dueBy_NoDup, Hs.
Qed.

Lemma advanceTo_accounted seen time s :
  inStep s -> accounted env seen s -> accounted env seen (advanceTo env time s).
Proof.
  intros Hs Ha.
  apply (fold_fire_keeps (accounted env seen) (accounted_fire seen)
           (dueBy time (pending s)) s Ha).
  - apply dueBy_pending.
  - apply dueBy_NoDup, Hs.
Qed.

Lemma advanceTo_time time s : time <= now (advanceTo env time s).
Proof. cbn [advanceTo now]. lia. Qed.

(** *** A save *)

Lemma armed_spec s g t :
  inStep s ->
  In t match debounceTimers s !! g with
       | Some handle => clearTimeout handle (pending s)
       | None => pending s
       end
  <-> In t (pending s) /\ timer_file t <> g.
Proof.
  intros (Hnd & Hheld & Hback).
  destruct (debounceTimers s !! g) as [handle|] eqn:Hg.
  - rewrite clearTimeout_spec. split; intros [Ht Hne]; (split; [exact Ht|]).
    + intros Hfile. apply Hne. specialize (Hheld t Ht). rewrite Hfile in Hheld.
      congruence.
    + intros Hid. destruct (Hback g handle Hg) as (u & Hu & Hfile & Hid').
      apply Hne. rewrite <- Hfile. f_equal.
      apply (NoDup_map_eq timer_id (pending s)); congruence.
  - split; [|now intros []]. intros Ht. split; [exact Ht|].
    intros Hfile. specialize (Hheld t Ht). rewrite Hfile in Hheld. congruence.
Qed.

Lemma inStep_debounceUpload g s :
  bounded s -> inStep s -> inStep (debounceUpload env g s).
Proof.
  intros [_ Hfresh] Hs. pose proof Hs as (Hnd & Hheld & Hback).
  split; [|split]; cbn [debounceUpload pending debounceTimers timer_id].
  - rewrite map_app. cbn [map timer_id].
    apply NoDup_snoc.
    + destruct (debounceTimers s !! g);
        [now apply NoDup_map_filter|exact Hnd].
    + intros Hh. apply in_map_iff in Hh as (t & Hid & Ht).
      apply armed_In in Ht. specialize (Hfresh t Ht). lia.
  - intros t Ht. apply in_app_iff in Ht as [Ht|[<-|[]]].
    + apply (armed_spec s g t Hs) in Ht as [Ht Hne].
      rewrite lookup_insert_ne by congruence. now apply Hheld.
    + cbn [timer_file timer_id]. apply lookup_insert_eq.
  - intros f h Hf. destruct (decide (g = f)) as [->|Hne].
    + rewrite lookup_insert_eq in Hf. injection Hf as <-.
      eexists. split; [apply in_app_iff; right; now left|now split].
    + rewrite lookup_insert_ne in Hf by exact Hne.
      destruct (Hback f h Hf) as (t & Ht & Hfile & Hid).
      exists t. split; [|now split]. apply in_app_iff. left.
      apply (armed_spec s g t Hs). split; [exact Ht|congruence].
Qed.

Lemma accounted_debounceUpload seen e s :
  save_time e <= now s -> accounted env seen s ->
  accounted env (seen ++ [e]) (debounceUpload env (save_file e) s).
Proof.
  intros Htime (Hcount & Htimers & Huploads). split; [|split].
  - intros g. specialize (Hcount g). unfold savesOf, pendingOf, uploadsOf in *.
    cbn [debounceUpload pending uploads].
    rewrite !List.filter_app, !length_app. cbn [List.filter timer_file].
    assert (length (List.filter (fun t => String.eqb (timer_file t) g)
                      match debounceTimers s !! save_file e with
                      | Some handle => clearTimeout handle (pending s)
                      | None => pending s
                      end)
            <= length (List.filter (fun t => String.eqb (timer_file t) g) (pending s))).
    { destruct (debounceTimers s !! save_file e); [|lia].
      unfold clearTimeout. rewrite filter_swap. apply filter_length_le. }
    destruct (String.eqb (save_file e) g); cbn [length]; lia.
  - intros t Ht. cbn [debounceUpload pending] in Ht.
    apply in_app_iff in Ht as [Ht|[<-|[]]].
    + apply armed_In in Ht. destruct (Htimers t Ht) as (e' & He' & Hrest).
      exists e'. split; [apply in_app_iff; now left|exact Hrest].
    + exists e. split; [apply in_app_iff; right; now left|].
      cbn [timer_file timer_due]. split; [reflexivity|lia].
  - intros u Hu. cbn [debounceUpload uploads] in Hu.
    destruct (Huploads u Hu) as (e' & He' & Hrest).
    exists e'. split; [apply in_app_iff; now left|exact Hrest].
Qed.

Lemma run_keeps events : forall seen s,
  bounded s -> inStep s -> accounted env seen s ->
  inStep (run env events s) /\ accounted env (seen ++ events) (run env events s).
Proof.
  induction events as [|e events IH]; intros seen s Hb Hs Ha.
  { rewrite app_nil_r. now split. }
  cbn [run fold_left]. fold (run env events (step env s e)).
  replace (seen ++ e :: events)%list with ((seen ++ [e]) ++ events)%list
    by now rewrite <- app_assoc.
  pose proof (advanceTo_inStep (save_time e) s Hs) as Hs'.
  pose proof (advanceTo_accounted seen (save_time e) s Hs Ha) as Ha'.
  pose proof (advanceTo_bounded env (save_time e) s Hb) as Hb'.
  apply IH.
  - now apply bounded_debounceUpload.
  - now apply inStep_debounceUpload.
  - apply accounted_debounceUpload; [apply advanceTo_time|exact Ha'].
Qed.

Lemma initial_keeps : inStep initial /\ accounted env [] initial.
Proof.
  split; [split; [constructor|split]|split; [|split]]; cbn; try now intros.
Qed.

End Loop.

Lemma same_handle_once (l : list Timer) h :
  List.NoDup (map timer_id l) -> (forall t, In t l -> timer_id t = h) ->
  length l <= 1.
Proof.
  destruct l as [|a [|b l]]; cbn [length]; [lia|lia|].
  intros Hnd Hall. cbn [map] in Hnd. apply List.NoDup_cons_iff in Hnd as [Ha _].
  elim Ha. left. rewrite (Hall a), (Hall b); [reflexivity|right; now left|now left].
Qed.

(** X18. In every state the extension reaches from its start by
    saves, whatever their times, the map of timers and the armed timers
    agree: the map holds the handle of every armed timer under its file,
    every handle of the map is that of an armed timer of that file, and
    no file has more than one armed timer. *)
Theorem one_timer_per_file (env : Env) (events : list Save) :
  let s := run env events initial in
  (forall t, In t (pending s) ->
             debounceTimers s !! timer_file t = Some (timer_id t))
  /\ (forall g h, debounceTimers s !! g = Some h ->
                  exists t, In t (pending s) /\ timer_file t = g /\ timer_id t = h)
  /\ (forall g, length (pendingOf g s) <= 1).
Proof.
  cbv zeta. destruct (initial_keeps env) as [Hs Ha].
  destruct (run_keeps env events [] initial bounded_initial Hs Ha)
    as [(Hnd & Hheld & Hback) _].
  split; [exact Hheld|split; [exact Hback|]].
  intros g. destruct (debounceTimers (run env events initial) !! g) as [h|] eqn:Hg.
  - apply (same_handle_once _ h).
    + unfold pendingOf. now apply NoDup_map_filter.
    + intros t Ht. unfold pendingOf in Ht. apply filter_In in Ht as [Ht Hfile].
      apply String.eqb_eq in Hfile. specialize (Hheld t Ht).
      rewrite Hfile in Hheld. congruence.
  - replace (pendingOf g (run env events initial)) with (@nil Timer);
      [cbn; lia|].
    symmetry. apply filter_none. intros t Ht.
    apply String.eqb_neq. intros Hfile. specialize (Hheld t Ht).
    rewrite Hfile in Hheld. congruence.
Qed.

Lemma cleared_In (entries : list (string * nat)) l t :
  In t (fold_right (fun entry l => clearTimeout (snd entry) l) l entries) ->
  In t l /\ forall entry, In entry entries -> timer_id t <> snd entry.
Proof.
  induction entries as [|entry entries IH]; cbn [fold_right]; intros Ht.
  - split; [exact Ht|now intros].
  - apply clearTimeout_spec in Ht as [Ht Hne]. destruct (IH Ht) as [Hin Hrest].
    split; [exact Hin|]. intros entry' [<-|Hentry]; [exact Hne|now apply Hrest].
Qed.

(** X19. [deactivate] stops everything that is pending: after any
    run of saves it leaves no armed timer and an empty map, and however
    much time passes afterwards no further upload starts. *)
Theorem deactivate_stops_the_timers (env : Env) (events : list Save) (time : nat) :
  let s := run env events initial in
  pending (deactivate s) = []
  /\ debounceTimers (deactivate s) = ∅
  /\ uploads (advanceTo env time (deactivate s)) = uploads s.
Proof.
  cbv zeta. destruct (initial_keeps env) as [Hs Ha].
  destruct (run_keeps env events [] initial bounded_initial Hs Ha)
    as [(Hnd & Hheld & Hback) _].
  set (s := run env events initial) in *.
  assert (Hnone : pending (deactivate s) = []).
  { destruct (pending (deactivate s)) as [|t l] eqn:E; [reflexivity|].
    assert (Ht : In t (pending (deactivate s))) by (rewrite E; now left).
    cbn [deactivate pending] in Ht. apply cleared_In in Ht as [Ht Hne].
    elim (Hne (timer_file t, timer_id t)); [|reflexivity].
    apply list_elem_of_In, elem_of_map_to_list. now apply Hheld. }
  split; [exact Hnone|]. split; [reflexivity|].
  unfold advanceTo. rewrite Hnone. reflexivity.
Qed.

(** X20. Uploads come from saves: after any run of saves a file has
    no more uploads started and timers armed, taken together, than it had
    saves, and every upload started at least a debounce delay after a
    save of its file. *)
Theorem uploads_follow_saves (env : Env) (events : list Save) :
  let s := run env events initial in
  (forall g, length (uploadsOf g s) + length (pendingOf g s)
             <= length (savesOf g events))
  /\ (forall u, In u (uploads s) ->
        exists e, In e events /\ save_file e = upload_file u
                  /\ save_time e + delayOf env <= upload_start u).
Proof.
  cbv zeta. destruct (initial_keeps env) as [Hs Ha].
  destruct (run_keeps env events [] initial bounded_initial Hs Ha)
    as [_ (Hcount & _ & Huploads)].
  split; [exact Hcount|exact Huploads].
Qed.

Section Quiet.
Variable env : Env.

Lemma settled_fire seen s t :
  settled env seen s -> In t (pending s) -> settled env seen (fire env s t).
Proof.
  intros (Hseen & Htimers & Hstarted & Hquiet) Ht.
  split; [|split; [|split]]; cbn [fire now pending uploads].
  - intros e He. specialize (Hseen e He). lia.
  - intros u e Hu. apply clearTimeout_spec in Hu as [Hu _]. now apply Htimers.
  - intros u Hu. apply in_app_iff in Hu as [Hu|[<-|[]]].
    + specialize (Hstarted u Hu). lia.
    + cbn [uploadAt upload_start]. lia.
  - intros u e Hu He Hfile. apply in_app_iff in Hu as [Hu|[<-|[]]].
    + now apply Hquiet.
    + left. cbn [uploadAt upload_start upload_file] in *.
      specialize (Htimers t e Ht He Hfile). lia.
Qed.

Lemma advanceTo_settled seen time s :
  inStep s -> settled env seen s -> settled env seen (advanceTo env time s).
Proof.
  intros Hs Hq.
  destruct (fold_fire_keeps env (settled env seen) (settled_fire seen)
              (dueBy time (pending s)) s Hq) as (Hseen & Htimers & Hstarted & Hquiet).
  - apply dueBy_pending.
  - apply dueBy_NoDup, Hs.
  - split; [|split; [|split]]; cbn [advanceTo now pending uploads].
    + intros e He. specialize (Hseen e He). lia.
    + exact Htimers.
    + intros u Hu. specialize (Hstarted u Hu). lia.
    + exact Hquiet.
Qed.

Lemma settled_debounceUpload seen e s :
  inStep s -> now s = save_time e -> settled env seen s ->
  settled env (seen ++ [e]) (debounceUpload env (save_file e) s).
Proof.
  intros Hs Hnow (Hseen & Htimers & Hstarted & Hquiet).
  split; [|split; [|split]]; cbn [debounceUpload now pending uploads].
  - intros e' He'. apply in_app_iff in He' as [He'|[<-|[]]]; [now apply Hseen|lia].
  - intros t e' Ht He' Hfile. apply in_app_iff in Ht as [Ht|[<-|[]]].
    + apply (armed_spec s (save_file e) t Hs) in Ht as [Ht Hne].
      apply in_app_iff in He' as [He'|[<-|[]]]; [now apply Htimers|].
      now elim Hne.
    + cbn [timer_due]. apply in_app_iff in He' as [He'|[<-|[]]]; [|lia].
      specialize (Hseen e' He'). lia.
  - exact Hstarted.
  - intros u e' Hu He' Hfile. apply in_app_iff in He' as [He'|[<-|[]]].
    + now apply Hquiet.
    + right. specialize (Hstarted u Hu). lia.
Qed.

Lemma run_settled events : forall seen s,
  bounded s -> inStep s -> settled env seen s -> inOrder (now s) events ->
  settled env (seen ++ events) (run env events s).
Proof.
  induction events as [|e events IH]; intros seen s Hb Hs Hq Horder.
  { now rewrite app_nil_r. }
  destruct Horder as [Hnow Horder].
  cbn [run fold_left]. fold (run env events (step env s e)).
  replace (seen ++ e :: events)%list with ((seen ++ [e]) ++ events)%list
    by now rewrite <- app_assoc.
  pose proof (advanceTo_bounded env (save_time e) s Hb) as Hb'.
  pose proof (advanceTo_now env (save_time e) s Hnow) as Hnow'.
  pose proof (advanceTo_settled seen (save_time e) s Hs Hq) as Hq'.
  pose proof (advanceTo_inStep env (save_time e) s Hs) as Hs'.
  apply IH.
  - now apply bounded_debounceUpload.
  - now apply inStep_debounceUpload.
  - now apply settled_debounceUpload.
  - unfold step. cbn [debounceUpload now]. now rewrite Hnow'.
Qed.

End Quiet.

(** X21. An upload waits for the file to be quiet: when saves are
    handled in the order of their times, no save of a file falls within
    the debounce delay before the start of an upload of that file; every
    save of the file is a full delay before the start, or not before
    it. *)
Theorem upload_waits_for_quiet (env : Env) (events : list Save) :
  inOrder 0 events ->
  forall u e,
    In u (uploads (run env events initial)) -> In e events ->
    save_file e = upload_file u ->
    save_time e + delayOf env <= upload_start u
    \/ upload_start u <= save_time e.
Proof.
  intros Horder.
  destruct (initial_keeps env) as [Hs _].
  assert (Hq : settled env [] initial) by (repeat split; now intros).
  destruct (run_settled env events [] initial bounded_initial Hs Hq Horder)
    as (_ & _ & _ & Hquiet).
  exact Hquiet.
Qed.

End TimerFacts.

(** ** The properties at work on the sample worlds *)

Module Witnesses.
Import Js Eff.

Lemma second_upload_updates_witness :
  exists message id action w1 w2,
    Restlet.post Examples.uploadNew Examples.cabinet
    = (Restlet.Success message id "/SuiteScripts/app/lib/new.js" action, w1)
    /\ Restlet.post Examples.uploadNew w1
       = (Restlet.Success "File updated successfully" id
            "/SuiteScripts/app/lib/new.js" Restlet.update, w2)
    /\ map Restlet.file_id (Restlet.files w2) = map Restlet.file_id (Restlet.files w1)
    /\ Restlet.folders w2 = Restlet.folders Examples.cabinet.
Proof.
  apply (QuietFacts.second_upload_updates Examples.uploadNew Examples.uploadNew
           Examples.cabinet 102); reflexivity.
Defined.

Lemma findOrCreateFolderPath_answers_a_folder_witness :
  exists id,
    fst (Restlet.findOrCreateFolderPath "SuiteScripts/app/x/y" Examples.cabinet)
    = inr id
    /\ Restlet.isFolderOf
         (Restlet.folders
            (snd (Restlet.findOrCreateFolderPath "SuiteScripts/app/x/y"
                    Examples.cabinet))) id.
Proof.
  apply FolderFacts.findOrCreateFolderPath_answers_a_folder. reflexivity.
Defined.

Lemma doDelete_deletes_only_on_request_witness :
  fst (Restlet.doDelete Examples.deleteQuietly Examples.deleteMissing Examples.cabinet)
  = Restlet.NotDeleted "FILE_NOT_FOUND" "File not found: /SuiteScripts/app/lib/gone.js"
  /\ Restlet.onlyReads Examples.cabinet
       (snd (Restlet.doDelete Examples.deleteQuietly Examples.deleteMissing Examples.cabinet)).
Proof.
  apply (proj2 (proj2 (DeleteFacts.doDelete_deletes_only_on_request
                         Examples.deleteQuietly Examples.deleteMissing Examples.cabinet)));
    reflexivity.
Defined.

Lemma getFileType_reads_the_extension_witness :
  Restlet.getFileType "lib.JS" = Restlet.getFileType "Other.js"
  /\ Restlet.getFileType "JS" = Restlet.getFileType "lib.JS".
Proof.
  apply (TypeFacts.getFileType_reads_the_extension "lib" "Other" "JS" "js");
    reflexivity.
Defined.

Lemma parseEnvFile_reads_line_by_line_witness :
  Extension.parseEnvFile
    ("NS_ACCOUNT_ID=111" ++ String Extension.newline "NS_ROOT_PATH='/SuiteScripts/dev'")
  = <["NS_ROOT_PATH" := "/SuiteScripts/dev"]> (Extension.parseEnvFile "NS_ACCOUNT_ID=111").
Proof.
  apply (proj2 (proj2 (EnvFacts.parseEnvFile_reads_line_by_line
                         "NS_ACCOUNT_ID=111" "NS_ROOT_PATH='/SuiteScripts/dev'"
                         "N" "S_ROOT_PATH" "'/SuiteScripts/dev'" eq_refl)));
    try reflexivity; discriminate.
Defined.

Lemma loadEnvConfig_caches_until_cleared_witness :
  fst (Extension.loadEnvConfig (Some Examples.workspace) Examples.withEnvFiles)
  = inr (Extension.envOfFiles (Extension.fileSystem Examples.withEnvFiles) "/home/dev/project")
  /\ fst (Extension.loadEnvConfig (Some Examples.workspace)
            (Extension.setFileSystem ∅
               (snd (Extension.loadEnvConfig (Some Examples.workspace) Examples.withEnvFiles))))
     = inr (Extension.envOfFiles (Extension.fileSystem Examples.withEnvFiles) "/home/dev/project")
  /\ fst (Extension.loadEnvConfig (Some Examples.workspace)
            (snd (Extension.clearEnvCache None
                    (Extension.setFileSystem ∅
                       (snd (Extension.loadEnvConfig (Some Examples.workspace)
                               Examples.withEnvFiles))))))
     = inr (Extension.envOfFiles ∅ "/home/dev/project").
Proof.
  destruct (CacheFacts.loadEnvConfig_caches_until_cleared Examples.workspace
              Examples.withEnvFiles ∅ None eq_refl (or_introl eq_refl))
    as (H1 & H2 & H3).
  split; [exact H1|]. split; [|exact H3].
  exact (f_equal fst H2).
Defined.

Lemma later_env_file_wins_witness :
  exists envConfig,
    fst (Extension.loadEnvConfig (Some Examples.workspace) Examples.withEnvFiles)
    = inr envConfig
    /\ envConfig !! "NS_ACCOUNT_ID" = Some "222".
Proof.
  destruct (CacheFacts.later_env_file_wins Examples.workspace Examples.withEnvFiles
              "NS_ACCOUNT_ID" eq_refl) as (envConfig & Hload & Hkey).
  exists envConfig. split; [exact Hload|]. rewrite Hkey. reflexivity.
Defined.

Lemma upload_settings_are_never_missing_witness :
  present
    (Extension.credentialIn "rootPath" (Some Examples.workspace) Examples.bare) = true.
Proof.
  apply CacheFacts.upload_settings_are_never_missing. simpl. auto.
Defined.

Lemma handleFileSave_gate_witness :
  fst (Extension.handleFileSave Examples.watchScripts Examples.savedDocument Examples.bare)
  = inr true.
Proof.
  exact (proj2 (proj2 (proj2 (SaveFacts.handleFileSave_gate Examples.watchScripts
                                Examples.savedDocument Examples.bare)))
           Examples.workspace eq_refl eq_refl).
Defined.

Lemma uploadFile_gives_up_offline_witness :
  fst (Extension.uploadFile Examples.savedDocument Examples.bare) = inr tt
  /\ Extension.offline Examples.bare
       (snd (Extension.uploadFile Examples.savedDocument Examples.bare)).
Proof.
  apply SaveFacts.uploadFile_gives_up_offline. left. reflexivity.
Defined.

Lemma uploadFile_records_successes_only_witness :
  Extension.uploadHistory
    (snd (Extension.uploadFile Examples.savedDocument Examples.configured))
  = Extension.uploadHistory Examples.configured.
Proof.
  apply (proj2 (proj2 (HistoryFacts.uploadFile_records_successes_only
                         Examples.savedDocument Examples.configured))).
  intros request. reflexivity.
Defined.

Lemma testConnection_only_probes_witness :
  Extension.offline Examples.bare
    (snd (Extension.testConnection (Some Examples.workspace) Examples.bare)).
Proof.
  apply (proj2 (proj2 (proj2 (HistoryFacts.testConnection_only_probes
                                (Some Examples.workspace) Examples.bare)))).
  reflexivity.
Defined.

Lemma upload_waits_for_quiet_witness :
  Dispatcher.inOrder 0 Examples.twoSaves
  /\ (1500 + Dispatcher.delayOf Examples.slowNetwork <= 1000 \/ 1000 <= 1500).
Proof.
  assert (Horder : Dispatcher.inOrder 0 Examples.twoSaves) by (vm_compute; lia).
  split; [exact Horder|].
  apply (TimerFacts.upload_waits_for_quiet Examples.slowNetwork Examples.twoSaves
           Horder
           (Dispatcher.uploadAt Examples.slowNetwork "/w/src/a.js" 1000)
           {| Dispatcher.save_time := 1500; Dispatcher.save_file := "/w/src/a.js" |}).
  - vm_compute. left. reflexivity.
  - right. left. reflexivity.
  - reflexivity.
Defined.

Lemma environment_wins_over_settings_witness :
  Extension.settings Examples.configuredWithEnvFiles !! "accountId" = Some "1234567_SB1"
  /\ Extension.credentialIn "accountId" (Some Examples.workspace)
       Examples.configuredWithEnvFiles = Some "222".
Proof.
  split; [reflexivity|].
  apply (proj1 (CacheFacts.environment_wins_over_settings Examples.workspace
                  Examples.configuredWithEnvFiles "accountId" "NS_ACCOUNT_ID"
                  ["NETSUITE_ACCOUNT_ID"] eq_refl eq_refl) "222");
    reflexivity.
Defined.

Lemma post_succeeds_on_checked_requests_only_witness :
  exists p c,
    Restlet.path Examples.upload = Some p
    /\ Restlet.content Examples.upload = Some c
    /\ isEmpty p = false
    /\ (len c <= Restlet.maxFileSize Restlet.CONFIG)%Z
    /\ "/SuiteScripts/app/lib/a.js" = Restlet.sanitizePath p
    /\ includes "/SuiteScripts/app/lib/a.js" ".." = false.
Proof.
  apply (GuardFacts.post_succeeds_on_checked_requests_only Examples.upload
           Examples.cabinet "File updated successfully" 500
           "/SuiteScripts/app/lib/a.js" Restlet.update).
  reflexivity.
Defined.

Lemma uploadFile_records_the_answer_witness :
  Extension.uploadHistory
    (snd (Extension.uploadFile Examples.savedDocument (Examples.sourceWorld "new")))
  = [ {| Extension.h_file := "b.js";
         Extension.h_localPath := Examples.savedSource;
         Extension.h_netSuitePath := "/SuiteScripts/a/b.js";
         Extension.h_action := Some "create";
         Extension.h_fileId := Some 502%Z |} ].
Proof.
  apply (AnswerFacts.uploadFile_records_the_answer Examples.savedDocument
           Examples.workspace (Examples.sourceWorld "new") Examples.restletUrl "new"
           Examples.restletUrlParsed 200
           (Wire.answerOf
              (Restlet.Success "File created successfully" 502
                 "/SuiteScripts/a/b.js" Restlet.create)));
    try reflexivity.
  intros request Hbody. unfold Examples.sourceWorld, Examples.configuredWith.
  cbn [Extension.remote]. unfold Wire.endpoint. rewrite Hbody. reflexivity.
Defined.

End Witnesses.
